(** * oomph-lib: block preconditioners, multi-vectors and the MUMPS wrapper

  A shallow embedding of the parts of oomph-lib that the specification of
  the block-preconditioning / distributed linear-algebra core talks about:

  - [src/meshes/simple_cubic_mesh.template.h]    (module [CubicMesh])
  - [src/space_time/.../general_purpose_space_time_block_preconditioner.h]
      (modules [SpaceTimeBlockPreconditioner], [ExactDGP], [BandedBlockTriangular])
  - [src/generic/mumps_solver.h]                 (module [Mumps])
  - [src/generic/double_multi_vector.h]          (module [DoubleMultiVector])
  - [src/time_harmonic_fourier_decomposed_linear_elasticity/
      time_harmonic_fourier_decomposed_linear_elasticity_elements.h]
                                                 (module [Elasticity])

  The definitions come first, module by module; the properties follow in
  modules of their own.

  C++ [double] is Rocq's primitive binary64 [float]; [unsigned] values are
  natural numbers whose 32-bit wrap-around is written out where the code
  does arithmetic on them; [int] values are integers.  Exceptions, undefined
  behaviour and the mutable state are explicit: a method is a function from
  a state to an [outcome]. *)

From Stdlib Require Import ZArith Floats Uint63 String.
From stdpp Require Import gmap list strings pretty.

(** ** Common definitions: errors, outcomes and loops *)

Module Oomph.

(** The preprocessor symbols that switch checks and MPI code on and off. *)
Record build_config : Type := BuildConfig {
  PARANOID : bool;
  RANGE_CHECKING : bool;
  OOMPH_HAS_MPI : bool
}.

(** [OomphLibError(message, OOMPH_CURRENT_FUNCTION, OOMPH_EXCEPTION_LOCATION)]:
    the message and the name of the throwing function. *)
Record OomphLibError : Type := MkOomphLibError {
  error_message : string;
  error_function : string
}.

(** What a call does to a state of type [S]: it returns normally, it leaves
    by an exception, or its behaviour is undefined (a read or write outside
    an array, through a null or indeterminate pointer, a [delete] of
    storage that is not live). *)
Inductive outcome (St A : Type) : Type :=
| Ok (a : A) (s : St)
| Throw (e : OomphLibError) (s : St)
| Undefined.
Arguments Ok {St A} a s.
Arguments Throw {St A} e s.
Arguments Undefined {St A}.

Definition M (St A : Type) : Type := St → outcome St A.

Definition ret {St A} (a : A) : M St A := λ s, Ok a s.

Definition bind {St A B} (m : M St A) (k : A → M St B) : M St B :=
  λ s, match m s with
       | Ok a s' => k a s'
       | Throw e s' => Throw e s'
       | Undefined => Undefined
       end.

Definition throw {St A} (e : OomphLibError) : M St A := λ s, Throw e s.
Definition undefined {St A} : M St A := λ _, Undefined.
Definition get_state {St} : M St St := λ s, Ok s s.
Definition put_state {St} (s : St) : M St unit := λ _, Ok tt s.
Definition modify_state {St} (f : St → St) : M St unit := λ s, Ok tt (f s).

(** [from_option o]: the value of [o], undefined behaviour when there is none. *)
Definition from_option {St A} (o : option A) : M St A :=
  match o with Some a => ret a | None => undefined end.

#[global] Instance M_ret {St} : MRet (M St) := @ret St.
#[global] Instance M_bind {St} : MBind (M St) := λ A B k m, bind m k.

(** [for (unsigned i = start; i < start + count; i++) acc = body(i, acc);] *)
Fixpoint for_range {St A} (body : nat → A → M St A) (start count : nat) (acc : A)
  : M St A :=
  match count with
  | 0 => ret acc
  | S count' => bind (body start acc) (for_range body (S start) count')
  end.

(** [for (unsigned i = 0; i < n; i++) ...] with the local variables the body
    updates passed along as [acc]. *)
Definition for_loop {St A} (n : nat) (body : nat → A → M St A) (acc : A) : M St A :=
  for_range body 0 n acc.

(** The line feed written by ["\n"] and [std::endl]. *)
Definition newline : string := String (Ascii.ascii_of_nat 10) EmptyString.

(** [unsigned] arithmetic is modulo 2^32. *)
Definition wrap_unsigned (z : Z) : nat := Z.to_nat (z mod 4294967296).

(** [int(u)] for an [unsigned] value [u] (two's complement). *)
Definition int_of_unsigned (u : nat) : Z :=
  let z := (Z.of_nat u mod 4294967296)%Z in
  if (z <? 2147483648)%Z then z else (z - 4294967296)%Z.

(** Modelled from the spec: [LinearAlgebraDistribution]
    (generic/linear_algebra_distribution.h) is not part of these sources.
    The specification's distribution: how the global rows are partitioned,
    seen from the calling process (its first row and its number of local
    rows), whether the object is actually distributed, the size of the
    communicator, and whether the descriptor has been built at all. *)
Record LinearAlgebraDistribution : Type := MkDistribution {
  dist_built : bool;
  dist_nrow : nat;
  dist_first_row : nat;
  dist_nrow_local : nat;
  dist_distributed : bool;
  dist_nproc : nat
}.

#[global] Instance LinearAlgebraDistribution_eq_dec : EqDecision LinearAlgebraDistribution.
Proof. solve_decision. Defined.

(** The distribution of a default-constructed or cleared object. *)
Definition unbuilt_distribution : LinearAlgebraDistribution :=
  MkDistribution false 0 0 0 false 0.

End Oomph.

(** ** [SimpleCubicMesh] (src/meshes/simple_cubic_mesh.template.h) *)

Module CubicMesh.
Section WithMesh.

(** The nodes and elements that [build_mesh] creates.  [build_mesh] is
    defined in simple_cubic_mesh.template.cc; the header only shows that the
    constructors store their arguments and then call it. *)
Variable MeshData : Type.
Variable build_mesh : nat → nat → nat → MeshData.

Record SimpleCubicMesh : Type := MkSimpleCubicMesh {
  Nx : nat;
  Ny : nat;
  Nz : nat;
  Xmin : float;
  Xmax : float;
  Ymin : float;
  Ymax : float;
  Zmin : float;
  Zmax : float;
  mesh_data : MeshData
}.

(** [SimpleCubicMesh(nx, ny, nz, lx, ly, lz, time_stepper_pt)] *)
Definition SimpleCubicMesh_lengths (nx ny nz : nat) (lx ly lz : float)
  : SimpleCubicMesh :=
  {| Nx := nx; Ny := ny; Nz := nz;
     Xmin := 0%float; Xmax := lx;
     Ymin := 0%float; Ymax := ly;
     Zmin := 0%float; Zmax := lz;
     mesh_data := build_mesh nx ny nz |}.

(** [SimpleCubicMesh(nx, ny, nz, xmin, xmax, ymin, ymax, zmin, zmax,
    time_stepper_pt)] *)
Definition SimpleCubicMesh_bounds (nx ny nz : nat)
    (xmin xmax ymin ymax zmin zmax : float) : SimpleCubicMesh :=
  {| Nx := nx; Ny := ny; Nz := nz;
     Xmin := xmin; Xmax := xmax;
     Ymin := ymin; Ymax := ymax;
     Zmin := zmin; Zmax := zmax;
     mesh_data := build_mesh nx ny nz |}.

(** [const unsigned& nx() const { return Nx; }] *)
Definition nx (m : SimpleCubicMesh) : nat := Nx m.

(** [const unsigned& ny() const { return Ny; }] *)
Definition ny (m : SimpleCubicMesh) : nat := Ny m.

(** [const unsigned& nz() const { return Nx; }] *)
Definition nz (m : SimpleCubicMesh) : nat := Nx m.

End WithMesh.
End CubicMesh.

(** ** The space-time block preconditioners
    (src/space_time/space_time_block_preconditioner/general_purpose_space_time_block_preconditioner.h) *)

Module SpaceTimeBlockPreconditioner.
Import Oomph.

(** What the methods of this header do to the world outside the object: the
    [delete] of a [MatrixVectorProduct], the call of the base class's
    clean-up, and a warning.
    Modelled from the spec: [OomphLibWarning] is declared in
    generic/oomph_definitions.h, which is not part of these sources; the
    specification has advisory conditions "reported as non-fatal warnings
    with a safe fallback value", so constructing an [OomphLibWarning] prints
    its message and the call goes on. *)
Inductive event : Type :=
| Warning (message function : string)
| DeleteOperator (address : nat)
| BaseCleanUp.

(** The heap of [MatrixVectorProduct] objects (the addresses that [new]
    returned and [delete] has not yet seen) and the events so far. *)
Record world : Type := World {
  operators : gset nat;
  log : list event
}.

Definition emit (e : event) : M world unit :=
  modify_state (λ w, {| operators := operators w; log := log w ++ [e] |}).

(** [delete p;] for a [MatrixVectorProduct* p]: nothing for a null pointer,
    undefined for a pointer that is not live. *)
Definition delete (p : option nat) : M world unit :=
  match p with
  | None => ret tt
  | Some a =>
      λ w, if decide (a ∈ operators w)
           then Ok tt {| operators := operators w ∖ {[a]};
                         log := log w ++ [DeleteOperator a] |}
           else Undefined
  end.

(** Modelled from the spec: [DenseMatrix<T>] is declared in
    generic/matrices.h, which is not part of these sources.  The
    specification's "2-D table of optionally-present owned resources": [N]
    rows and [M] columns stored row by row, entry [(i,j)] at [M*i + j]. *)
Record DenseMatrix (T : Type) : Type := MkDenseMatrix {
  N : nat;
  M_ : nat;
  Matrixdata : list T
}.
Arguments MkDenseMatrix {T} N M_ Matrixdata.
Arguments N {T} d.
Arguments M_ {T} d.
Arguments Matrixdata {T} d.

Definition nrow {T} (d : DenseMatrix T) : nat := N d.
Definition ncol {T} (d : DenseMatrix T) : nat := M_ d.

(** [d(i,j)] read and written; outside the storage there is no entry. *)
Definition entry {T} (d : DenseMatrix T) (i j : nat) : option T :=
  Matrixdata d !! (M_ d * i + j).

Definition set_entry {T} (d : DenseMatrix T) (i j : nat) (x : T) : option (DenseMatrix T) :=
  if decide (M_ d * i + j < length (Matrixdata d))
  then Some (MkDenseMatrix (N d) (M_ d) (<[M_ d * i + j := x]> (Matrixdata d)))
  else None.

(** The default-constructed, empty matrix. *)
Definition DenseMatrix_empty {T} : DenseMatrix T := MkDenseMatrix 0 0 [].

(** *** Vocabulary for the properties of [clean_up_memory] *)

(** The non-null pointers stored in a table, row by row. *)
Definition stored_operators (d : DenseMatrix (option nat)) : list nat :=
  omap id (Matrixdata d).

(** The same table with a null pointer in every slot. *)
Definition nulled (d : DenseMatrix (option nat)) : DenseMatrix (option nat) :=
  MkDenseMatrix (N d) (M_ d) (replicate (length (Matrixdata d)) None).

(** The table owns its operators: it has [N * M_] slots, and the non-null
    slots hold pairwise different addresses of live operators. *)
Definition owns_operators (w : world) (d : DenseMatrix (option nat)) : Prop :=
  length (Matrixdata d) = N d * M_ d ∧
  NoDup (stored_operators d) ∧
  ∀ a, a ∈ stored_operators d → a ∈ operators w.

(** The world after one more warning has been printed. *)
Definition warned (w : world) (message function : string) : world :=
  {| operators := operators w; log := log w ++ [Warning message function] |}.

(** The state of the two loops of [clean_up_memory] when the first [k] slots
    (row by row) have been dealt with. *)
Definition cleaned_up_to (d0 : DenseMatrix (option nat)) (w0 : world) (k : nat)
    (d : DenseMatrix (option nat)) (w : world) : Prop :=
  d = MkDenseMatrix (N d0) (M_ d0) (replicate k None ++ drop k (Matrixdata d0)) ∧
  w = {| operators := operators w0 ∖ list_to_set (omap id (take k (Matrixdata d0)));
         log := log w0 ++ (DeleteOperator <$> omap id (take k (Matrixdata d0))) |}.

(** The operators in the first [k] slots (row by row) are pairwise
    different and live. *)
Definition owned_up_to (d0 : DenseMatrix (option nat)) (w0 : world) (k : nat) : Prop :=
  NoDup (omap id (take k (Matrixdata d0))) ∧
  Forall (λ a, a ∈ operators w0) (omap id (take k (Matrixdata d0))).

#[global] Instance owned_up_to_dec d0 w0 k : Decision (owned_up_to d0 w0 k).
Proof. unfold owned_up_to. apply _. Defined.

(** The texts of the two warnings of [get_memory_usage_in_bytes()]. *)
Definition statistics_not_calculated_message : string :=
  "The memory statistics have not been calculated so I'm returning" +:+
  newline +:+ "the value zero." +:+ newline.

Definition not_set_up_message : string :=
  "The preconditioner hasn't even been set up yet so I'm returning" +:+
  newline +:+ "the value zero." +:+ newline.

End SpaceTimeBlockPreconditioner.

(** *** [ExactDGPBlockPreconditioner] *)

Module ExactDGP.
Import Oomph SpaceTimeBlockPreconditioner.

Section WithBase.

(** The base class [GeneralPurposeBlockPreconditioner<MATRIX>]
    (generic/general_purpose_block_preconditioners.h, not part of these
    sources): its state, its default constructor and its [clean_up_memory]. *)
Variable Base : Type.
Variable Base_constructor : Base.
Variable Base_clean_up_memory : Base → Base.

Record ExactDGPBlockPreconditioner : Type := MkExactDGP {
  base : Base;
  Preconditioner_has_been_setup : bool;
  Compute_memory_statistics : bool;
  Memory_usage_in_bytes : float
}.

(** [ExactDGPBlockPreconditioner()] *)
Definition ExactDGPBlockPreconditioner_constructor : ExactDGPBlockPreconditioner :=
  {| base := Base_constructor;
     Preconditioner_has_been_setup := false;
     Compute_memory_statistics := false;
     Memory_usage_in_bytes := 0%float |}.

(** [void enable_doc_memory_usage()] *)
Definition enable_doc_memory_usage (p : ExactDGPBlockPreconditioner) :=
  {| base := base p;
     Preconditioner_has_been_setup := Preconditioner_has_been_setup p;
     Compute_memory_statistics := true;
     Memory_usage_in_bytes := Memory_usage_in_bytes p |}.

(** [void disable_doc_memory_usage()] *)
Definition disable_doc_memory_usage (p : ExactDGPBlockPreconditioner) :=
  {| base := base p;
     Preconditioner_has_been_setup := Preconditioner_has_been_setup p;
     Compute_memory_statistics := false;
     Memory_usage_in_bytes := Memory_usage_in_bytes p |}.

(** [double ExactDGPBlockPreconditioner::get_memory_usage_in_bytes()] *)
Definition get_memory_usage_in_bytes (p : ExactDGPBlockPreconditioner)
  : M world float :=
  if Preconditioner_has_been_setup p then
    if Compute_memory_statistics p then
      ret (Memory_usage_in_bytes p)
    else
      emit (Warning statistics_not_calculated_message
              "ExactDGPBlockPreconditioner::get_memory_usage_in_bytes");;
      ret 0%float
  else
    emit (Warning not_set_up_message
            "ExactDGPBlockPreconditioner::get_memory_usage_in_bytes");;
    ret 0%float.

(** [virtual void ExactDGPBlockPreconditioner::clean_up_memory()] *)
Definition clean_up_memory (p : ExactDGPBlockPreconditioner)
  : M world ExactDGPBlockPreconditioner :=
  emit BaseCleanUp;;
  ret {| base := Base_clean_up_memory (base p);
         Preconditioner_has_been_setup := Preconditioner_has_been_setup p;
         Compute_memory_statistics := Compute_memory_statistics p;
         Memory_usage_in_bytes := Memory_usage_in_bytes p |}.

End WithBase.
End ExactDGP.

(** *** [BandedBlockTriangularPreconditioner] *)

Module BandedBlockTriangular.
Import Oomph SpaceTimeBlockPreconditioner.

Section WithBase.

(** The base class [GeneralPurposeBlockPreconditioner<MATRIX>]
    (generic/general_purpose_block_preconditioners.h, not part of these
    sources): its state, its default constructor and its [clean_up_memory]. *)
Variable Base : Type.
Variable Base_constructor : Base.
Variable Base_clean_up_memory : Base → Base.

Record BandedBlockTriangularPreconditioner : Type := MkBanded {
  base : Base;
  Off_diagonal_matrix_vector_products : DenseMatrix (option nat);
  Block_bandwidth : Z;
  Upper_triangular : bool;
  Preconditioner_has_been_setup : bool;
  Compute_memory_statistics : bool;
  Memory_usage_in_bytes : float
}.

(** [BandedBlockTriangularPreconditioner()] *)
Definition BandedBlockTriangularPreconditioner_constructor
  : BandedBlockTriangularPreconditioner :=
  {| base := Base_constructor;
     Off_diagonal_matrix_vector_products := DenseMatrix_empty;
     Block_bandwidth := (-1)%Z;
     Upper_triangular := true;
     Preconditioner_has_been_setup := false;
     Compute_memory_statistics := false;
     Memory_usage_in_bytes := 0%float |}.

Definition with_products (p : BandedBlockTriangularPreconditioner)
    (d : DenseMatrix (option nat)) : BandedBlockTriangularPreconditioner :=
  {| base := base p;
     Off_diagonal_matrix_vector_products := d;
     Block_bandwidth := Block_bandwidth p;
     Upper_triangular := Upper_triangular p;
     Preconditioner_has_been_setup := Preconditioner_has_been_setup p;
     Compute_memory_statistics := Compute_memory_statistics p;
     Memory_usage_in_bytes := Memory_usage_in_bytes p |}.

Definition with_base (p : BandedBlockTriangularPreconditioner) (b : Base)
  : BandedBlockTriangularPreconditioner :=
  {| base := b;
     Off_diagonal_matrix_vector_products := Off_diagonal_matrix_vector_products p;
     Block_bandwidth := Block_bandwidth p;
     Upper_triangular := Upper_triangular p;
     Preconditioner_has_been_setup := Preconditioner_has_been_setup p;
     Compute_memory_statistics := Compute_memory_statistics p;
     Memory_usage_in_bytes := Memory_usage_in_bytes p |}.

(** [void set_block_bandwidth(const int& block_bandwidth)] *)
Definition set_block_bandwidth (block_bandwidth : Z)
    (p : BandedBlockTriangularPreconditioner) : BandedBlockTriangularPreconditioner :=
  {| base := base p;
     Off_diagonal_matrix_vector_products := Off_diagonal_matrix_vector_products p;
     Block_bandwidth := block_bandwidth;
     Upper_triangular := Upper_triangular p;
     Preconditioner_has_been_setup := Preconditioner_has_been_setup p;
     Compute_memory_statistics := Compute_memory_statistics p;
     Memory_usage_in_bytes := Memory_usage_in_bytes p |}.

(** [int block_bandwidth()] *)
Definition block_bandwidth (p : BandedBlockTriangularPreconditioner) : Z :=
  Block_bandwidth p.

Definition set_Upper_triangular (b : bool)
    (p : BandedBlockTriangularPreconditioner) : BandedBlockTriangularPreconditioner :=
  {| base := base p;
     Off_diagonal_matrix_vector_products := Off_diagonal_matrix_vector_products p;
     Block_bandwidth := Block_bandwidth p;
     Upper_triangular := b;
     Preconditioner_has_been_setup := Preconditioner_has_been_setup p;
     Compute_memory_statistics := Compute_memory_statistics p;
     Memory_usage_in_bytes := Memory_usage_in_bytes p |}.

(** [void upper_triangular()], [void lower_triangular()],
    [bool is_upper_triangular()] *)
Definition upper_triangular := set_Upper_triangular true.
Definition lower_triangular := set_Upper_triangular false.
Definition is_upper_triangular (p : BandedBlockTriangularPreconditioner) : bool :=
  Upper_triangular p.

Definition set_Compute_memory_statistics (b : bool)
    (p : BandedBlockTriangularPreconditioner) : BandedBlockTriangularPreconditioner :=
  {| base := base p;
     Off_diagonal_matrix_vector_products := Off_diagonal_matrix_vector_products p;
     Block_bandwidth := Block_bandwidth p;
     Upper_triangular := Upper_triangular p;
     Preconditioner_has_been_setup := Preconditioner_has_been_setup p;
     Compute_memory_statistics := b;
     Memory_usage_in_bytes := Memory_usage_in_bytes p |}.

(** [void enable_doc_memory_usage()], [void disable_doc_memory_usage()] *)
Definition enable_doc_memory_usage := set_Compute_memory_statistics true.
Definition disable_doc_memory_usage := set_Compute_memory_statistics false.

(** [double BandedBlockTriangularPreconditioner::get_memory_usage_in_bytes()] *)
Definition get_memory_usage_in_bytes (p : BandedBlockTriangularPreconditioner)
  : M world float :=
  if Preconditioner_has_been_setup p then
    if Compute_memory_statistics p then
      ret (Memory_usage_in_bytes p)
    else
      emit (Warning statistics_not_calculated_message
              "BandedBlockTriangularPreconditioner::get_memory_usage_in_bytes");;
      ret 0%float
  else
    emit (Warning not_set_up_message
            "BandedBlockTriangularPreconditioner::get_memory_usage_in_bytes");;
    ret 0%float.

(** The body of the inner loop of [clean_up_memory]:
    [delete Off_diagonal_matrix_vector_products(i, j);
     Off_diagonal_matrix_vector_products(i, j) = 0;] *)
Definition delete_and_null (i j : nat) (d : DenseMatrix (option nat))
  : M world (DenseMatrix (option nat)) :=
  p ← from_option (entry d i j);
  delete p;;
  from_option (set_entry d i j None).

(** [virtual void BandedBlockTriangularPreconditioner::clean_up_memory()]:
    the two loops over [nrow()] and [ncol()], then the base class. *)
Definition clean_up_memory (p : BandedBlockTriangularPreconditioner)
  : M world BandedBlockTriangularPreconditioner :=
  let ni := nrow (Off_diagonal_matrix_vector_products p) in
  d ← for_loop ni (λ i d,
         let nj := ncol d in
         for_loop nj (λ j d, delete_and_null i j d) d)
       (Off_diagonal_matrix_vector_products p);
  emit BaseCleanUp;;
  ret (with_base (with_products p d) (Base_clean_up_memory (base p))).

(** [virtual ~BandedBlockTriangularPreconditioner()]: forwards to
    [this->clean_up_memory()]. *)
Definition destructor (p : BandedBlockTriangularPreconditioner)
  : M world BandedBlockTriangularPreconditioner :=
  clean_up_memory p.

(** Modelled from the spec: [BandedBlockTriangularPreconditioner::setup()] is
    defined in general_purpose_space_time_block_preconditioner.cc, which is
    not part of these sources.  The specification's populated-block policy:
    with [Upper_triangular] only blocks with column index > row index are
    candidates, otherwise only column < row; among the candidates, with
    [Block_bandwidth >= 0] only those with |col - row| <= [Block_bandwidth]
    are populated, otherwise every candidate is. *)
Definition candidate_block (p : BandedBlockTriangularPreconditioner)
    (row col : nat) : bool :=
  if Upper_triangular p then bool_decide (row < col) else bool_decide (col < row).

Definition within_bandwidth (p : BandedBlockTriangularPreconditioner)
    (row col : nat) : bool :=
  if bool_decide (0 ≤ Block_bandwidth p)%Z
  then bool_decide (Z.abs (Z.of_nat col - Z.of_nat row) ≤ Block_bandwidth p)%Z
  else true.

Definition block_is_populated (p : BandedBlockTriangularPreconditioner)
    (row col : nat) : bool :=
  candidate_block p row col && within_bandwidth p row col.

(** The positions of an [n_block] x [n_block] grid for which [setup()] builds
    a matrix-vector product, row by row. *)
Definition populated_blocks (p : BandedBlockTriangularPreconditioner)
    (n_block : nat) : list (nat * nat) :=
  row ← seq 0 n_block;
  col ← seq 0 n_block;
  if block_is_populated p row col then [(row, col)] else [].

End WithBase.
End BandedBlockTriangular.

(** ** The MUMPS wrapper (src/generic/mumps_solver.h) *)

Module Mumps.
Import Oomph.

Section WithSolver.

(** What the header leaves to other files: the base class [LinearSolver] with
    its [disable_resolve], the MUMPS structure [DMUMPS_STRUC_C], the matrix
    and vector classes, and the bodies of [factorise] and [backsub]
    (mumps_solver.cc). *)
Variable LinearSolver : Type.
Variable LinearSolver_disable_resolve : LinearSolver → LinearSolver.
Variable DMUMPS_STRUC_C : Type.
Variable MatrixData : Type.
Variable DoubleVector : Type.

Record MumpsSolver : Type := MkMumpsSolver {
  linear_solver : LinearSolver;
  Jacobian_setup_time : float;
  Solution_time : float;
  Suppress_solve : bool;
  Doc_stats : bool;
  Suppress_warning_about_MPI_COMM_WORLD : bool;
  Suppress_mumps_info_during_solve : bool;
  Mumps_is_initialised : bool;
  Workspace_scaling_factor : nat;
  Delete_matrix_data : bool;
  Irn_loc : list Z;
  Jcn_loc : list Z;
  A_loc : list float;
  Mumps_struc_pt : option DMUMPS_STRUC_C;
  Jacobian_symmetry_flag : nat;
  Jacobian_ordering_flag : nat
}.

Definition with_linear_solver (s : MumpsSolver) (b : LinearSolver) : MumpsSolver :=
  {| linear_solver := b;
     Jacobian_setup_time := Jacobian_setup_time s;
     Solution_time := Solution_time s;
     Suppress_solve := Suppress_solve s;
     Doc_stats := Doc_stats s;
     Suppress_warning_about_MPI_COMM_WORLD := Suppress_warning_about_MPI_COMM_WORLD s;
     Suppress_mumps_info_during_solve := Suppress_mumps_info_during_solve s;
     Mumps_is_initialised := Mumps_is_initialised s;
     Workspace_scaling_factor := Workspace_scaling_factor s;
     Delete_matrix_data := Delete_matrix_data s;
     Irn_loc := Irn_loc s;
     Jcn_loc := Jcn_loc s;
     A_loc := A_loc s;
     Mumps_struc_pt := Mumps_struc_pt s;
     Jacobian_symmetry_flag := Jacobian_symmetry_flag s;
     Jacobian_ordering_flag := Jacobian_ordering_flag s |}.

(** Modelled from the spec: [MumpsSolver::clean_up_memory()] is declared in
    the header and defined in mumps_solver.cc, which is not part of these
    sources.  The specification: it "releases the solver's internal
    factorization state and triplet arrays". *)
Definition clean_up_memory (s : MumpsSolver) : MumpsSolver :=
  {| linear_solver := linear_solver s;
     Jacobian_setup_time := Jacobian_setup_time s;
     Solution_time := Solution_time s;
     Suppress_solve := Suppress_solve s;
     Doc_stats := Doc_stats s;
     Suppress_warning_about_MPI_COMM_WORLD := Suppress_warning_about_MPI_COMM_WORLD s;
     Suppress_mumps_info_during_solve := Suppress_mumps_info_during_solve s;
     Mumps_is_initialised := false;
     Workspace_scaling_factor := Workspace_scaling_factor s;
     Delete_matrix_data := Delete_matrix_data s;
     Irn_loc := [];
     Jcn_loc := [];
     A_loc := [];
     Mumps_struc_pt := None;
     Jacobian_symmetry_flag := Jacobian_symmetry_flag s;
     Jacobian_ordering_flag := Jacobian_ordering_flag s |}.

(** Modelled from the spec: [MumpsSolver::~MumpsSolver()] is defined in
    mumps_solver.cc.  The header's comment is "Destructor: Cleanup"; the
    specification: clean_up_memory "is invoked automatically by the
    destructor". *)
Definition destructor (s : MumpsSolver) : MumpsSolver := clean_up_memory s.

(** [void disable_resolve() { LinearSolver::disable_resolve(); clean_up_memory(); }] *)
Definition disable_resolve (s : MumpsSolver) : MumpsSolver :=
  clean_up_memory (with_linear_solver s (LinearSolver_disable_resolve (linear_solver s))).

(** The state of the preconditioner's surroundings: the lines written to
    [oomph_info]. *)
Record world : Type := World { oomph_info : list string }.

Definition print_info (line : string) : M world unit :=
  modify_state (λ w, {| oomph_info := oomph_info w ++ [line] |}).

(** The world after [setup] has announced itself on [oomph_info]. *)
Definition announced (w : world) : world :=
  {| oomph_info := oomph_info w ++ ["Setting up Mumps (exact) preconditioner"] |}.

(** The back-substitution of the external solver on a factorised system. *)
Variable backsub : DMUMPS_STRUC_C → DoubleVector → DoubleVector.

Definition no_factorisation_error : OomphLibError :=
  {| error_message := "No factorisation exists to be reused";
     error_function := "MumpsSolver::resolve" |}.

(** Modelled from the spec: [MumpsSolver::resolve] is defined in
    mumps_solver.cc.  The specification: it "reuses an existing factorization
    against a new right-hand side and fails if no prior successful
    factorization exists". *)
Definition resolve (rhs result : DoubleVector) (s : MumpsSolver)
  : M world (MumpsSolver * DoubleVector) :=
  match Mumps_is_initialised s, Mumps_struc_pt s with
  | true, Some factors => ret (s, backsub factors rhs)
  | _, _ => throw no_factorisation_error
  end.

(** A [DoubleMatrixBase*]: the matrix, and what
    [dynamic_cast<DistributableLinearAlgebraObject*>] makes of it: the
    distribution of a distributable matrix, nothing for any other. *)
Record DoubleMatrixBase : Type := MkMatrix {
  matrix_data : MatrixData;
  as_distributable : option LinearAlgebraDistribution
}.

(** [MumpsSolver::factorise(DoubleMatrixBase* const& matrix_pt)], defined in
    mumps_solver.cc: it changes the solver and may wipe the matrix. *)
Variable factorise : DoubleMatrixBase → MumpsSolver → M world (MumpsSolver * DoubleMatrixBase).

(** [NewMumpsPreconditioner]: the distribution it has as a
    [DistributableLinearAlgebraObject], the matrix pointer it has as a
    [Preconditioner] (null until one is set), and its solver. *)
Record NewMumpsPreconditioner : Type := MkPreconditioner {
  Distribution_pt : LinearAlgebraDistribution;
  Matrix_pt : option DoubleMatrixBase;
  Solver : MumpsSolver
}.

Definition not_distributable_error : OomphLibError :=
  {| error_message :=
       "NewMumpsPreconditioner can only be applied to matrices derived " +:+
       newline +:+ "DistributableLinearAlgebraObject." +:+ newline;
     error_function := "NewMumpsPreconditioner::setup" |}.

(** [dynamic_cast<DistributableLinearAlgebraObject*>(matrix_pt())]: null for a
    null pointer and for a matrix of another class. *)
Definition dist_matrix_pt (p : NewMumpsPreconditioner)
  : option (DoubleMatrixBase * LinearAlgebraDistribution) :=
  m ← Matrix_pt p; d ← as_distributable m; Some (m, d).

(** [void NewMumpsPreconditioner::setup()] *)
Definition setup (p : NewMumpsPreconditioner) : M world NewMumpsPreconditioner :=
  print_info "Setting up Mumps (exact) preconditioner";;
  match dist_matrix_pt p with
  | Some (m, dist) =>
      '(s, m') ← factorise m (Solver p);
      ret {| Distribution_pt := dist; Matrix_pt := Some m'; Solver := s |}
  | None => throw not_distributable_error
  end.

(** [void preconditioner_solve(const DoubleVector& r, DoubleVector& z)
      { Solver.resolve(r, z); }] *)
Definition preconditioner_solve (r z : DoubleVector) (p : NewMumpsPreconditioner)
  : M world (NewMumpsPreconditioner * DoubleVector) :=
  '(s, z') ← resolve r z (Solver p);
  ret ({| Distribution_pt := Distribution_pt p; Matrix_pt := Matrix_pt p; Solver := s |}, z').

(** [void NewMumpsPreconditioner::clean_up_memory() { Solver.clean_up_memory(); }] *)
Definition preconditioner_clean_up_memory (p : NewMumpsPreconditioner)
  : NewMumpsPreconditioner :=
  {| Distribution_pt := Distribution_pt p; Matrix_pt := Matrix_pt p;
     Solver := clean_up_memory (Solver p) |}.

End WithSolver.

(** *** A concrete solver

    A solver for 1 x 1 matrices whose back-substitution adds the recorded
    factorisation to the right-hand side. *)
Definition example_solver : MumpsSolver unit Z :=
  MkMumpsSolver unit Z tt 0 0 false false false false false 1 false [] [] [] None 0 0.

Definition singular_matrix_error : OomphLibError :=
  {| error_message := "Matrix is singular"; error_function := "MumpsSolver::factorise" |}.

(** Modelled from the spec: [MumpsSolver::factorise] is defined in
    mumps_solver.cc, which is not part of these sources.  The specification:
    [factorise] "performs symbolic analysis ... then numeric factorization",
    and a fatal failure of the external solver ("the external solver
    reporting a singular or ill-conditioned factorization") "must be surfaced
    to the caller".  For 1 x 1 matrices: the matrix 0 is singular and is
    refused with an error; any other matrix is recorded as its own
    factorisation. *)
Definition example_factorise (m : DoubleMatrixBase Z) (s : MumpsSolver unit Z)
  : M world (MumpsSolver unit Z * DoubleMatrixBase Z) :=
  if decide (matrix_data Z m = 0%Z) then throw singular_matrix_error
  else ret (MkMumpsSolver unit Z tt 0 0 false false false false true 1 false
              [1%Z] [1%Z] [1%float] (Some (matrix_data Z m)) 0 0, m).

Definition example_distribution : LinearAlgebraDistribution :=
  MkDistribution true 1 0 1 false 1.

End Mumps.

(** ** [DoubleMultiVector] (src/generic/double_multi_vector.h) *)

Module DoubleMultiVector.
Import Oomph.

(** A [double*]: a block that [new double[...]] returned and an offset into
    it, counted in doubles. *)
Record pointer : Type := Ptr { block : nat; offset : nat }.

(** The address of one double: its block and its index in the block. *)
Definition cell : Type := nat * nat.

(** [&p[i]] *)
Definition cell_of (p : pointer) (i : nat) : cell := (block p, offset p + i).

(** The content of a cell of the heap: none when the cell does not exist,
    [Some None] when it exists and holds no value yet ([new double[n]] leaves
    its doubles indeterminate). *)
Definition slot (h : gmap nat (list (option float))) (c : cell)
  : option (option float) :=
  h !! c.1 ≫= λ l, l !! c.2.

Definition set_slot (h : gmap nat (list (option float))) (c : cell)
    (x : option float) : gmap nat (list (option float)) :=
  alter (<[c.2 := x]>) c.1 h.

(** [MPI_Allreduce(&n, &n2, count, MPI_DOUBLE, MPI_SUM, comm)] on the
    distribution's communicator: the one collective this class calls. *)
Inductive event : Type :=
| Allreduce (sendbuf : list float) (count : Z).

(** The heap of doubles and the collective calls made so far. *)
Record world : Type := World {
  heap : gmap nat (list (option float));
  mpi_calls : list event
}.

Definition with_heap (w : world) (h : gmap nat (list (option float))) : world :=
  {| heap := h; mpi_calls := mpi_calls w |}.

(** [p[i]] read: undefined outside the block and for an indeterminate value. *)
Definition load (p : pointer) (i : nat) : M world float :=
  λ w, match slot (heap w) (cell_of p i) with
       | Some (Some x) => Ok x w
       | _ => Undefined
       end.

(** [p[i] = x]: undefined outside the block. *)
Definition store (p : pointer) (i : nat) (x : float) : M world unit :=
  λ w, match slot (heap w) (cell_of p i) with
       | Some _ => Ok tt (with_heap w (set_slot (heap w) (cell_of p i) (Some x)))
       | None => Undefined
       end.

(** [p[i]] as an lvalue: the address of a double that exists. *)
Definition reference (p : pointer) (i : nat) : M world cell :=
  λ w, match slot (heap w) (cell_of p i) with
       | Some _ => Ok (cell_of p i) w
       | None => Undefined
       end.

(** [new double[n]]: a fresh block of [n] indeterminate doubles. *)
Definition new_array (n : nat) : M world pointer :=
  λ w, let b := fresh (dom (heap w)) in
       Ok (Ptr b 0) (with_heap w (<[b := replicate n None]> (heap w))).

(** [delete[] p]: defined only for the start of a live block. *)
Definition delete_array (p : pointer) : M world unit :=
  λ w, match heap w !! block p with
       | Some _ =>
           if decide (offset p = 0)
           then Ok tt (with_heap w (delete (block p) (heap w)))
           else Undefined
       | None => Undefined
       end.

(** The object.  [Distribution_pt] is the member of the base class
    [DistributableLinearAlgebraObject]; [Values] is the [double**]: null, or
    an array of pointers, each indeterminate until it is assigned.  The
    member [Internal_doublevector] (the [DoubleVector] views of the same
    storage, owning nothing) is left out. *)
Record DoubleMultiVector : Type := MkDoubleMultiVector {
  Distribution_pt : LinearAlgebraDistribution;
  Values : option (list (option pointer));
  Nvector : nat;
  Internal_values : bool;
  Built : bool
}.

Definition with_Values (this : DoubleMultiVector) (v : option (list (option pointer)))
  : DoubleMultiVector :=
  {| Distribution_pt := Distribution_pt this; Values := v; Nvector := Nvector this;
     Internal_values := Internal_values this; Built := Built this |}.

Definition with_Nvector (this : DoubleMultiVector) (n : nat) : DoubleMultiVector :=
  {| Distribution_pt := Distribution_pt this; Values := Values this; Nvector := n;
     Internal_values := Internal_values this; Built := Built this |}.

Definition with_Internal_values (this : DoubleMultiVector) (b : bool) : DoubleMultiVector :=
  {| Distribution_pt := Distribution_pt this; Values := Values this;
     Nvector := Nvector this; Internal_values := b; Built := Built this |}.

Definition with_Built (this : DoubleMultiVector) (b : bool) : DoubleMultiVector :=
  {| Distribution_pt := Distribution_pt this; Values := Values this;
     Nvector := Nvector this; Internal_values := Internal_values this; Built := b |}.

Definition with_Distribution (this : DoubleMultiVector) (d : LinearAlgebraDistribution)
  : DoubleMultiVector :=
  {| Distribution_pt := d; Values := Values this; Nvector := Nvector this;
     Internal_values := Internal_values this; Built := Built this |}.

(** [DoubleMultiVector()] *)
Definition DoubleMultiVector_default : DoubleMultiVector :=
  {| Distribution_pt := unbuilt_distribution; Values := None; Nvector := 0;
     Internal_values := true; Built := false |}.

(** Members inherited from [DistributableLinearAlgebraObject]. *)
Definition nrow_local (this : DoubleMultiVector) : nat :=
  dist_nrow_local (Distribution_pt this).
Definition distribution_built (this : DoubleMultiVector) : bool :=
  dist_built (Distribution_pt this).
Definition distributed (this : DoubleMultiVector) : bool :=
  dist_distributed (Distribution_pt this).
Definition nproc (this : DoubleMultiVector) : nat :=
  dist_nproc (Distribution_pt this).
Definition build_distribution (d : LinearAlgebraDistribution) (this : DoubleMultiVector)
  : DoubleMultiVector := with_Distribution this d.
Definition clear_distribution (this : DoubleMultiVector) : DoubleMultiVector :=
  with_Distribution this unbuilt_distribution.

(** [unsigned nvector() const], [bool built() const] *)
Definition nvector (this : DoubleMultiVector) : nat := Nvector this.
Definition built (this : DoubleMultiVector) : bool := Built this.

(** [Values[v]] read: undefined through a null [Values], outside the array
    of pointers, and for a pointer that was never assigned. *)
Definition Values_at (this : DoubleMultiVector) (v : nat) : M world pointer :=
  vals ← from_option (Values this);
  p ← from_option (vals !! v);
  from_option p.

(** [Values[v] = p] *)
Definition set_Values_at (this : DoubleMultiVector) (v : nat) (p : pointer)
  : M world DoubleMultiVector :=
  vals ← from_option (Values this);
  if decide (v < length vals)
  then ret (with_Values this (Some (<[v := Some p]> vals)))
  else undefined.

(** [double* values(const unsigned& i) const { return Values[i]; }] *)
Definition values (this : DoubleMultiVector) (i : nat) : M world pointer :=
  Values_at this i.

(** [void clear()] *)
Definition clear (this : DoubleMultiVector) : M world DoubleMultiVector :=
  match Values this with
  | None => ret this
  | Some _ =>
      (if Internal_values this
       then p ← Values_at this 0; delete_array p
       else ret tt);;
      ret (with_Built (clear_distribution (with_Values this None)) false)
  end.

(** [~DoubleMultiVector() { this->clear(); }] *)
Definition destructor (this : DoubleMultiVector) : M world unit :=
  clear this;; ret tt.

(** A [const LinearAlgebraDistribution*] handed to a member of an object:
    the address of the distribution that the object itself holds (what
    [distribution_pt()] of the same object returns), or the address of
    another distribution object.  No member of this class writes to a
    distribution other than the object's own, so another distribution is
    given by its value. *)
Inductive distribution_pointer : Type :=
| own_distribution
| other_distribution (d : LinearAlgebraDistribution).

(** [*dist_pt], read while the object is in the state [this]. *)
Definition pointee (dist_pt : distribution_pointer) (this : DoubleMultiVector)
  : LinearAlgebraDistribution :=
  match dist_pt with
  | own_distribution => Distribution_pt this
  | other_distribution d => d
  end.

(** [void build(const unsigned& n_vector,
                const LinearAlgebraDistribution* const& dist_pt,
                const double& initial_value = 0.0)]; [dist_pt] is dereferenced
    after [clear()] has run. *)
Definition build (n_vector : nat) (dist_pt : distribution_pointer)
    (initial_value : float) (this : DoubleMultiVector) : M world DoubleMultiVector :=
  this ← clear this;
  let this := with_Internal_values this true in
  let this := build_distribution (pointee dist_pt this) this in
  if dist_built (pointee dist_pt this) then
    let this := with_Nvector this n_vector in
    let this := with_Values this (Some (replicate n_vector None)) in
    let n_row_local := nrow_local this in
    values ← new_array (wrap_unsigned (Z.of_nat n_row_local * Z.of_nat n_vector));
    this ← for_loop n_vector (λ v this,
      this ← set_Values_at this v
               (Ptr (block values)
                    (offset values + wrap_unsigned (Z.of_nat v * Z.of_nat n_row_local)));
      for_loop n_row_local (λ i _,
        p ← Values_at this v;
        store p i initial_value) tt;;
      ret this) this;
    ret (with_Built this true)
  else
    ret (with_Built this false).

(** [void shallow_build(const unsigned& n_vector,
                        const LinearAlgebraDistribution* const& dist_pt)] *)
Definition shallow_build (n_vector : nat) (dist_pt : distribution_pointer)
    (this : DoubleMultiVector) : M world DoubleMultiVector :=
  this ← clear this;
  let this := with_Internal_values this false in
  let this := build_distribution (pointee dist_pt this) this in
  if dist_built (pointee dist_pt this) then
    let this := with_Nvector this n_vector in
    let this := with_Values this (Some (replicate n_vector None)) in
    ret (with_Built this true)
  else
    ret (with_Built this false).

(** [bool operator==(const DoubleMultiVector& vec)]; the local variable of
    the loops records that [return false] has been reached. *)
Definition equal (this vec : DoubleMultiVector) : M world bool :=
  if built vec && negb (built this) then ret false
  else if negb (built vec) && built this then ret false
  else if negb (built vec) && negb (built this) then ret true
  else
    let n_row_local := nrow_local this in
    let n_vector := nvector this in
    differ ← for_loop n_vector (λ v differ,
      for_loop n_row_local (λ i (differ : bool),
        if differ then ret true else
        x ← (p ← Values_at this v; load p i);
        y ← (p ← Values_at vec v; load p i);
        ret (negb (PrimFloat.eqb x y))) differ) false;
    ret (negb differ).

(** A [const DoubleMultiVector&] handed to a member of an object: the
    object itself, or another object, which the member does not change and
    which is given by its value (its doubles are in the heap, where the two
    may still share them). *)
Inductive vector_reference : Type :=
| this_vector
| other_vector (old_vector : DoubleMultiVector).

(** The object behind the reference, read while the object the member was
    called on is in the state [this]. *)
Definition referent (old_vector : vector_reference) (this : DoubleMultiVector)
  : DoubleMultiVector :=
  match old_vector with
  | this_vector => this
  | other_vector old_vector => old_vector
  end.

(** [old_vector.distribution_pt()] *)
Definition distribution_pt (old_vector : vector_reference) : distribution_pointer :=
  match old_vector with
  | this_vector => own_distribution
  | other_vector old_vector => other_distribution (Distribution_pt old_vector)
  end.

(** [void build(const DoubleMultiVector& old_vector)] (deep copy);
    [old_vector.values()] is read after the inner [build] has run. *)
Definition build_copy (old_vector : vector_reference) (this : DoubleMultiVector)
  : M world DoubleMultiVector :=
  bind (equal this (referent old_vector this)) (λ same : bool,
  if same then ret this else
  let this := with_Internal_values this true in
  let this := with_Nvector this (nvector (referent old_vector this)) in
  this ← build (Nvector this) (distribution_pt old_vector) 0%float this;
  (if distribution_built this then
     let n_row_local := nrow_local this in
     let old_vector_values := referent old_vector this in
     for_loop n_row_local (λ i _,
       for_loop (Nvector this) (λ v _,
         x ← (p ← Values_at old_vector_values v; load p i);
         p ← Values_at this v;
         store p i x) tt) tt
   else ret tt);;
  ret this).

(** [void setup_doublevector_representation()]: for each of the
    [nvector()] vectors, [values(v)] is read and handed to the [DoubleVector]
    [Internal_doublevector[v]] as its external values.  The member
    [Internal_doublevector] is left out of the object, so what remains here is
    the read of [Values[v]]. *)
Definition setup_doublevector_representation (this : DoubleMultiVector) : M world unit :=
  let n_vector := nvector this in
  for_loop n_vector (λ v _, values this v;; ret tt) tt.

(** [DoubleMultiVector(const DoubleMultiVector& new_vector)]: the object
    under construction is not [new_vector]. *)
Definition copy_constructor (new_vector : DoubleMultiVector) : M world DoubleMultiVector :=
  this ← build_copy (other_vector new_vector) DoubleMultiVector_default;
  setup_doublevector_representation this;;
  ret this.

(** A parameter passed by value lives as long as the call: its destructor
    runs when the body returns and when it throws. *)
Definition with_parameter {A} (vec : DoubleMultiVector) (body : M world A) : M world A :=
  λ w, match body w with
       | Ok a w' =>
           match destructor vec w' with
           | Ok _ w'' => Ok a w''
           | Throw e w'' => Throw e w''
           | Undefined => Undefined
           end
       | Throw e w' =>
           match destructor vec w' with
           | Ok _ w'' => Throw e w''
           | _ => Undefined
           end
       | Undefined => Undefined
       end.

Definition range_error (message : string) : OomphLibError :=
  {| error_message := message; error_function := "DoubleMultiVector::operator()" |}.

(** [p[i]] as an lvalue for an [int] index [i]: the double [i] places from
    [p] in the block of [p].  A negative [i] steps back towards the start of
    the block; there is no double before the start of the block or past its
    end. *)
Definition reference_at (p : pointer) (i : Z) : M world cell :=
  if (Z.of_nat (offset p) + i <? 0)%Z then undefined
  else reference (Ptr (block p) 0) (Z.to_nat (Z.of_nat (offset p) + i)).

(** [double& operator()(int v, int i) const]: the checks of a
    [RANGE_CHECKING] build, then [return Values[v][i]]; the reference
    returned is the address of the double.  [Values[v]] for a negative [v]
    is a read before the array of pointers. *)
Definition call (cfg : build_config) (this : DoubleMultiVector) (v i : Z)
  : M world cell :=
  (if RANGE_CHECKING cfg then
     let error_message := "" in
     let error := false in
     let '(error_message, error) :=
       if (v >? int_of_unsigned (Nvector this))%Z
       then (error_message +:+ "Range Error: Vector " +:+ pretty v +:+
             "is not in the range (0," +:+
             pretty (wrap_unsigned (Z.of_nat (Nvector this) - 1)) +:+ ")", true)
       else (error_message, error) in
     let '(error_message, error) :=
       if (i >=? int_of_unsigned (nrow_local this))%Z
       then (error_message +:+ "Range Error: " +:+ pretty i +:+
             " is not in the range (0," +:+
             pretty (wrap_unsigned (Z.of_nat (nrow_local this) - 1)) +:+ ")", true)
       else (error_message, error) in
     if error then throw (range_error error_message) else ret tt
   else ret tt);;
  if (v <? 0)%Z then undefined else
  p ← Values_at this (Z.to_nat v);
  reference_at p i.

Definition paranoid_error (function message : string) : OomphLibError :=
  {| error_message := message; error_function := function |}.

(** The loops shared by [operator+=] and [operator-=]:
    [Values[v][i] op= v_values[v][i]] with [v_values = vec.values()]. *)
Definition compound_loops (op : float → float → float)
    (this vec : DoubleMultiVector) : M world unit :=
  let n_vector := nvector this in
  let n_row_local := nrow_local this in
  for_loop n_vector (λ v _,
    for_loop n_row_local (λ i _,
      y ← (p ← Values_at vec v; load p i);
      p ← Values_at this v;
      x ← load p i;
      store p i (op x y)) tt) tt.

(** [void operator+=(DoubleMultiVector vec)] *)
Definition plus_assign (cfg : build_config) (this vec_argument : DoubleMultiVector)
  : M world unit :=
  vec ← copy_constructor vec_argument;
  with_parameter vec (
    (if PARANOID cfg then
       if negb (built this) then
         throw (paranoid_error "DoubleMultiVector::operator+=" "This vector must be setup.")
       else if negb (built vec) then
         throw (paranoid_error "DoubleMultiVector::operator+=" "The vector v must be setup.")
       else if negb (bool_decide (Distribution_pt vec = Distribution_pt this)) then
         throw (paranoid_error "DoubleMultiVector::operator+="
                  "The vector v and this vector must have the same distribution.")
       else ret tt
     else ret tt);;
    compound_loops PrimFloat.add this vec).

(** [void operator-=(DoubleMultiVector vec)] *)
Definition minus_assign (cfg : build_config) (this vec_argument : DoubleMultiVector)
  : M world unit :=
  vec ← copy_constructor vec_argument;
  with_parameter vec (
    (if PARANOID cfg then
       if negb (distribution_built this) then
         throw (paranoid_error "DoubleMultiVector::operator-=" "This vector must be setup.")
       else if negb (built vec) then
         throw (paranoid_error "DoubleMultiVector::operator-=" "The vector v must be setup.")
       else if negb (bool_decide (Distribution_pt vec = Distribution_pt this)) then
         throw (paranoid_error "DoubleMultiVector::operator-="
                  "The vector v and this vector must have the same distribution.")
       else ret tt
     else ret tt);;
    compound_loops PrimFloat.sub this vec).

(** *** The shape shared by [operator+=] and [operator-=] *)

(** The common shape of [operator+=] and [operator-=]: copy the argument,
    check, run the loops, destroy the copy. *)
Definition by_value (checks : DoubleMultiVector → M world unit)
    (op : float → float → float) (this b : DoubleMultiVector) : M world unit :=
  vec ← copy_constructor b;
  with_parameter vec (checks vec;; compound_loops op this vec).

(** The checks of a [PARANOID] build at the start of [operator+=]. *)
Definition plus_checks (cfg : build_config) (this vec : DoubleMultiVector)
  : M world unit :=
  if PARANOID cfg then
    if negb (built this) then
      throw (paranoid_error "DoubleMultiVector::operator+=" "This vector must be setup.")
    else if negb (built vec) then
      throw (paranoid_error "DoubleMultiVector::operator+=" "The vector v must be setup.")
    else if negb (bool_decide (Distribution_pt vec = Distribution_pt this)) then
      throw (paranoid_error "DoubleMultiVector::operator+="
               "The vector v and this vector must have the same distribution.")
    else ret tt
  else ret tt.

(** The checks of a [PARANOID] build at the start of [operator-=]. *)
Definition minus_checks (cfg : build_config) (this vec : DoubleMultiVector)
  : M world unit :=
  if PARANOID cfg then
    if negb (distribution_built this) then
      throw (paranoid_error "DoubleMultiVector::operator-=" "This vector must be setup.")
    else if negb (built vec) then
      throw (paranoid_error "DoubleMultiVector::operator-=" "The vector v must be setup.")
    else if negb (bool_decide (Distribution_pt vec = Distribution_pt this)) then
      throw (paranoid_error "DoubleMultiVector::operator-="
               "The vector v and this vector must have the same distribution.")
    else ret tt
  else ret tt.

(** *** Vocabulary for the properties of the class *)

(** The pointer [Values[v]], when [Values] has an assigned entry [v]. *)
Definition pointer_of (this : DoubleMultiVector) (v : nat) : option pointer :=
  vals ← Values this; mjoin (vals !! v).

(** The address of [Values[v][i]]. *)
Definition address (this : DoubleMultiVector) (v i : nat) : option cell :=
  (λ p, cell_of p i) <$> pointer_of this v.

(** The value of [Values[v][i]] in a heap, when there is one. *)
Definition value_at (h : gmap nat (list (option float))) (this : DoubleMultiVector)
    (v i : nat) : option float :=
  c ← address this v i; mjoin (slot h c).

(** The same, 0.0 standing for a value that cannot be read. *)
Definition entry_value (h : gmap nat (list (option float))) (this : DoubleMultiVector)
    (v i : nat) : float :=
  default 0%float (value_at h this v i).

(** The object's storage is in place: each of its [Nvector] pointers is
    assigned and each of its [Nvector * nrow_local] doubles can be read. *)
Definition stored (h : gmap nat (list (option float))) (this : DoubleMultiVector) : Prop :=
  (∀ v, v < Nvector this → is_Some (pointer_of this v)) ∧
  (∀ v i, v < Nvector this → i < nrow_local this → is_Some (value_at h this v i)).

(** No double of the object is addressed twice (a shallow view may repeat a
    column; an object built by [build] does not). *)
Definition unshared (this : DoubleMultiVector) : Prop :=
  ∀ v i v' i', v < Nvector this → i < nrow_local this →
               v' < Nvector this → i' < nrow_local this →
               address this v i = address this v' i' → v = v' ∧ i = i'.

(** Two objects have no double in common. *)
Definition apart (a b : DoubleMultiVector) : Prop :=
  ∀ v i v' i', v < Nvector a → i < nrow_local a →
               v' < Nvector b → i' < nrow_local b →
               address a v i ≠ address b v' i'.

(** The [v]-th vector of the object, row by row. *)
Definition column (h : gmap nat (list (option float))) (this : DoubleMultiVector)
    (v : nat) : list float :=
  (λ i, entry_value h this v i) <$> seq 0 (nrow_local this).

(** The inner product of two lists of doubles, summed from the first row
    on, starting from 0.0. *)
Definition inner_product (x y : list float) : float :=
  foldl (λ acc xy, (acc + xy.1 * xy.2)%float) 0%float (zip x y).

(** The local inner products of the vectors of [this] with the
    corresponding vectors of [vec]. *)
Definition local_inner_products (h : gmap nat (list (option float)))
    (this vec : DoubleMultiVector) : list float :=
  (λ v, inner_product (column h this v) (column h vec v)) <$> seq 0 (Nvector this).

(** The vector is distributed over more than one process of an MPI build. *)
Definition spans_processes (cfg : build_config) (this : DoubleMultiVector) : bool :=
  OOMPH_HAS_MPI cfg && distributed this && bool_decide (1 < nproc this).

(** The world after the collective part of [dot] and [norm]. *)
Definition gathered (cfg : build_config) (this : DoubleMultiVector)
    (n : list float) (w : world) : world :=
  {| heap := heap w;
     mpi_calls := mpi_calls w ++
       (if spans_processes cfg this then [Allreduce n (Z.of_nat (Nvector this))] else []) |}.

(** A block of [total] doubles of which the first [k] have been given the
    value [init]. *)
Definition filled (k total : nat) (init : float) : list (option float) :=
  replicate k (Some init) ++ replicate (total - k) None.

(** An array of [n] pointers of which the first [v] have been assigned: the
    [v']-th points [v' * nrl] doubles into the block [blk]. *)
Definition assigned (blk nrl v n : nat) : list (option pointer) :=
  ((λ v', Some (Ptr blk (v' * nrl))) <$> seq 0 v) ++ replicate (n - v) None.

(** The deep copy of [b] whose doubles are in the block [blk]. *)
Definition copy_of (b : DoubleMultiVector) (blk : nat) : DoubleMultiVector :=
  MkDoubleMultiVector (Distribution_pt b)
    (Some ((λ v, Some (Ptr blk (v * nrow_local b))) <$> seq 0 (Nvector b)))
    (Nvector b) true true.

Section WithMPI.

(** What the MPI library delivers to the calling process for an all-reduce
    with [MPI_SUM]: the entry-wise sums, over every process of the
    communicator, of the buffers the processes sent. *)
Variable allreduce_sum : list float → list float.

(** [operator<<] of [LinearAlgebraDistribution], used in an error message. *)
Variable distribution_to_string : LinearAlgebraDistribution → string.

(** The first [count] received doubles overwrite the start of [recvbuf]. *)
Definition receive (count : nat) (received recvbuf : list float) : list float :=
  take count received ++ drop (length (take count received)) recvbuf.

Definition MPI_Allreduce (sendbuf recvbuf : list float) (count : Z)
  : M world (list float) :=
  λ w, Ok (receive (Z.to_nat count) (allreduce_sum sendbuf) recvbuf)
          {| heap := heap w; mpi_calls := mpi_calls w ++ [Allreduce sendbuf count] |}.

(** What [dot] and [norm] hand on: the local sums, or what the all-reduce
    delivered for them. *)
Definition reduced (cfg : build_config) (this : DoubleMultiVector)
    (n : list float) : list float :=
  if spans_processes cfg this
  then receive (Nvector this) (allreduce_sum n) n
  else n.

(** The part of [dot] and [norm] under [#ifdef OOMPH_HAS_MPI]: [n2] is a copy
    of [n], overwritten by one all-reduce when the vector is distributed over
    more than one process, and copied back. *)
Definition gather (cfg : build_config) (this : DoubleMultiVector) (n_vector : Z)
    (n : list float) : M world (list float) :=
  if OOMPH_HAS_MPI cfg then
    let n2 := n in
    n2 ← (if distributed this && bool_decide (1 < nproc this)
          then MPI_Allreduce n n2 n_vector
          else ret n2);
    ret n2
  else ret n.

(** [void dot(const DoubleMultiVector& vec, std::vector<double>& result) const];
    the array [n] is filled in index order, one entry per turn of the outer
    loop, and is the list of the entries written so far. *)
Definition dot (cfg : build_config) (this vec : DoubleMultiVector)
  : M world (list float) :=
  (if PARANOID cfg then
     if negb (built this) then
       throw (paranoid_error "DoubleMultiVector::dot" "This vector must be setup.")
     else if negb (built vec) then
       throw (paranoid_error "DoubleMultiVector::dot" "The input vector be setup.")
     else if bool_decide (Distribution_pt this ≠ Distribution_pt vec) then
       throw (paranoid_error "DoubleMultiVector::dot"
                ("The distribution of this vector and the vector vec must be the same."
                 +:+ newline +:+ newline +:+ "  this: "
                 +:+ distribution_to_string (Distribution_pt this)
                 +:+ newline +:+ "  vec:  "
                 +:+ distribution_to_string (Distribution_pt vec)))
     else ret tt
   else ret tt);;
  let nrow_local := nrow_local this in
  let n_vector := int_of_unsigned (nvector this) in
  if (n_vector <? 0)%Z then undefined else
  n ← for_loop (Z.to_nat n_vector) (λ v n,
    vec_values_pt ← values vec v;
    n_v ← for_loop nrow_local (λ i n_v,
      x ← (p ← Values_at this v; load p i);
      y ← load vec_values_pt i;
      ret (n_v + x * y)%float) 0%float;
    ret (n ++ [n_v])) [];
  n ← gather cfg this n_vector n;
  ret n.

(** [void norm(std::vector<double>& result) const] *)
Definition norm (cfg : build_config) (this : DoubleMultiVector)
  : M world (list float) :=
  (if PARANOID cfg then
     if negb (built this) then
       throw (paranoid_error "DoubleMultiVector::norm" "This vector must be setup.")
     else ret tt
   else ret tt);;
  let nrow_local := nrow_local this in
  let n_vector := int_of_unsigned (nvector this) in
  if (n_vector <? 0)%Z then undefined else
  n ← for_loop (Z.to_nat n_vector) (λ v n,
    n_v ← for_loop nrow_local (λ i n_v,
      x ← (p ← Values_at this v; load p i);
      y ← (p ← Values_at this v; load p i);
      ret (n_v + x * y)%float) 0%float;
    ret (n ++ [n_v])) [];
  n ← gather cfg this n_vector n;
  ret (PrimFloat.sqrt <$> n).

End WithMPI.

(** *** Concrete objects

    One row on one process; two objects of one vector each, in the blocks 0
    and 1 of the heap, as two calls of [build] leave them. *)
Definition one_row : LinearAlgebraDistribution := MkDistribution true 1 0 1 false 1.

Definition vector_on (d : LinearAlgebraDistribution) (blk : nat) : DoubleMultiVector :=
  MkDoubleMultiVector d (Some [Some (Ptr blk 0)]) 1 true true.

Definition vector_in_block (blk : nat) : DoubleMultiVector := vector_on one_row blk.

(** Two rows spread over two processes, one row each, seen from the first;
    and an all-reduce in which the other process sends the same sums. *)
Definition two_processes : LinearAlgebraDistribution := MkDistribution true 2 0 1 true 2.

Definition every_process_alike (n : list float) : list float :=
  (λ x, x + x)%float <$> n.

(** Two rows on one process, and a heap whose block 0 holds them. *)
Definition two_rows : LinearAlgebraDistribution := MkDistribution true 2 0 2 false 1.

Definition world_of_rows (x y : float) : world :=
  World (<[0 := [Some x; Some y]]> ∅) [].

(** The text that stands for a printed distribution. *)
Definition print_nrow (d : LinearAlgebraDistribution) : string := pretty (dist_nrow d).

(** The heap whose blocks 0 and 1 hold one double each; no MPI call yet. *)
Definition world_of (x y : float) : world :=
  World (<[0 := [Some x]]> (<[1 := [Some y]]> ∅)) [].


(** A build with every check and MPI switched on. *)
Definition checked_build : build_config := BuildConfig true true true.

(** *** The other members of the class *)

(** [DoubleMultiVector(const unsigned& n_vector,
                       const LinearAlgebraDistribution* const& dist_pt,
                       const double& v = 0.0)]: the distribution of the
    object under construction does not exist before the call, so [dist_pt]
    is the address of another distribution. *)
Definition DoubleMultiVector_constructor (n_vector : nat)
    (dist_pt : LinearAlgebraDistribution) (v : float) : M world DoubleMultiVector :=
  this ← build n_vector (other_distribution dist_pt) v
           {| Distribution_pt := unbuilt_distribution; Values := None; Nvector := n_vector;
              Internal_values := true; Built := false |};
  setup_doublevector_representation this;;
  ret this.

(** [void operator=(const DoubleMultiVector& old_vector)] *)
Definition assign (old_vector : vector_reference) (this : DoubleMultiVector)
  : M world DoubleMultiVector :=
  this ← build_copy old_vector this;
  setup_doublevector_representation this;;
  ret this.

(** [void shallow_build(const DoubleMultiVector& old_vector)];
    [old_vector.values(v)] is read in each turn of the loop. *)
Definition shallow_build_copy (old_vector : vector_reference) (this : DoubleMultiVector)
  : M world DoubleMultiVector :=
  bind (equal this (referent old_vector this)) (λ same : bool,
  if same then ret this else
  let this := with_Internal_values this false in
  let this := with_Nvector this (nvector (referent old_vector this)) in
  this ← shallow_build (Nvector this) (distribution_pt old_vector) this;
  if distribution_built this then
    for_loop (Nvector this) (λ v this,
      p ← values (referent old_vector this) v;
      set_Values_at this v p) this
  else ret this).

(** [void initialise(const double& initial_value)] *)
Definition initialise (initial_value : float) (this : DoubleMultiVector) : M world unit :=
  if Built this then
    let n_vector := Nvector this in
    let n_row_local := nrow_local this in
    for_loop n_vector (λ v _,
      for_loop n_row_local (λ i _,
        p ← Values_at this v;
        store p i initial_value) tt) tt
  else ret tt.


(** The value of a [double&]: undefined for an indeterminate double. *)
Definition read_reference (c : cell) : M world float :=
  λ w, match slot (heap w) c with
       | Some (Some x) => Ok x w
       | _ => Undefined
       end.

(** [DoubleMultiVector(const DoubleMultiVector& old_vector,
                       const std::vector<int>& index,
                       const bool& deep_copy = true)]:
    [index[v]] is an [int], handed to [operator()(int, int)] in the deep
    copy and converted to the [unsigned] parameter of [values] in the
    shallow copy.  An exception that leaves a constructor leaves it without
    the destructor of the object being run. *)
Definition DoubleMultiVector_from_columns (cfg : build_config)
    (old_vector : DoubleMultiVector) (index : list Z) (deep_copy : bool)
  : M world DoubleMultiVector :=
  let this := {| Distribution_pt := unbuilt_distribution; Values := None; Nvector := 0;
                 Internal_values := deep_copy; Built := false |} in
  let n_vector := wrap_unsigned (Z.of_nat (length index)) in
  this ←
    (if deep_copy then
       this ← build n_vector (other_distribution (Distribution_pt old_vector)) 0%float this;
       let n_row_local := nrow_local this in
       for_loop n_vector (λ v _,
         for_loop n_row_local (λ i _,
           index_v ← from_option (index !! v);
           c ← call cfg old_vector index_v (int_of_unsigned i);
           x ← read_reference c;
           p ← Values_at this v;
           store p i x) tt) tt;;
       ret this
     else
       this ← shallow_build n_vector (other_distribution (Distribution_pt old_vector)) this;
       for_loop n_vector (λ v this,
         index_v ← from_option (index !! v);
         p ← values old_vector (wrap_unsigned index_v);
         set_Values_at this v p) this);
  setup_doublevector_representation this;;
  ret this.

(** The object that [clear] leaves behind: no storage, no distribution. *)
Definition cleared (this : DoubleMultiVector) : DoubleMultiVector :=
  with_Built (clear_distribution (with_Values this None)) false.

(** The two objects agree on every double that [operator==] compares. *)
Definition agree (h : gmap nat (list (option float))) (this vec : DoubleMultiVector)
  : Prop :=
  ∀ v i, v < Nvector this → i < nrow_local this →
         PrimFloat.eqb (entry_value h this v i) (entry_value h vec v i) = true.

(** [vec] can be read wherever [this] has an entry. *)
Definition readable_along (h : gmap nat (list (option float)))
    (this vec : DoubleMultiVector) : Prop :=
  (∀ v, v < Nvector this → is_Some (pointer_of vec v)) ∧
  (∀ v i, v < Nvector this → i < nrow_local this → is_Some (value_at h vec v i)).

(** Each of the object's [Nvector * nrow_local] doubles exists (it may still
    be indeterminate). *)
Definition allocated (h : gmap nat (list (option float))) (this : DoubleMultiVector)
  : Prop :=
  ∀ v i, v < Nvector this → i < nrow_local this →
         ∃ c, address this v i = Some c ∧ is_Some (slot h c).

(** The shallow copy of [old]: the same pointers, not owned. *)
Definition view_of (old : DoubleMultiVector) : DoubleMultiVector :=
  MkDoubleMultiVector (Distribution_pt old)
    (Some ((λ v, pointer_of old v) <$> seq 0 (Nvector old)))
    (Nvector old) false true.

(** The shallow copy of the columns [index] of [old]. *)
Definition columns_view_of (old : DoubleMultiVector) (index : list Z) : DoubleMultiVector :=
  MkDoubleMultiVector (Distribution_pt old)
    (Some ((λ j : Z, pointer_of old (Z.to_nat j)) <$> index))
    (length index) false true.

(** What the loops of the deep column selection keep: the log of MPI
    calls, the set of blocks, the doubles of the new block, and every double
    that existed before the constructor ran. *)
Definition copying (w : world) (blk n nrl : nat) (w' : world) : Prop :=
  mpi_calls w' = mpi_calls w ∧
  dom (heap w') = {[blk]} ∪ dom (heap w) ∧
  (∀ v i, v < n → i < nrl → is_Some (slot (heap w') (blk, v * nrl + i))) ∧
  (∀ c0, is_Some (slot (heap w) c0) → slot (heap w') c0 = slot (heap w) c0).

(** Two vectors of two rows each in the blocks 0 and 1, and a heap that
    holds them. *)
Definition two_rows_in_block (blk : nat) : DoubleMultiVector := vector_on two_rows blk.

Definition world_of_two_rows (x0 x1 y0 y1 : float) : world :=
  World (<[0 := [Some x0; Some x1]]> (<[1 := [Some y0; Some y1]]> ∅)) [].

(** An object of two vectors of one row each, stored in block 1. *)
Definition two_vectors_in_block (blk : nat) : DoubleMultiVector :=
  MkDoubleMultiVector one_row (Some [Some (Ptr blk 0); Some (Ptr blk 1)]) 2 true true.

(** A heap whose block 0 holds one double and whose block 1 holds two. *)
Definition world_of_three (x y0 y1 : float) : world :=
  World (<[0 := [Some x]]> (<[1 := [Some y0; Some y1]]> ∅)) [].

(** Not a number: 0.0 / 0.0. *)
Definition not_a_number : float := (0 / 0)%float.

(** *** Vocabulary for the tolerance of double arithmetic *)

(** The value of a finite double in units of 2^-1074, the spacing of the
    subnormal doubles: every finite double is a whole number of them. *)
Definition units (x : float) : option Z :=
  match Prim2SF x with
  | S754_zero _ => Some 0%Z
  | S754_finite s m e =>
      Some (if s then - (Z.pos m * 2 ^ (e + 1074)) else Z.pos m * 2 ^ (e + 1074))%Z
  | _ => None
  end.

(** [y] equals [x] within the tolerance of double arithmetic: both are
    finite and they differ by at most 2^-51 of [x], or by one unit of
    2^-1074 where that is more. *)
Definition within_tolerance (x y : float) : bool :=
  match units x, units y with
  | Some X, Some Y => (Z.abs (Y - X) <=? Z.max 1 (Z.abs X / 2 ^ 51))%Z
  | _, _ => false
  end.

(** Zero, or a positive finite double. *)
Definition finite_not_negative (x : float) : bool :=
  match Prim2SF x with
  | S754_zero _ | S754_finite false _ _ => true
  | _ => false
  end.

End DoubleMultiVector.

(** ** The elements of time-harmonic Fourier-decomposed linear elasticity
    (src/time_harmonic_fourier_decomposed_linear_elasticity/time_harmonic_fourier_decomposed_linear_elasticity_elements.h) *)

Module Elasticity.
Import Oomph.

(** [std::complex<T>]: the real and the imaginary part. *)
Record complex (T : Type) : Type := Complex { real : T; imag : T }.
Arguments Complex {T} real imag.
Arguments real {T} c.
Arguments imag {T} c.

(** [a += b] and [a * x] for [std::complex<double>] [a], [b] and a [double]
    [x]: the sum part by part, and both parts scaled by [x]. *)
Definition complex_add (a b : complex float) : complex float :=
  Complex (real a + real b)%float (imag a + imag b)%float.

Definition complex_scale (a : complex float) (x : float) : complex float :=
  Complex (real a * x)%float (imag a * x)%float.

(** [virtual std::complex<unsigned>
     u_index_time_harmonic_fourier_decomposed_linear_elasticity(const unsigned i) const] *)
Definition u_index_time_harmonic_fourier_decomposed_linear_elasticity (i : nat)
  : complex nat :=
  Complex i (wrap_unsigned (Z.of_nat i + 3)).

(** [unsigned required_nvalue(const unsigned& n) const { return 6; }] *)
Definition required_nvalue (n : nat) : nat := 6.

(** [unsigned ndof_types() const { return 1; }] *)
Definition ndof_types : nat := 1.

(** [unsigned num_Z2_flux_terms() { return 12; }] *)
Definition num_Z2_flux_terms : nat := 12.

Section WithFiniteElement.

(** The state that the calls run in; the members below do not change it. *)
Variable St : Type.

(** What the header takes from [FiniteElement] and [GeneralisedElement]
    (generic/elements.h, not part of these sources): the number of nodes, the
    dimension, the shape functions at a local coordinate, the nodal values,
    the local equation numbers of the nodal values (negative for a pinned
    value) and the global equation numbers. *)
Variable nnode : nat.
Variable dim : nat.
Variable shape : list float → nat → float.
Variable nodal_value : nat → nat → float.
Variable nodal_local_eqn : nat → nat → Z.
Variable eqn_number : nat → nat.

(** [get_strain(s, strain)] is defined in
    time_harmonic_fourier_decomposed_linear_elasticity_elements.cc: the
    entries of the 3 x 3 matrix it fills in. *)
Variable get_strain : list float → nat → nat → complex float.

(** The two static default values, defined in the same .cc file. *)
Variable Default_omega_sq_value : complex float.
Variable Default_youngs_modulus_value : complex float.

(** [Vector<T>] (generic/Vector.h, not part of these sources) is a
    [std::vector<T>] with an [operator[]] of its own: inside the vector it is
    the entry; what it does for an index outside the vector is left open
    here. *)
Variable Vector_entry_outside : ∀ A : Type, M St A.

Definition Vector_get {T} (v : list T) (i : nat) : M St T :=
  match v !! i with
  | Some x => ret x
  | None => Vector_entry_outside T
  end.

Definition Vector_set {T} (v : list T) (i : nat) (x : T) : M St (list T) :=
  if decide (i < length v) then ret (<[i := x]> v) else Vector_entry_outside (list T).

(** The members of the base class.  A pointer is null or points to a live
    object, whose value stands for it; the body force is a function that
    fills in the vector it is given. *)
Record TimeHarmonicFourierDecomposedLinearElasticityEquationsBase : Type := MkElement {
  Omega_sq_pt : option (complex float);
  Youngs_modulus_pt : option (complex float);
  Nu_pt : option (complex float);
  Fourier_wavenumber_pt : option Z;
  Body_force_fct_pt :
    option (list float → list (complex float) → M St (list (complex float)))
}.

(** [TimeHarmonicFourierDecomposedLinearElasticityEquationsBase()] *)
Definition TimeHarmonicFourierDecomposedLinearElasticityEquationsBase_constructor
  : TimeHarmonicFourierDecomposedLinearElasticityEquationsBase :=
  {| Omega_sq_pt := Some Default_omega_sq_value;
     Youngs_modulus_pt := Some Default_youngs_modulus_value;
     Nu_pt := None;
     Fourier_wavenumber_pt := None;
     Body_force_fct_pt := None |}.

(** [const std::complex<double>& omega_sq() const { return *Omega_sq_pt; }] *)
Definition omega_sq (e : TimeHarmonicFourierDecomposedLinearElasticityEquationsBase)
  : M St (complex float) :=
  from_option (Omega_sq_pt e).

(** [inline std::complex<double> youngs_modulus() const]: the value that
    [Youngs_modulus_pt] points to. *)
Definition youngs_modulus (e : TimeHarmonicFourierDecomposedLinearElasticityEquationsBase)
  : M St (complex float) :=
  from_option (Youngs_modulus_pt e).

Definition no_nu_error : OomphLibError :=
  {| error_message := "No pointer to Poisson's ratio set. Please set one!" +:+ newline;
     error_function := "TimeHarmonicFourierDecomposedLinearElasticityEquationsBase::nu" |}.

Definition no_fourier_wavenumber_error : OomphLibError :=
  {| error_message := "No pointer to Fourier wavenumber set. Please set one!" +:+ newline;
     error_function :=
       "TimeHarmonicFourierDecomposedLinearElasticityEquationsBase::fourier_wavenumber" |}.

(** [std::complex<double>& nu() const] *)
Definition nu (cfg : build_config)
    (e : TimeHarmonicFourierDecomposedLinearElasticityEquationsBase)
  : M St (complex float) :=
  (if PARANOID cfg then
     if bool_decide (Nu_pt e = None) then throw no_nu_error else ret tt
   else ret tt);;
  from_option (Nu_pt e).

(** [int& fourier_wavenumber() const] *)
Definition fourier_wavenumber (cfg : build_config)
    (e : TimeHarmonicFourierDecomposedLinearElasticityEquationsBase) : M St Z :=
  (if PARANOID cfg then
     if bool_decide (Fourier_wavenumber_pt e = None)
     then throw no_fourier_wavenumber_error else ret tt
   else ret tt);;
  from_option (Fourier_wavenumber_pt e).

(** [inline void body_force(const Vector<double>& x,
                            Vector<std::complex<double>>& b) const] *)
Definition body_force (e : TimeHarmonicFourierDecomposedLinearElasticityEquationsBase)
    (x : list float) (b : list (complex float)) : M St (list (complex float)) :=
  match Body_force_fct_pt e with
  | None =>
      let n := dim in
      for_loop n (λ i b, Vector_set b i (Complex 0%float 0%float)) b
  | Some f => f x b
  end.

(** [void interpolated_u_time_harmonic_fourier_decomposed_linear_elasticity(
       const Vector<double>& s, Vector<std::complex<double>>& disp) const] *)
Definition interpolated_u_vector (s : list float) (disp : list (complex float))
  : M St (list (complex float)) :=
  let n_node := nnode in
  let psi := shape s in
  for_loop 3 (λ i disp,
    let u_nodal_index := u_index_time_harmonic_fourier_decomposed_linear_elasticity i in
    disp ← Vector_set disp i (Complex 0%float 0%float);
    for_loop n_node (λ l disp,
      let u_value := Complex (nodal_value l (real u_nodal_index))
                             (nodal_value l (imag u_nodal_index)) in
      d ← Vector_get disp i;
      Vector_set disp i (complex_add d (complex_scale u_value (psi l)))) disp) disp.

(** [std::complex<double>
     interpolated_u_time_harmonic_fourier_decomposed_linear_elasticity(
       const Vector<double>& s, const unsigned& i) const] *)
Definition interpolated_u (s : list float) (i : nat) : M St (complex float) :=
  let n_node := nnode in
  let psi := shape s in
  let u_nodal_index := u_index_time_harmonic_fourier_decomposed_linear_elasticity i in
  let interpolated_u := Complex 0%float 0%float in
  for_loop n_node (λ l interpolated_u,
    let u_value := Complex (nodal_value l (real u_nodal_index))
                           (nodal_value l (imag u_nodal_index)) in
    ret (complex_add interpolated_u (complex_scale u_value (psi l)))) interpolated_u.

(** [void get_dof_numbers_for_unknowns(
       std::list<std::pair<unsigned long, unsigned>>& dof_lookup_list) const] *)
Definition get_dof_numbers_for_unknowns (dof_lookup_list : list (nat * nat))
  : M St (list (nat * nat)) :=
  let n_node := nnode in
  for_loop n_node (λ n dof_lookup_list,
    for_loop 6 (λ i dof_lookup_list,
      let local_unknown := nodal_local_eqn n i in
      if (local_unknown >=? 0)%Z then
        let dof_lookup := (eqn_number (Z.to_nat local_unknown), 0) in
        ret (dof_lookup :: dof_lookup_list)
      else ret dof_lookup_list) dof_lookup_list) dof_lookup_list.

Definition wrong_flux_size_error (size : nat) : OomphLibError :=
  {| error_message :=
       "The flux vector has the wrong number of entries, " +:+ pretty size +:+
       ", whereas it should be " +:+ pretty 12 +:+ newline;
     error_function :=
       "TTimeHarmonicFourierDecomposedLinearElasticityElement::get_Z2_flux" |}.

(** [void get_Z2_flux(const Vector<double>& s, Vector<double>& flux)] of
    [TTimeHarmonicFourierDecomposedLinearElasticityElement]; the local
    variable [icount] is passed along with the vector. *)
Definition get_Z2_flux (cfg : build_config) (s : list float) (flux : list float)
  : M St (list float) :=
  (if PARANOID cfg then
     let num_entries := 12 in
     if negb (bool_decide (length flux = num_entries))
     then throw (wrong_flux_size_error (length flux))
     else ret tt
   else ret tt);;
  let strain := get_strain s in
  let icount := 0 in
  '(flux, icount) ← for_loop 3 (λ i '(flux, icount),
    flux ← Vector_set flux icount (real (strain i i));
    let icount := S icount in
    flux ← Vector_set flux icount (imag (strain i i));
    let icount := S icount in
    ret (flux, icount)) (flux, icount);
  '(flux, icount) ← for_loop 3 (λ i '(flux, icount),
    for_range (λ j '(flux, icount),
      flux ← Vector_set flux icount (real (strain i j));
      let icount := S icount in
      flux ← Vector_set flux icount (imag (strain i j));
      let icount := S icount in
      ret (flux, icount)) (i + 1) (3 - (i + 1)) (flux, icount)) (flux, icount);
  ret flux.

(** *** Vocabulary for the properties of the elements *)

(** The global equation number and the DOF type of the nodal value [i] of
    node [n], when the value is not pinned. *)
Definition dof_of (n i : nat) : list (nat * nat) :=
  if (nodal_local_eqn n i >=? 0)%Z
  then [(eqn_number (Z.to_nat (nodal_local_eqn n i)), 0)]
  else [].

(** The pairs of the unknowns of the first [n] nodes, node by node and value
    by value. *)
Definition dofs_in_order (n : nat) : list (nat * nat) :=
  k ← seq 0 n; i ← seq 0 6; dof_of k i.

(** The twelve numbers that stand for a strain tensor: real and imaginary
    part of the three diagonal entries, then of the entries (0,1), (0,2) and
    (1,2). *)
Definition packed_strain (strain : nat → nat → complex float) : list float :=
  [real (strain 0 0); imag (strain 0 0); real (strain 1 1); imag (strain 1 1);
   real (strain 2 2); imag (strain 2 2); real (strain 0 1); imag (strain 0 1);
   real (strain 0 2); imag (strain 0 2); real (strain 1 2); imag (strain 1 2)].

(** The displacement component [i] summed over the first [n] nodes: the
    nodal values [i] (real part) and [i + 3] (imaginary part) times the shape
    function of the node, added up from the first node on. *)
Definition nodal_sum (s : list float) (i n : nat) : complex float :=
  foldl (λ acc l,
           complex_add acc
             (complex_scale
                (Complex (nodal_value l i) (nodal_value l (i + 3)))
                (shape s l)))
        (Complex 0%float 0%float) (seq 0 n).

End WithFiniteElement.

End Elasticity.

(** * Properties *)

(** ** Loops and integer conversions *)

Module OomphFacts.
Import Oomph.

Lemma bind_Ok {St A B} (m : M St A) (k : A → M St B) s a s' :
  m s = Ok a s' → bind m k s = k a s'.
Proof. intros H. unfold bind. by rewrite H. Qed.

Lemma mbind_Ok {St A B} (m : M St A) (k : A → M St B) s a s' :
  m s = Ok a s' → (m ≫= k) s = k a s'.
Proof. apply bind_Ok. Qed.

Lemma wrap_unsigned_small (n : nat) :
  (Z.of_nat n < 4294967296)%Z → wrap_unsigned (Z.of_nat n) = n.
Proof.
  intros H. unfold wrap_unsigned.
  rewrite Z.mod_small by lia. apply Nat2Z.id.
Qed.

Lemma int_of_unsigned_small (n : nat) :
  (Z.of_nat n < 2147483648)%Z → int_of_unsigned n = Z.of_nat n.
Proof.
  intros H. unfold int_of_unsigned.
  rewrite Z.mod_small by lia.
  destruct (Z.ltb_spec (Z.of_nat n) 2147483648); [done | lia].
Qed.

(** A loop whose body keeps an invariant and never fails runs to the end. *)
Lemma for_range_invariant {St A} (I : nat → A → St → Prop)
    (body : nat → A → M St A) (count start : nat) (acc : A) (s : St) :
  I start acc s →
  (∀ i a s0, start ≤ i < start + count → I i a s0 →
     ∃ a' s', body i a s0 = Ok a' s' ∧ I (S i) a' s') →
  ∃ a' s', for_range body start count acc s = Ok a' s' ∧ I (start + count) a' s'.
Proof.
  revert start acc s.
  induction count as [|count IH]; intros start acc s Hinit Hstep.
  - exists acc, s. split; [done |]. by rewrite Nat.add_0_r.
  - destruct (Hstep start acc s) as (a1 & s1 & Hbody & HI1); [lia | done |].
    destruct (IH (S start) a1 s1) as (a' & s' & Hrest & HI'); [done | |].
    + intros i a s0 Hi. apply Hstep. lia.
    + exists a', s'. split.
      * simpl. by rewrite (bind_Ok _ _ _ _ _ Hbody).
      * by replace (start + S count) with (S start + count) by lia.
Qed.

Lemma for_loop_invariant {St A} (I : nat → A → St → Prop)
    (body : nat → A → M St A) (n : nat) (acc : A) (s : St) :
  I 0 acc s →
  (∀ i a s0, i < n → I i a s0 →
     ∃ a' s', body i a s0 = Ok a' s' ∧ I (S i) a' s') →
  ∃ a' s', for_loop n body acc s = Ok a' s' ∧ I n a' s'.
Proof.
  intros Hinit Hstep.
  apply (for_range_invariant I body n 0 acc s Hinit).
  intros i a s0 Hi. apply Hstep. lia.
Qed.

End OomphFacts.

(** ** [SimpleCubicMesh] *)

Module CubicMeshFacts.
Import CubicMesh.

Section WithMesh.

Variable MeshData : Type.
Variable build_mesh : nat → nat → nat → MeshData.

(** Both constructors store the three element counts unchanged. *)
Lemma constructors_store_counts (n_x n_y n_z : nat)
    (lx ly lz xmin xmax ymin ymax zmin zmax : float) :
  let m1 := SimpleCubicMesh_lengths MeshData build_mesh n_x n_y n_z lx ly lz in
  let m2 := SimpleCubicMesh_bounds MeshData build_mesh n_x n_y n_z
              xmin xmax ymin ymax zmin zmax in
  (Nx _ m1, Ny _ m1, Nz _ m1) = (n_x, n_y, n_z) ∧
  (Nx _ m2, Ny _ m2, Nz _ m2) = (n_x, n_y, n_z).
Proof. done. Qed.

(** C9: for every mesh built by either constructor from the element counts
    (n_x, n_y, n_z), the accessor [nz()] returns the stored field [Nx], that
    is n_x, and not the field [Nz], which holds n_z; whenever n_x differs from
    n_z, [nz()] is not the number of elements in the z direction. *)
Theorem nz_returns_Nx (n_x n_y n_z : nat)
    (lx ly lz xmin xmax ymin ymax zmin zmax : float) :
  (∀ m : SimpleCubicMesh MeshData, nz _ m = Nx _ m) ∧
  nz _ (SimpleCubicMesh_lengths MeshData build_mesh n_x n_y n_z lx ly lz) = n_x ∧
  nz _ (SimpleCubicMesh_bounds MeshData build_mesh n_x n_y n_z
          xmin xmax ymin ymax zmin zmax) = n_x ∧
  (n_x ≠ n_z →
   nz _ (SimpleCubicMesh_lengths MeshData build_mesh n_x n_y n_z lx ly lz)
     ≠ Nz _ (SimpleCubicMesh_lengths MeshData build_mesh n_x n_y n_z lx ly lz) ∧
   nz _ (SimpleCubicMesh_bounds MeshData build_mesh n_x n_y n_z
           xmin xmax ymin ymax zmin zmax)
     ≠ Nz _ (SimpleCubicMesh_bounds MeshData build_mesh n_x n_y n_z
               xmin xmax ymin ymax zmin zmax)).
Proof.
  repeat split; try reflexivity; simpl; assumption.
Qed.

End WithMesh.

(** A 2 x 3 x 4 mesh of the unit cube: [nz()] answers 2, the mesh has 4
    elements in the z direction. *)
Lemma nz_returns_Nx_witness :
  nz unit (SimpleCubicMesh_lengths unit (λ _ _ _, tt) 2 3 4 1 1 1) = 2 ∧
  nz unit (SimpleCubicMesh_lengths unit (λ _ _ _, tt) 2 3 4 1 1 1)
    ≠ Nz unit (SimpleCubicMesh_lengths unit (λ _ _ _, tt) 2 3 4 1 1 1).
Proof.
  destruct (nz_returns_Nx unit (λ _ _ _, tt) 2 3 4 1 1 1 0 1 0 1 0 1)
    as (_ & H1 & _ & H2).
  split; [exact H1 | apply H2; lia].
Defined.

End CubicMeshFacts.

(** ** The space-time block preconditioners *)

Module SpaceTimeBlockPreconditionerFacts.
Import Oomph SpaceTimeBlockPreconditioner BandedBlockTriangular.

Section WithBase.

Variable Base : Type.
Variable Base_constructor : Base.

(** C4: for both preconditioners, [get_memory_usage_in_bytes()] returns
    normally in every state.  When the preconditioner has not been set up
    (in particular right after construction) it returns exactly 0.0 and
    prints one warning; when it has been set up and the statistics are not
    enabled it returns exactly 0.0 and prints one warning; when it has been
    set up and the statistics are enabled it returns the recorded
    [Memory_usage_in_bytes] and prints nothing. *)
Theorem get_memory_usage_in_bytes_advisory (w : world) :
  (∀ b statistics usage,
     ExactDGP.get_memory_usage_in_bytes Base (ExactDGP.MkExactDGP Base b false statistics usage) w
     = Ok 0%float (warned w not_set_up_message
                     "ExactDGPBlockPreconditioner::get_memory_usage_in_bytes")) ∧
  (∀ b usage,
     ExactDGP.get_memory_usage_in_bytes Base (ExactDGP.MkExactDGP Base b true false usage) w
     = Ok 0%float (warned w statistics_not_calculated_message
                     "ExactDGPBlockPreconditioner::get_memory_usage_in_bytes")) ∧
  (∀ b usage,
     ExactDGP.get_memory_usage_in_bytes Base (ExactDGP.MkExactDGP Base b true true usage) w
     = Ok usage w) ∧
  ExactDGP.get_memory_usage_in_bytes Base
    (ExactDGP.ExactDGPBlockPreconditioner_constructor Base Base_constructor) w
  = Ok 0%float (warned w not_set_up_message
                  "ExactDGPBlockPreconditioner::get_memory_usage_in_bytes") ∧
  (∀ b products bandwidth upper statistics usage,
     get_memory_usage_in_bytes Base
       (MkBanded Base b products bandwidth upper false statistics usage) w
     = Ok 0%float (warned w not_set_up_message
                     "BandedBlockTriangularPreconditioner::get_memory_usage_in_bytes")) ∧
  (∀ b products bandwidth upper usage,
     get_memory_usage_in_bytes Base
       (MkBanded Base b products bandwidth upper true false usage) w
     = Ok 0%float (warned w statistics_not_calculated_message
                     "BandedBlockTriangularPreconditioner::get_memory_usage_in_bytes")) ∧
  (∀ b products bandwidth upper usage,
     get_memory_usage_in_bytes Base
       (MkBanded Base b products bandwidth upper true true usage) w
     = Ok usage w) ∧
  get_memory_usage_in_bytes Base
    (BandedBlockTriangularPreconditioner_constructor Base Base_constructor) w
  = Ok 0%float (warned w not_set_up_message
                  "BandedBlockTriangularPreconditioner::get_memory_usage_in_bytes").
Proof.
  repeat split; intros; reflexivity.
Qed.

(** Enabling the statistics after set-up is what makes the recorded value
    come back. *)
Lemma enable_then_get (p : BandedBlockTriangularPreconditioner Base) (w : world) :
  Preconditioner_has_been_setup Base p = true →
  get_memory_usage_in_bytes Base (enable_doc_memory_usage Base p) w
  = Ok (Memory_usage_in_bytes Base p) w.
Proof. intros H. unfold get_memory_usage_in_bytes. simpl. by rewrite H. Qed.

(** *** The populated-block policy *)

Lemma block_is_populated_spec (p : BandedBlockTriangularPreconditioner Base)
    (row col : nat) :
  block_is_populated Base p row col = true ↔
  (if Upper_triangular Base p then row < col else col < row) ∧
  ((0 ≤ Block_bandwidth Base p)%Z →
   (Z.abs (Z.of_nat col - Z.of_nat row) ≤ Block_bandwidth Base p)%Z).
Proof.
  unfold block_is_populated, candidate_block, within_bandwidth.
  rewrite andb_true_iff.
  destruct (Upper_triangular Base p);
    repeat case_bool_decide; intuition (try done; try lia).
Qed.

Lemma elem_of_populated_blocks (p : BandedBlockTriangularPreconditioner Base)
    (n_block row col : nat) :
  (row, col) ∈ populated_blocks Base p n_block ↔
  row < n_block ∧ col < n_block ∧ block_is_populated Base p row col = true.
Proof.
  unfold populated_blocks. rewrite list_elem_of_bind. split.
  - intros (r & Hin & Hr). apply elem_of_seq in Hr.
    apply list_elem_of_bind in Hin as (c & Hin & Hc). apply elem_of_seq in Hc.
    destruct (block_is_populated Base p r c) eqn:E.
    + apply list_elem_of_singleton in Hin. injection Hin as -> ->.
      repeat split; [lia | lia | done].
    + by apply not_elem_of_nil in Hin.
  - intros (Hr & Hc & Hpop). exists row. split; [| apply elem_of_seq; lia].
    apply list_elem_of_bind. exists col. split; [| apply elem_of_seq; lia].
    rewrite Hpop. by apply list_elem_of_singleton.
Qed.

(** C1: the populated off-diagonal positions of an n_block x n_block grid
    are exactly the positions inside the grid that are candidates (column >
    row when [Upper_triangular], column < row otherwise) and, when
    [Block_bandwidth >= 0], lie within |col - row| <= [Block_bandwidth]; with
    [Block_bandwidth = -1] every candidate is populated.  For a 4 x 4 grid and
    the upper-triangular orientation of a newly constructed preconditioner:
    bandwidth 1 gives (0,1),(1,2),(2,3); bandwidth -1 (also the constructor's
    default) gives all six upper positions; bandwidth 0 gives none. *)
Theorem populated_blocks_policy :
  (∀ (p : BandedBlockTriangularPreconditioner Base) (n_block row col : nat),
     (row, col) ∈ populated_blocks Base p n_block ↔
     row < n_block ∧ col < n_block ∧
     (if Upper_triangular Base p then row < col else col < row) ∧
     ((0 ≤ Block_bandwidth Base p)%Z →
      (Z.abs (Z.of_nat col - Z.of_nat row) ≤ Block_bandwidth Base p)%Z)) ∧
  (∀ (p : BandedBlockTriangularPreconditioner Base) (n_block row col : nat),
     Block_bandwidth Base p = (-1)%Z →
     ((row, col) ∈ populated_blocks Base p n_block ↔
      row < n_block ∧ col < n_block ∧
      (if Upper_triangular Base p then row < col else col < row))) ∧
  (let p := BandedBlockTriangularPreconditioner_constructor Base Base_constructor in
   is_upper_triangular Base p = true ∧
   block_bandwidth Base p = (-1)%Z ∧
   populated_blocks Base (set_block_bandwidth Base 1 p) 4 = [(0, 1); (1, 2); (2, 3)] ∧
   populated_blocks Base (set_block_bandwidth Base (-1) p) 4
     = [(0, 1); (0, 2); (0, 3); (1, 2); (1, 3); (2, 3)] ∧
   populated_blocks Base p 4
     = [(0, 1); (0, 2); (0, 3); (1, 2); (1, 3); (2, 3)] ∧
   populated_blocks Base (set_block_bandwidth Base 0 p) 4 = []).
Proof.
  split; [| split].
  - intros p n_block row col.
    rewrite elem_of_populated_blocks, block_is_populated_spec. tauto.
  - intros p n_block row col Hbw.
    rewrite elem_of_populated_blocks, block_is_populated_spec, Hbw.
    intuition lia.
  - repeat split.
Qed.

End WithBase.

(** The lower-triangular orientation with bandwidth 1 on a 3 x 3 grid, and a
    position that the default bandwidth -1 populates. *)
Lemma populated_blocks_policy_witness :
  (2, 1) ∈ populated_blocks unit
             (set_block_bandwidth unit 1
                (lower_triangular unit
                   (BandedBlockTriangularPreconditioner_constructor unit tt))) 3 ∧
  (0, 3) ∈ populated_blocks unit
             (BandedBlockTriangularPreconditioner_constructor unit tt) 4.
Proof.
  destruct (populated_blocks_policy unit tt) as (H1 & H2 & _).
  split.
  - apply H1. simpl. repeat split; lia.
  - apply H2; [reflexivity |]. simpl. repeat split; lia.
Defined.

End SpaceTimeBlockPreconditionerFacts.

Module CleanUpFacts.
Import Oomph OomphFacts SpaceTimeBlockPreconditioner BandedBlockTriangular.

Lemma stored_operators_nulled d : stored_operators (nulled d) = [].
Proof.
  unfold stored_operators, nulled. simpl.
  induction (length (Matrixdata d)) as [|n IH]; [done | exact IH].
Qed.

Lemma cleaned_up_to_start d0 w0 : cleaned_up_to d0 w0 0 d0 w0.
Proof.
  unfold cleaned_up_to. simpl. split.
  - by destruct d0.
  - destruct w0 as [ops lg]. simpl. f_equal.
    + set_solver.
    + by rewrite app_nil_r.
Qed.

Lemma delete_and_null_step d0 w0 i j d w :
  owns_operators w0 d0 →
  j < M_ d0 → M_ d0 * i + j < length (Matrixdata d0) →
  cleaned_up_to d0 w0 (M_ d0 * i + j) d w →
  ∃ d' w', delete_and_null i j d w = Ok d' w' ∧
           cleaned_up_to d0 w0 (M_ d0 * i + S j) d' w'.
Proof.
  intros (Hlen & Hnodup & Hlive) Hj Hk [-> ->].
  set (k := M_ d0 * i + j) in *.
  replace (M_ d0 * i + S j) with (S k) by lia.
  destruct (lookup_lt_is_Some_2 (Matrixdata d0) k Hk) as [x Hx].
  assert (Hentry : entry (MkDenseMatrix (N d0) (M_ d0)
                     (replicate k None ++ drop k (Matrixdata d0))) i j = Some x).
  { unfold entry. simpl. fold k.
    rewrite lookup_app_r by (rewrite length_replicate; lia).
    rewrite length_replicate, Nat.sub_diag, lookup_drop, Nat.add_0_r. done. }
  assert (Hset : set_entry (MkDenseMatrix (N d0) (M_ d0)
                     (replicate k None ++ drop k (Matrixdata d0))) i j None
                 = Some (MkDenseMatrix (N d0) (M_ d0)
                     (replicate (S k) None ++ drop (S k) (Matrixdata d0)))).
  { unfold set_entry. simpl. fold k.
    rewrite decide_True
      by (rewrite length_app, length_replicate, length_drop; lia).
    do 2 f_equal.
    rewrite insert_app_r_alt by (rewrite length_replicate; lia).
    rewrite length_replicate, Nat.sub_diag.
    rewrite (drop_S _ _ _ Hx). simpl.
    rewrite cons_middle, app_assoc, <- replicate_S_end. done. }
  assert (Htake : take (S k) (Matrixdata d0) = take k (Matrixdata d0) ++ [x])
    by (by apply take_S_r).
  unfold delete_and_null.
  destruct x as [a|].
  - eexists _, _. split.
    + unfold mbind, M_bind, bind, from_option, ret. rewrite Hentry. simpl.
      rewrite decide_True.
      * rewrite Hset. reflexivity.
      * apply elem_of_difference. split.
        -- apply Hlive. unfold stored_operators.
           apply list_elem_of_omap. exists (Some a). split; [| done].
           by eapply list_elem_of_lookup_2.
        -- rewrite elem_of_list_to_set. intros Hin.
           unfold stored_operators in Hnodup.
           rewrite <- (take_drop (S k) (Matrixdata d0)), Htake in Hnodup.
           rewrite !omap_app in Hnodup. simpl in Hnodup.
           apply NoDup_app in Hnodup as (Hnd & _ & _).
           apply NoDup_app in Hnd as (_ & Hnd & _).
           apply (Hnd a Hin). by apply list_elem_of_singleton.
    + split; [done |]. rewrite Htake, omap_app. simpl. f_equal.
      * rewrite list_to_set_app_L. simpl. set_solver.
      * rewrite fmap_app, <- app_assoc. done.
  - eexists _, _. split.
    + unfold mbind, M_bind, bind, from_option, ret. rewrite Hentry. simpl.
      rewrite Hset. reflexivity.
    + split; [done |]. rewrite Htake, omap_app. simpl.
      by rewrite app_nil_r.
Qed.

Lemma clean_up_loops d0 w0 :
  owns_operators w0 d0 →
  for_loop (nrow d0) (λ i d,
     for_loop (ncol d) (λ j d, delete_and_null i j d) d) d0 w0
  = Ok (nulled d0)
       {| operators := operators w0 ∖ list_to_set (stored_operators d0);
          log := log w0 ++ (DeleteOperator <$> stored_operators d0) |}.
Proof.
  intros Hown. pose proof Hown as (Hlen & _ & _).
  destruct (for_loop_invariant
              (λ i d w, cleaned_up_to d0 w0 (M_ d0 * i) d w)
              (λ i d, for_loop (ncol d) (λ j d, delete_and_null i j d) d)
              (nrow d0) d0 w0) as (d' & w' & Hrun & Hd & Hw).
  - rewrite Nat.mul_0_r. apply cleaned_up_to_start.
  - intros i d w Hi Hinv.
    assert (Hncol : ncol d = M_ d0) by (by destruct Hinv as [-> _]).
    rewrite Hncol.
    destruct (for_loop_invariant
                (λ j d w, cleaned_up_to d0 w0 (M_ d0 * i + j) d w)
                (λ j d, delete_and_null i j d) (M_ d0) d w)
      as (d' & w' & Hrun & Hinv').
    + by rewrite Nat.add_0_r.
    + intros j d1 w1 Hj Hinv1.
      apply (delete_and_null_step d0 w0 i j d1 w1 Hown Hj); [| done].
      unfold nrow in Hi. nia.
    + exists d', w'. split; [done |].
      by replace (M_ d0 * S i) with (M_ d0 * i + M_ d0) by lia.
  - rewrite Hrun. unfold nrow in *.
    assert (Hfull : M_ d0 * N d0 = length (Matrixdata d0)) by lia.
    rewrite Hfull in Hd, Hw.
    rewrite drop_all, app_nil_r in Hd. rewrite take_ge in Hw by lia.
    by rewrite Hd, Hw.
Qed.

Section WithBase.

Variable Base : Type.
Variable Base_clean_up_memory : Base → Base.

(** C5: when the table owns its operators, [clean_up_memory()] deletes
    every stored (non-null) matrix-vector product once, in row order, leaves
    a null pointer in every slot, and only then calls the base class's
    clean-up; the destructor does exactly the same.  A second call finds only
    null pointers: it deletes nothing (no double free) and, the base class's
    clean-up being idempotent, leaves the object and the heap of operators as
    they were. *)
Theorem clean_up_memory_releases_operators
    (p : BandedBlockTriangularPreconditioner Base) (w : world) :
  owns_operators w (Off_diagonal_matrix_vector_products Base p) →
  (∀ b, Base_clean_up_memory (Base_clean_up_memory b) = Base_clean_up_memory b) →
  ∃ p' w',
    clean_up_memory Base Base_clean_up_memory p w = Ok p' w' ∧
    destructor Base Base_clean_up_memory p w = Ok p' w' ∧
    Off_diagonal_matrix_vector_products Base p'
      = nulled (Off_diagonal_matrix_vector_products Base p) ∧
    (∀ i j, i < nrow (Off_diagonal_matrix_vector_products Base p) →
            j < ncol (Off_diagonal_matrix_vector_products Base p) →
            entry (Off_diagonal_matrix_vector_products Base p') i j = Some None) ∧
    operators w' = operators w ∖
        list_to_set (stored_operators (Off_diagonal_matrix_vector_products Base p)) ∧
    log w' = log w ++
        (DeleteOperator <$> stored_operators (Off_diagonal_matrix_vector_products Base p))
        ++ [BaseCleanUp] ∧
    base Base p' = Base_clean_up_memory (base Base p) ∧
    clean_up_memory Base Base_clean_up_memory p' w'
      = Ok p' {| operators := operators w'; log := log w' ++ [BaseCleanUp] |}.
Proof.
  intros Hown Hidem.
  set (d := Off_diagonal_matrix_vector_products Base p) in *.
  pose proof Hown as (Hlen & _ & _).
  assert (Hstored_nulled : stored_operators (nulled d) = []).
  { apply stored_operators_nulled. }
  assert (Hfirst : clean_up_memory Base Base_clean_up_memory p w
    = Ok (with_base Base (with_products Base p (nulled d))
            (Base_clean_up_memory (base Base p)))
         {| operators := operators w ∖ list_to_set (stored_operators d);
            log := log w ++ (DeleteOperator <$> stored_operators d) ++ [BaseCleanUp] |}).
  { unfold clean_up_memory. fold d.
    unfold mbind, M_bind.
    rewrite (bind_Ok _ _ _ _ _ (clean_up_loops d w Hown)).
    unfold bind, emit, modify_state, ret. simpl.
    by rewrite <- app_assoc. }
  eexists _, _. split; [exact Hfirst |]. split; [exact Hfirst |].
  split; [done |]. split; [| split; [done |]; split; [done |]; split; [done |]].
  - intros i j Hi Hj. unfold entry, nulled. simpl.
    apply lookup_replicate_2. unfold nrow, ncol in *. nia.
  - assert (Hown' : ∀ w1, owns_operators w1 (nulled d)).
    { intros w1. unfold owns_operators. rewrite stored_operators_nulled.
      unfold nulled. simpl. rewrite length_replicate.
      split; [done |]. split; [constructor |].
      intros a Ha. by apply not_elem_of_nil in Ha. }
    unfold clean_up_memory.
    change (Off_diagonal_matrix_vector_products Base
              (with_base Base (with_products Base p (nulled d))
                 (Base_clean_up_memory (base Base p)))) with (nulled d).
    unfold mbind, M_bind.
    rewrite (bind_Ok _ _ _ _ _ (clean_up_loops (nulled d) _ (Hown' _))).
    rewrite stored_operators_nulled.
    unfold bind, emit, modify_state, ret, with_base, with_products, nulled. simpl.
    rewrite length_replicate, Hidem, app_nil_r.
    do 2 f_equal. set_solver.
Qed.

End WithBase.

(** A 2 x 2 table with live operators 7 and 9 above and below the diagonal:
    both are deleted, and the second call deletes nothing. *)
Lemma clean_up_memory_releases_operators_witness :
  ∃ p' w',
    clean_up_memory unit id
      (MkBanded unit tt (MkDenseMatrix 2 2 [None; Some 7; Some 9; None])
         (-1) true true false 0)
      {| operators := {[7; 9; 11]}; log := [] |} = Ok p' w' ∧
    operators w' = {[11]} ∧
    log w' = [DeleteOperator 7; DeleteOperator 9; BaseCleanUp] ∧
    clean_up_memory unit id p' w'
      = Ok p' {| operators := operators w'; log := log w' ++ [BaseCleanUp] |}.
Proof.
  destruct (clean_up_memory_releases_operators unit id
              (MkBanded unit tt (MkDenseMatrix 2 2 [None; Some 7; Some 9; None])
                 (-1) true true false 0)
              {| operators := {[7; 9; 11]}; log := [] |})
    as (p' & w' & H1 & _ & _ & _ & H2 & H3 & _ & H4).
  - split; [reflexivity |]. split.
    + simpl. apply NoDup_cons. split; [set_solver |]. apply NoDup_singleton.
    + simpl. intros a Ha. set_solver.
  - reflexivity.
  - exists p', w'. split; [exact H1 |]. split; [| split; [exact H3 | exact H4]].
    rewrite H2. simpl. set_solver.
Defined.

End CleanUpFacts.

(** ** The MUMPS wrapper *)

Module MumpsFacts.
Import Oomph Mumps.

Section WithSolver.

Variable LinearSolver : Type.
Variable LinearSolver_disable_resolve : LinearSolver → LinearSolver.
Variable DMUMPS_STRUC_C : Type.
Variable MatrixData : Type.
Variable DoubleVector : Type.
Variable backsub : DMUMPS_STRUC_C → DoubleVector → DoubleVector.
Variable factorise :
  DoubleMatrixBase MatrixData → MumpsSolver LinearSolver DMUMPS_STRUC_C →
  M world (MumpsSolver LinearSolver DMUMPS_STRUC_C * DoubleMatrixBase MatrixData).

Abbreviation Solver_t := (MumpsSolver LinearSolver DMUMPS_STRUC_C).
Abbreviation Preconditioner_t :=
  (NewMumpsPreconditioner LinearSolver DMUMPS_STRUC_C MatrixData).

(** Cleaning up twice is cleaning up once. *)
Lemma clean_up_memory_idempotent (s : Solver_t) :
  clean_up_memory _ _ (clean_up_memory _ _ s) = clean_up_memory _ _ s.
Proof. reflexivity. Qed.

(** While a factorisation is held, [resolve] uses it. *)
Lemma resolve_reuses_factorisation (s : Solver_t) factors rhs result w :
  Mumps_is_initialised _ _ s = true →
  Mumps_struc_pt _ _ s = Some factors →
  resolve _ _ _ backsub rhs result s w = Ok (s, backsub factors rhs) w.
Proof. intros H1 H2. unfold resolve. by rewrite H1, H2. Qed.

(** C8: [disable_resolve()] is the base class's [disable_resolve()]
    followed by [clean_up_memory()]: afterwards the factorisation state is
    released ([Mumps_struc_pt] null, [Mumps_is_initialised] false) and the
    triplet arrays [Irn_loc], [Jcn_loc], [A_loc] are empty; the destructor
    runs the same clean-up; and a [resolve] after [disable_resolve] has no
    factorisation to reuse and fails. *)
Theorem disable_resolve_cleans_up (s : Solver_t) :
  disable_resolve _ LinearSolver_disable_resolve _ s
    = clean_up_memory _ _
        (with_linear_solver _ _ s
           (LinearSolver_disable_resolve (linear_solver _ _ s))) ∧
  linear_solver _ _ (disable_resolve _ LinearSolver_disable_resolve _ s)
    = LinearSolver_disable_resolve (linear_solver _ _ s) ∧
  Mumps_struc_pt _ _ (disable_resolve _ LinearSolver_disable_resolve _ s) = None ∧
  Mumps_is_initialised _ _ (disable_resolve _ LinearSolver_disable_resolve _ s) = false ∧
  (Irn_loc _ _ (disable_resolve _ LinearSolver_disable_resolve _ s),
   Jcn_loc _ _ (disable_resolve _ LinearSolver_disable_resolve _ s),
   A_loc _ _ (disable_resolve _ LinearSolver_disable_resolve _ s)) = ([], [], []) ∧
  destructor _ _ s = clean_up_memory _ _ s ∧
  Mumps_struc_pt _ _ (destructor _ _ s) = None ∧
  (∀ rhs result w,
     resolve _ _ _ backsub rhs result
       (disable_resolve _ LinearSolver_disable_resolve _ s) w
     = Throw no_factorisation_error w).
Proof. repeat split. Qed.

(** What [setup] does for a distributable matrix. *)
Lemma setup_distributable (p : Preconditioner_t) m dist w :
  Matrix_pt _ _ _ p = Some m → as_distributable _ m = Some dist →
  setup _ _ _ factorise p w =
  match factorise m (Solver _ _ _ p) (announced w) with
  | Ok (s, m') w' =>
      Ok {| Distribution_pt := dist; Matrix_pt := Some m'; Solver := s |} w'
  | Throw e w' => Throw e w'
  | Undefined => Undefined
  end.
Proof.
  intros Hm Hd. unfold setup, dist_matrix_pt. rewrite Hm. simpl. rewrite Hd. simpl.
  unfold mbind, M_bind, bind, print_info, modify_state. fold (announced w).
  destruct (factorise m (Solver _ _ _ p) (announced w)) as [[s m'] w'| |]; done.
Qed.

(** What [setup] does for any other matrix pointer. *)
Lemma setup_not_distributable (p : Preconditioner_t) w :
  dist_matrix_pt _ _ _ p = None →
  setup _ _ _ factorise p w = Throw not_distributable_error (announced w).
Proof. intros H. unfold setup. by rewrite H. Qed.

(** C10: [setup()] throws its own [OomphLibError] whenever the configured
    matrix is not a [DistributableLinearAlgebraObject] (a null pointer or a
    matrix of another class).  When the matrix is distributable, [setup]
    takes the matrix's distribution and calls [factorise] on the matrix: it
    throws exactly when [factorise] throws, and then passes that error on
    unchanged; it returns exactly when [factorise] returns, and then the
    preconditioner has the matrix's distribution as its own and holds the
    factorised solver.  [preconditioner_solve(r, z)] is
    [Solver.resolve(r, z)], so after a [setup] that returned it is a resolve
    of the factorised system against [r]. *)
Theorem setup_throws_iff_not_distributable (p : Preconditioner_t) (w : world) :
  (dist_matrix_pt _ _ _ p = None →
   setup _ _ _ factorise p w = Throw not_distributable_error (announced w)) ∧
  (∀ m dist,
     dist_matrix_pt _ _ _ p = Some (m, dist) →
     (∀ e w', setup _ _ _ factorise p w = Throw e w' ↔
              factorise m (Solver _ _ _ p) (announced w) = Throw e w') ∧
     (∀ (p' : Preconditioner_t) w', setup _ _ _ factorise p w = Ok p' w' ↔
               ∃ m', factorise m (Solver _ _ _ p) (announced w)
                     = Ok (Solver _ _ _ p', m') w' ∧
                     Distribution_pt _ _ _ p' = dist ∧
                     Matrix_pt _ _ _ p' = Some m')) ∧
  (∀ r z (p' : Preconditioner_t) w',
     preconditioner_solve _ _ _ _ backsub r z p' w' =
     match resolve _ _ _ backsub r z (Solver _ _ _ p') w' with
     | Ok (s, z') w'' =>
         Ok ({| Distribution_pt := Distribution_pt _ _ _ p';
                Matrix_pt := Matrix_pt _ _ _ p'; Solver := s |}, z') w''
     | Throw e w'' => Throw e w''
     | Undefined => Undefined
     end).
Proof.
  split; [apply setup_not_distributable |]. split.
  - intros m dist Hd.
    assert (Hm : ∃ m0, Matrix_pt _ _ _ p = Some m0 ∧ as_distributable _ m0 = Some dist
                       ∧ m0 = m).
    { unfold dist_matrix_pt in Hd.
      destruct (Matrix_pt _ _ _ p) as [m0|]; [| discriminate]. simpl in Hd.
      destruct (as_distributable _ m0) as [d0|] eqn:Hd0; [| discriminate]. simpl in Hd.
      injection Hd as -> ->. by exists m. }
    destruct Hm as (m0 & Hm & Hdist & ->).
    rewrite (setup_distributable p m dist w Hm Hdist).
    destruct (factorise m (Solver _ _ _ p) (announced w)) as [[s m'] w1|e1 w1|].
    + split.
      * intros e w'. split; intros H; discriminate H.
      * intros p' w'. split.
        -- intros H. injection H as <- <-. by exists m'.
        -- intros (m2 & H & Hd' & Hm'). injection H as -> -> ->.
           destruct p' as [d' mp' s']. simpl in *. by subst.
    + split.
      * intros e w'. split; intros H; injection H as -> ->; reflexivity.
      * intros p' w'. split; [intros H; discriminate H |].
        intros (m2 & H & _). discriminate H.
    + split.
      * intros e w'. split; intros H; discriminate H.
      * intros p' w'. split; [intros H; discriminate H |].
        intros (m2 & H & _). discriminate H.
  - intros r z p' w'. unfold preconditioner_solve, mbind, M_bind, bind.
    destruct (resolve _ _ _ backsub r z (Solver _ _ _ p') w') as [[s z'] w''| |]; done.
Qed.

End WithSolver.

(** A distributable 1 x 1 matrix that can be factorised is set up without
    an exception, a matrix of another class is refused by [setup], and for a
    distributable matrix that is singular [setup] passes on the error of
    [factorise]. *)
Lemma setup_throws_iff_not_distributable_witness :
  (∃ p' w', setup unit Z Z example_factorise
       (MkPreconditioner unit Z Z unbuilt_distribution
          (Some (MkMatrix Z 5%Z (Some example_distribution))) example_solver)
       (World []) = Ok p' w' ∧
     Distribution_pt _ _ _ p' = example_distribution) ∧
  setup unit Z Z example_factorise
    (MkPreconditioner unit Z Z unbuilt_distribution
       (Some (MkMatrix Z 5%Z None)) example_solver)
    (World [])
  = Throw not_distributable_error (announced (World [])) ∧
  setup unit Z Z example_factorise
    (MkPreconditioner unit Z Z unbuilt_distribution
       (Some (MkMatrix Z 0%Z (Some example_distribution))) example_solver)
    (World [])
  = Throw singular_matrix_error (announced (World [])).
Proof.
  split; [| split].
  - destruct (setup_throws_iff_not_distributable unit Z Z Z
                (λ f r, (f + r)%Z) example_factorise
                (MkPreconditioner unit Z Z unbuilt_distribution
                   (Some (MkMatrix Z 5%Z (Some example_distribution))) example_solver)
                (World [])) as (_ & Hdist & _).
    destruct (Hdist (MkMatrix Z 5%Z (Some example_distribution)) example_distribution
                eq_refl) as [_ Hreturns].
    exists (MkPreconditioner unit Z Z example_distribution
              (Some (MkMatrix Z 5%Z (Some example_distribution)))
              (MkMumpsSolver unit Z tt 0 0 false false false false true 1 false
                 [1%Z] [1%Z] [1%float] (Some 5%Z) 0 0)),
           (announced (World [])).
    split.
    + apply Hreturns. exists (MkMatrix Z 5%Z (Some example_distribution)).
      split; [reflexivity |]. split; reflexivity.
    + reflexivity.
  - destruct (setup_throws_iff_not_distributable unit Z Z Z
                (λ f r, (f + r)%Z) example_factorise
                (MkPreconditioner unit Z Z unbuilt_distribution
                   (Some (MkMatrix Z 5%Z None)) example_solver)
                (World [])) as (Hnone & _).
    apply Hnone. reflexivity.
  - destruct (setup_throws_iff_not_distributable unit Z Z Z
                (λ f r, (f + r)%Z) example_factorise
                (MkPreconditioner unit Z Z unbuilt_distribution
                   (Some (MkMatrix Z 0%Z (Some example_distribution))) example_solver)
                (World [])) as (_ & Hdist & _).
    destruct (Hdist (MkMatrix Z 0%Z (Some example_distribution)) example_distribution
                eq_refl) as [Hthrows _].
    apply Hthrows. reflexivity.
Defined.

(** A distributable matrix that [factorise] refuses: [setup] throws although
    the matrix is a [DistributableLinearAlgebraObject]. *)
Lemma setup_throws_for_distributable_matrix :
  dist_matrix_pt unit Z Z
    (MkPreconditioner unit Z Z unbuilt_distribution
       (Some (MkMatrix Z 0%Z (Some example_distribution))) example_solver)
  = Some (MkMatrix Z 0%Z (Some example_distribution), example_distribution) ∧
  ¬ ((∃ e w', setup unit Z Z example_factorise
                (MkPreconditioner unit Z Z unbuilt_distribution
                   (Some (MkMatrix Z 0%Z (Some example_distribution))) example_solver)
                (World []) = Throw e w') ↔
     dist_matrix_pt unit Z Z
       (MkPreconditioner unit Z Z unbuilt_distribution
          (Some (MkMatrix Z 0%Z (Some example_distribution))) example_solver) = None).
Proof.
  split; [reflexivity |].
  intros [Honly_if _].
  assert (Hnone : dist_matrix_pt unit Z Z
            (MkPreconditioner unit Z Z unbuilt_distribution
               (Some (MkMatrix Z 0%Z (Some example_distribution))) example_solver) = None).
  { apply Honly_if. by eexists _, _. }
  discriminate Hnone.
Qed.

(** After [disable_resolve] on a solver that holds a factorisation, the
    factorisation is gone and [resolve] fails. *)
Lemma disable_resolve_cleans_up_witness :
  resolve unit Z Z (λ f r, (f + r)%Z) 1%Z 0%Z
    (disable_resolve unit id Z
       (MkMumpsSolver unit Z tt 0 0 false false false false true 1 false
          [1%Z] [1%Z] [1%float] (Some 5%Z) 0 0)) (World [])
  = Throw no_factorisation_error (World []).
Proof.
  destruct (disable_resolve_cleans_up unit id Z Z (λ f r, (f + r)%Z)
              (MkMumpsSolver unit Z tt 0 0 false false false false true 1 false
                 [1%Z] [1%Z] [1%float] (Some 5%Z) 0 0))
    as (_ & _ & _ & _ & _ & _ & _ & H).
  apply H.
Defined.

End MumpsFacts.

(** ** [DoubleMultiVector] *)

Module HeapFacts.
Import Oomph OomphFacts DoubleMultiVector.

Implicit Types (h : gmap nat (list (option float))) (c : cell) (w : world).

Lemma slot_set_slot_eq h c x :
  is_Some (slot h c) → slot (set_slot h c x) c = Some x.
Proof.
  unfold slot, set_slot. intros [y Hy].
  destruct (h !! c.1) as [l|] eqn:Hl; [| done]. simpl in Hy.
  rewrite lookup_alter_eq, Hl. simpl.
  apply list_lookup_insert_eq. by eapply lookup_lt_Some.
Qed.

Lemma slot_set_slot_ne h c c' x :
  c ≠ c' → slot (set_slot h c x) c' = slot h c'.
Proof.
  unfold slot, set_slot. intros Hne.
  destruct (decide (c.1 = c'.1)) as [Heq|Hb].
  - rewrite Heq, lookup_alter_eq.
    destruct (h !! c'.1) as [l|]; [| done]. simpl.
    apply list_lookup_insert_ne. intros Hi. apply Hne.
    destruct c, c'. simpl in *. congruence.
  - by rewrite lookup_alter_ne.
Qed.

Lemma slot_insert_block h b l c :
  slot (<[b := l]> h) c = if decide (c.1 = b) then l !! c.2 else slot h c.
Proof.
  unfold slot. case_decide as Hb.
  - by rewrite Hb, lookup_insert_eq.
  - by rewrite lookup_insert_ne.
Qed.

Lemma slot_delete_block h b c :
  slot (delete b h) c = if decide (c.1 = b) then None else slot h c.
Proof.
  unfold slot. case_decide as Hb.
  - by rewrite Hb, lookup_delete_eq.
  - by rewrite lookup_delete_ne.
Qed.

Lemma slot_Some_block h c : is_Some (slot h c) → c.1 ∈ dom h.
Proof.
  unfold slot. intros [y Hy]. apply elem_of_dom.
  destruct (h !! c.1); [done | discriminate].
Qed.

Lemma slot_fresh_block h i : slot h (fresh (dom h), i) = None.
Proof.
  destruct (slot h (fresh (dom h), i)) eqn:E; [| done].
  exfalso. apply (is_fresh (dom h)).
  pose proof (slot_Some_block h (fresh (dom h), i)) as H. simpl in H.
  apply H. by rewrite E.
Qed.

Lemma dom_set_slot h c x : dom (set_slot h c x) = dom h.
Proof. unfold set_slot. apply dom_alter_L. Qed.

Lemma load_Ok p i x w :
  slot (heap w) (cell_of p i) = Some (Some x) → load p i w = Ok x w.
Proof. intros H. unfold load. by rewrite H. Qed.

Lemma store_Ok p i x w :
  is_Some (slot (heap w) (cell_of p i)) →
  store p i x w = Ok tt (with_heap w (set_slot (heap w) (cell_of p i) (Some x))).
Proof. intros [y Hy]. unfold store. by rewrite Hy. Qed.

Lemma Values_at_Ok this v p w :
  pointer_of this v = Some p → Values_at this v w = Ok p w.
Proof.
  unfold pointer_of, Values_at, mbind, M_bind, bind, from_option, ret. intros H.
  destruct (Values this) as [vals|]; [| done]. simpl in *.
  destruct (vals !! v) as [[q|]|]; simpl in *; try done.
  by injection H as ->.
Qed.

Lemma value_at_slot h this v i p x :
  pointer_of this v = Some p →
  value_at h this v i = Some x → slot h (cell_of p i) = Some (Some x).
Proof.
  unfold value_at, address. intros -> H. simpl in H.
  destruct (slot h (cell_of p i)) as [[y|]|]; simpl in H; congruence.
Qed.

Lemma slot_value_at h this v i p x :
  pointer_of this v = Some p →
  slot h (cell_of p i) = Some (Some x) → value_at h this v i = Some x.
Proof.
  unfold value_at, address. intros -> H. simpl. by rewrite H.
Qed.

(** Reading [Values[v][i]] of an object whose storage is in place. *)
Lemma read_stored h this v i :
  stored h this → v < Nvector this → i < nrow_local this →
  ∃ p, pointer_of this v = Some p ∧
       address this v i = Some (cell_of p i) ∧
       slot h (cell_of p i) = Some (Some (entry_value h this v i)).
Proof.
  intros [Hp Hv] Hlt Hi.
  destruct (Hp v Hlt) as [p Hptr]. destruct (Hv v i Hlt Hi) as [x Hx].
  exists p. split; [done |]. split.
  - unfold address. by rewrite Hptr.
  - unfold entry_value. rewrite Hx. simpl. by eapply value_at_slot.
Qed.

(** Two nested loops that write a value to one double each, no double
    twice: every double written holds its new value at the end, every other
    double is as before.  The body may depend on the doubles that the loops do
    not write and on the double it is about to write. *)
Lemma nested_update_loops (n m : nat) (target : nat → nat → cell)
    (new_value : nat → nat → float) (body : nat → nat → M world unit) w :
  (∀ k l k' l', k < n → l < m → k' < n → l' < m →
     target k l = target k' l' → k = k' ∧ l = l') →
  (∀ k l, k < n → l < m → is_Some (slot (heap w) (target k l))) →
  (∀ k l w', k < n → l < m →
     mpi_calls w' = mpi_calls w →
     (∀ c, (∀ k' l', k' < n → l' < m → c ≠ target k' l') →
           slot (heap w') c = slot (heap w) c) →
     slot (heap w') (target k l) = slot (heap w) (target k l) →
     body k l w'
     = Ok tt (with_heap w' (set_slot (heap w') (target k l) (Some (new_value k l))))) →
  ∃ w', for_loop n (λ k _, for_loop m (λ l _, body k l) tt) tt w = Ok tt w' ∧
        mpi_calls w' = mpi_calls w ∧
        dom (heap w') = dom (heap w) ∧
        (∀ k l, k < n → l < m →
           slot (heap w') (target k l) = Some (Some (new_value k l))) ∧
        (∀ c, (∀ k l, k < n → l < m → c ≠ target k l) →
           slot (heap w') c = slot (heap w) c).
Proof.
  intros Hinj Hexists Hbody.
  set (Inv := λ (k l : nat) (w' : world),
    mpi_calls w' = mpi_calls w ∧
    dom (heap w') = dom (heap w) ∧
    (∀ k' l', k' < n → l' < m → k' < k ∨ (k' = k ∧ l' < l) →
       slot (heap w') (target k' l') = Some (Some (new_value k' l'))) ∧
    (∀ k' l', k' < n → l' < m → ¬ (k' < k ∨ (k' = k ∧ l' < l)) →
       slot (heap w') (target k' l') = slot (heap w) (target k' l')) ∧
    (∀ c, (∀ k' l', k' < n → l' < m → c ≠ target k' l') →
       slot (heap w') c = slot (heap w) c)).
  destruct (for_loop_invariant (λ k (_ : unit) w', Inv k 0 w')
              (λ k _, for_loop m (λ l _, body k l) tt) n tt w)
    as ([] & w' & Hrun & Hmpi & Hdom & Hnew & _ & Hframe).
  - unfold Inv. split; [done |]. split; [done |]. split; [intros; lia |]. split; done.
  - intros k [] w0 Hk HI.
    destruct (for_loop_invariant (λ l (_ : unit) w', Inv k l w')
                (λ l _, body k l) m tt w0)
      as ([] & w1 & Hrun1 & Hmpi1 & Hdom1 & Hnew1 & Hold1 & Hframe1); [done | |].
    + intros l [] w1 Hl (Hmpi1 & Hdom1 & Hnew1 & Hold1 & Hframe1).
      eexists tt, _. split.
      * apply Hbody; [done | done | done | done |].
        apply Hold1; [done | done | lia].
      * unfold Inv. simpl. split; [done |].
        split; [by rewrite dom_set_slot |]. split; [| split].
        -- intros k' l' Hk' Hl' Hdone.
           destruct (decide (k' = k ∧ l' = l)) as [[-> ->]|Hne].
           ++ apply slot_set_slot_eq.
              rewrite Hold1 by (done || lia). by apply Hexists.
           ++ rewrite slot_set_slot_ne.
              ** apply Hnew1; [done | done | lia].
              ** intros Heq. apply Hne. by apply Hinj.
        -- intros k' l' Hk' Hl' Hnot.
           rewrite slot_set_slot_ne.
           ++ apply Hold1; [done | done | lia].
           ++ intros Heq. apply Hinj in Heq; [| done..]. lia.
        -- intros c Hc. rewrite slot_set_slot_ne; [by apply Hframe1 |].
           intros Heq. by apply (Hc k l).
    + exists tt, w1. split; [done |]. unfold Inv.
      split; [done |]. split; [done |]. split; [| split; [| done]].
      * intros k' l' Hk' Hl' Hdone. apply Hnew1; [done | done | lia].
      * intros k' l' Hk' Hl' Hnot. apply Hold1; [done | done | lia].
  - exists w'. split; [done |]. split; [done |]. split; [done |]. split; [| done].
    intros k l Hk Hl. apply Hnew; [done | done | lia].
Qed.

End HeapFacts.

Module BuildFacts.
Import Oomph OomphFacts DoubleMultiVector HeapFacts.

Lemma filled_insert k total init :
  k < total → <[k := Some init]> (filled k total init) = filled (S k) total init.
Proof.
  intros Hk. unfold filled.
  rewrite insert_app_r_alt by (rewrite length_replicate; lia).
  rewrite length_replicate, Nat.sub_diag.
  replace (total - k) with (S (total - S k)) by lia. simpl.
  by rewrite cons_middle, app_assoc, <- replicate_S_end.
Qed.

Lemma filled_lookup k total init :
  k < total → filled k total init !! k = Some None.
Proof.
  intros Hk. unfold filled.
  rewrite lookup_app_r by (rewrite length_replicate; lia).
  rewrite length_replicate, Nat.sub_diag.
  apply lookup_replicate_2. lia.
Qed.

Lemma filled_all total init : filled total total init = replicate total (Some init).
Proof. unfold filled. by rewrite Nat.sub_diag, app_nil_r. Qed.

Lemma assigned_insert blk nrl v n :
  v < n →
  <[v := Some (Ptr blk (v * nrl))]> (assigned blk nrl v n) = assigned blk nrl (S v) n.
Proof.
  intros Hv. unfold assigned.
  rewrite seq_S, fmap_app, <- app_assoc.
  rewrite insert_app_r_alt by (rewrite length_fmap, length_seq; lia).
  rewrite length_fmap, length_seq, Nat.sub_diag.
  replace (n - v) with (S (n - S v)) by lia. done.
Qed.

Lemma assigned_length blk nrl v n : v ≤ n → length (assigned blk nrl v n) = n.
Proof.
  intros Hv. unfold assigned.
  rewrite length_app, length_fmap, length_seq, length_replicate. lia.
Qed.

Lemma assigned_lookup blk nrl v v' n :
  v' < v → assigned blk nrl v n !! v' = Some (Some (Ptr blk (v' * nrl))).
Proof.
  intros Hv. unfold assigned.
  rewrite lookup_app_l by (rewrite length_fmap, length_seq; lia).
  rewrite list_lookup_fmap, lookup_seq_lt by done. done.
Qed.

Lemma assigned_all blk nrl n :
  assigned blk nrl n n = (λ v', Some (Ptr blk (v' * nrl))) <$> seq 0 n.
Proof. unfold assigned. by rewrite Nat.sub_diag, app_nil_r. Qed.

Lemma set_Values_at_Ok (this : DoubleMultiVector) vals v p w :
  Values this = Some vals → v < length vals →
  set_Values_at this v p w = Ok (with_Values this (Some (<[v := Some p]> vals))) w.
Proof.
  intros Hvals Hv. unfold set_Values_at, mbind, M_bind, bind, from_option, ret.
  rewrite Hvals. by rewrite decide_True.
Qed.

(** The inner loop of [build]: the doubles of vector [v] get their value. *)
Lemma build_inner_loop (this : DoubleMultiVector) blk nrl v n init h w :
  pointer_of this v = Some (Ptr blk (v * nrl)) →
  v < n →
  heap w = <[blk := filled (v * nrl) (n * nrl) init]> h →
  for_loop nrl (λ i _, p ← Values_at this v; store p i init) tt w
  = Ok tt (with_heap w (<[blk := filled (S v * nrl) (n * nrl) init]> h)).
Proof.
  intros Hptr Hv Hheap.
  destruct (for_loop_invariant
              (λ i (_ : unit) w',
                 w' = with_heap w (<[blk := filled (v * nrl + i) (n * nrl) init]> h))
              (λ i _, p ← Values_at this v; store p i init) nrl tt w)
    as ([] & w' & Hrun & ->).
  - rewrite Nat.add_0_r, <- Hheap. by destruct w.
  - intros i [] w0 Hi ->.
    assert (Hk : v * nrl + i < n * nrl) by nia.
    eexists tt, _. split.
    + unfold mbind, M_bind. rewrite (bind_Ok _ _ _ _ _ (Values_at_Ok _ _ _ _ Hptr)).
      rewrite store_Ok.
      * reflexivity.
      * unfold cell_of. simpl. rewrite slot_insert_block. simpl.
        rewrite decide_True by done. rewrite filled_lookup by done. done.
    + unfold with_heap, set_slot, cell_of. simpl. f_equal.
      rewrite alter_insert_eq, filled_insert by done.
      by replace (v * nrl + S i) with (S (v * nrl + i)) by lia.
  - rewrite Hrun. by replace (v * nrl + nrl) with (S v * nrl) by lia.
Qed.

(** Reading [*dist_pt] after [Internal_values] has been set and after
    [build_distribution(dist_pt)] gives what it gave before. *)
Lemma pointee_with_Internal_values dist_pt (this : DoubleMultiVector) b :
  pointee dist_pt (with_Internal_values this b) = pointee dist_pt this.
Proof. by destruct dist_pt. Qed.

Lemma pointee_build_distribution dist_pt (this : DoubleMultiVector) :
  pointee dist_pt (build_distribution (pointee dist_pt this) this) = pointee dist_pt this.
Proof. by destruct dist_pt. Qed.

(** [build] on an object that holds no storage: one fresh block of
    [n_vector * nrow_local] doubles, all equal to the initial value, and the
    [v]-th pointer [v * nrow_local] doubles into it. *)
Lemma build_fresh n_vector dist_pt init (this : DoubleMultiVector) w :
  Values this = None →
  dist_built (pointee dist_pt this) = true →
  (Z.of_nat (dist_nrow_local (pointee dist_pt this)) * Z.of_nat n_vector < 4294967296)%Z →
  build n_vector dist_pt init this w
  = Ok (MkDoubleMultiVector (pointee dist_pt this)
          (Some ((λ v, Some (Ptr (fresh (dom (heap w)))
                                 (v * dist_nrow_local (pointee dist_pt this))))
                   <$> seq 0 n_vector))
          n_vector true true)
       (with_heap w (<[fresh (dom (heap w)) :=
                        replicate (n_vector * dist_nrow_local (pointee dist_pt this))
                          (Some init)]> (heap w))).
Proof.
  intros Hnull Hbuilt Hsmall.
  set (dist := pointee dist_pt this) in *.
  set (blk := fresh (dom (heap w))). set (nrl := dist_nrow_local dist).
  unfold build, clear. rewrite Hnull.
  unfold mbind at 1, M_bind at 1, bind at 1, ret at 1.
  cbv zeta. rewrite pointee_build_distribution, pointee_with_Internal_values.
  fold dist. rewrite Hbuilt.
  unfold mbind at 1, M_bind at 1, bind at 1, new_array.
  fold blk.
  change (nrow_local _) with nrl.
  replace (wrap_unsigned (Z.of_nat nrl * Z.of_nat n_vector)) with (n_vector * nrl);
    last first.
  { rewrite <- Nat2Z.inj_mul, wrap_unsigned_small by lia. lia. }
  set (this0 := with_Values _ _).
  set (w0 := with_heap w _).
  destruct (for_loop_invariant
    (λ v this_v w_v,
       this_v = MkDoubleMultiVector dist (Some (assigned blk nrl v n_vector))
                  n_vector true (Built this) ∧
       w_v = with_heap w (<[blk := filled (v * nrl) (n_vector * nrl) init]> (heap w)))
    (λ v this1,
       this2 ← set_Values_at this1 v
                 (Ptr (block (Ptr blk 0))
                      (offset (Ptr blk 0) + wrap_unsigned (Z.of_nat v * Z.of_nat nrl)));
       for_loop nrl (λ i _, p ← Values_at this2 v; store p i init) tt;;
       ret this2)
    n_vector this0 w0) as (this' & w' & Hrun & -> & ->).
  - split.
    + unfold this0, with_Values, with_Nvector, build_distribution, with_Distribution,
        with_Internal_values, assigned. simpl. by rewrite Nat.sub_0_r.
    + unfold w0, filled. simpl. by rewrite Nat.sub_0_r.
  - intros v this1 w1 Hv [-> ->].
    assert (Hwrap : wrap_unsigned (Z.of_nat v * Z.of_nat nrl) = v * nrl).
    { rewrite <- Nat2Z.inj_mul. apply wrap_unsigned_small. nia. }
    cbv beta. rewrite Hwrap. change (offset (Ptr blk 0) + v * nrl) with (v * nrl).
    change (block (Ptr blk 0)) with blk.
    eexists _, _. split; [| split; reflexivity].
    unfold mbind, M_bind.
    erewrite bind_Ok; last first.
    { apply set_Values_at_Ok; [reflexivity |]. rewrite assigned_length; lia. }
    cbv beta. rewrite assigned_insert by done.
    erewrite bind_Ok; last first.
    { eapply (build_inner_loop _ blk nrl v n_vector init (heap w)); [| done | reflexivity].
      unfold pointer_of. simpl. by rewrite assigned_lookup by lia. }
    reflexivity.
  - rewrite (mbind_Ok _ _ _ _ _ Hrun). unfold ret, with_Built. simpl.
    by rewrite assigned_all, filled_all.
Qed.

End BuildFacts.

Module CopyFacts.
Import Oomph OomphFacts DoubleMultiVector HeapFacts BuildFacts.

Lemma pointer_of_copy_of b blk v :
  v < Nvector b → pointer_of (copy_of b blk) v = Some (Ptr blk (v * nrow_local b)).
Proof.
  intros Hv. unfold pointer_of, copy_of. simpl.
  rewrite list_lookup_fmap, lookup_seq_lt by done. done.
Qed.

Lemma flat_index_unique nrl v i v' i' :
  i < nrl → i' < nrl → v * nrl + i = v' * nrl + i' → i = i' ∧ v = v'.
Proof.
  intros Hi Hi' Heq.
  destruct (Nat.div_mod_unique nrl v v' i i' Hi Hi') as [-> ->]; [lia | done].
Qed.

(** What [build] establishes on an object that held no storage: the object
    is built, its storage is in place, no double is addressed twice, and
    every value is the initial value. *)
Lemma build_establishes_storage n_vector dist init (this : DoubleMultiVector) w :
  Values this = None →
  dist_built dist = true →
  (Z.of_nat (dist_nrow_local dist) * Z.of_nat n_vector < 4294967296)%Z →
  ∃ this' w',
    build n_vector (other_distribution dist) init this w = Ok this' w' ∧
    Built this' = true ∧ Nvector this' = n_vector ∧ Distribution_pt this' = dist ∧
    stored (heap w') this' ∧ unshared this' ∧
    (∀ v i, v < n_vector → i < dist_nrow_local dist →
       value_at (heap w') this' v i = Some init) ∧
    (∀ c, is_Some (slot (heap w) c) → slot (heap w') c = slot (heap w) c).
Proof.
  intros Hnull Hbuilt Hsmall.
  set (blk := fresh (dom (heap w))). set (nrl := dist_nrow_local dist).
  eexists _, _. split; [by apply (build_fresh _ (other_distribution dist)) |].
  cbn [pointee]. fold blk nrl.
  assert (Hptr : ∀ v, v < n_vector →
    pointer_of (MkDoubleMultiVector dist
                  (Some ((λ v, Some (Ptr blk (v * nrl))) <$> seq 0 n_vector))
                  n_vector true true) v = Some (Ptr blk (v * nrl))).
  { intros v Hv. unfold pointer_of. simpl.
    rewrite list_lookup_fmap, lookup_seq_lt by done. done. }
  assert (Hvalue : ∀ v i, v < n_vector → i < nrl →
    value_at (<[blk := replicate (n_vector * nrl) (Some init)]> (heap w))
      (MkDoubleMultiVector dist
         (Some ((λ v, Some (Ptr blk (v * nrl))) <$> seq 0 n_vector))
         n_vector true true) v i = Some init).
  { intros v i Hv Hi. apply (slot_value_at _ _ _ _ (Ptr blk (v * nrl))); [by apply Hptr |].
    rewrite slot_insert_block. simpl. rewrite decide_True by done.
    rewrite lookup_replicate_2 by nia. done. }
  split; [done |]. split; [done |]. split; [done |].
  split; [| split; [| split]].
  - split.
    + intros v Hv. simpl in Hv. rewrite Hptr by done. by eexists.
    + intros v i Hv Hi. simpl in Hv. unfold nrow_local in Hi. simpl in Hi.
      simpl. rewrite Hvalue by done. by eexists.
  - intros v i v' i' Hv Hi Hv' Hi'. simpl in Hv, Hv'.
    unfold nrow_local in Hi, Hi'. simpl in Hi, Hi'.
    unfold address. rewrite !Hptr by done. simpl. unfold cell_of. simpl.
    intros Heq. injection Heq as Heq.
    destruct (flat_index_unique nrl v i v' i' Hi Hi' Heq). done.
  - intros v i Hv Hi. simpl. by apply Hvalue.
  - intros c Hc. simpl. rewrite slot_insert_block. rewrite decide_False; [done |].
    intros Heq. apply (is_fresh (dom (heap w))). fold blk. rewrite <- Heq.
    by apply slot_Some_block.
Qed.

(** [build(old_vector)] on a newly constructed object, for a built object
    whose storage is in place: the copy owns one fresh block that holds the
    values of the original; no other double changes. *)
Lemma build_copy_default_spec (b : DoubleMultiVector) w :
  Built b = true →
  dist_built (Distribution_pt b) = true →
  stored (heap w) b →
  (Z.of_nat (nrow_local b) * Z.of_nat (Nvector b) < 4294967296)%Z →
  ∃ w1, build_copy (other_vector b) DoubleMultiVector_default w
        = Ok (copy_of b (fresh (dom (heap w)))) w1 ∧
        mpi_calls w1 = mpi_calls w ∧
        dom (heap w1) = {[fresh (dom (heap w))]} ∪ dom (heap w) ∧
        (∀ v i, v < Nvector b → i < nrow_local b →
           slot (heap w1) (fresh (dom (heap w)), v * nrow_local b + i)
           = Some (Some (entry_value (heap w) b v i))) ∧
        (∀ c, c.1 ≠ fresh (dom (heap w)) → slot (heap w1) c = slot (heap w) c).
Proof.
  intros Hbuilt Hdist Hstored Hsmall.
  set (blk := fresh (dom (heap w))). set (nrl := nrow_local b).
  set (w0 := with_heap w (<[blk := replicate (Nvector b * nrl) (Some 0%float)]> (heap w))).
  destruct (nested_update_loops nrl (Nvector b)
              (λ i v, (blk, v * nrl + i))
              (λ i v, entry_value (heap w) b v i)
              (λ i v, x ← (p ← Values_at b v; load p i);
                      p ← Values_at (copy_of b blk) v;
                      store p i x) w0)
    as (w1 & Hrun & Hmpi & Hdom & Hnew & Hframe).
  - intros i v i' v' Hi Hv Hi' Hv' Heq. injection Heq as Heq.
    by apply (flat_index_unique nrl).
  - intros i v Hi Hv. unfold w0. simpl. rewrite slot_insert_block. simpl.
    rewrite decide_True by done. rewrite lookup_replicate_2 by nia. done.
  - intros i v w' Hi Hv Hmpi' Hframe' Hown.
    destruct (read_stored (heap w) b v i Hstored Hv Hi) as (p & Hp & _ & Hslot).
    assert (Hblock : block p ≠ blk).
    { intros Heq. pose proof (slot_fresh_block (heap w) (offset p + i)) as Hfresh.
      fold blk in Hfresh. rewrite <- Heq in Hfresh.
      unfold cell_of in Hslot. rewrite Hslot in Hfresh. discriminate. }
    rewrite (mbind_Ok _ _ w' (entry_value (heap w) b v i) w'); last first.
    { rewrite (mbind_Ok _ _ _ _ _ (Values_at_Ok _ _ _ _ Hp)).
      apply load_Ok. rewrite Hframe'.
      - unfold w0. simpl. rewrite slot_insert_block.
        rewrite decide_False by done. done.
      - intros i' v' _ _ Heq. apply Hblock. unfold cell_of in Heq.
        by injection Heq. }
    rewrite (mbind_Ok _ _ _ _ _
               (Values_at_Ok _ _ _ _ (pointer_of_copy_of b blk v Hv))).
    rewrite store_Ok.
    + reflexivity.
    + unfold cell_of. simpl. fold nrl. rewrite Hown. unfold w0. simpl.
      rewrite slot_insert_block. simpl. rewrite decide_True by done.
      rewrite lookup_replicate_2 by nia. done.
  - exists w1. split; [| split; [done |]; split; [| split]].
    + unfold build_copy. cbn [referent distribution_pt].
      assert (Hequal : equal DoubleMultiVector_default b w = Ok false w).
      { unfold equal, built. rewrite Hbuilt. reflexivity. }
      rewrite (bind_Ok _ _ _ _ _ Hequal). cbv beta iota zeta.
      erewrite mbind_Ok; last first.
      { apply (build_fresh _ (other_distribution _)); [reflexivity | done | done]. }
      cbn [pointee]. fold blk. change (dist_nrow_local (Distribution_pt b)) with nrl.
      fold w0. unfold distribution_built. simpl. rewrite Hdist.
      change (nrow_local _) with nrl at 1.
      erewrite mbind_Ok; last first.
      { exact Hrun. }
      reflexivity.
    + rewrite Hdom. unfold w0. simpl. by rewrite dom_insert_L.
    + intros v i Hv Hi. by apply Hnew.
    + intros c Hc. rewrite Hframe.
      * unfold w0. simpl. rewrite slot_insert_block. by rewrite decide_False.
      * intros i v _ _ Heq. apply Hc. by rewrite Heq.
Qed.

(** [setup_doublevector_representation] only reads the pointers. *)
Lemma setup_doublevector_representation_Ok (this : DoubleMultiVector) w :
  (∀ v, v < Nvector this → is_Some (pointer_of this v)) →
  setup_doublevector_representation this w = Ok tt w.
Proof.
  intros Hptr. unfold setup_doublevector_representation.
  destruct (for_loop_invariant (λ v (_ : unit) w', w' = w)
              (λ v _, values this v;; ret tt) (nvector this) tt w)
    as ([] & w' & Hrun & ->); [done | | done].
  intros v [] w' Hv ->. destruct (Hptr v Hv) as [p Hp].
  exists tt, w. split; [| done].
  unfold values. by rewrite (mbind_Ok _ _ _ _ _ (Values_at_Ok _ _ _ _ Hp)).
Qed.

Lemma setup_doublevector_representation_copy_of b blk w :
  setup_doublevector_representation (copy_of b blk) w = Ok tt w.
Proof.
  apply setup_doublevector_representation_Ok.
  intros v Hv. rewrite pointer_of_copy_of by done. by eexists.
Qed.

(** The copy constructor on a built object whose storage is in place: the
    copy owns one fresh block that holds the values of the original; no other
    double changes. *)
Lemma copy_constructor_spec (b : DoubleMultiVector) w :
  Built b = true →
  dist_built (Distribution_pt b) = true →
  stored (heap w) b →
  (Z.of_nat (nrow_local b) * Z.of_nat (Nvector b) < 4294967296)%Z →
  ∃ w1, copy_constructor b w = Ok (copy_of b (fresh (dom (heap w)))) w1 ∧
        mpi_calls w1 = mpi_calls w ∧
        dom (heap w1) = {[fresh (dom (heap w))]} ∪ dom (heap w) ∧
        (∀ v i, v < Nvector b → i < nrow_local b →
           slot (heap w1) (fresh (dom (heap w)), v * nrow_local b + i)
           = Some (Some (entry_value (heap w) b v i))) ∧
        (∀ c, c.1 ≠ fresh (dom (heap w)) → slot (heap w1) c = slot (heap w) c).
Proof.
  intros Hbuilt Hdist Hstored Hsmall.
  destruct (build_copy_default_spec b w Hbuilt Hdist Hstored Hsmall)
    as (w1 & Hrun & Hrest).
  exists w1. split; [| exact Hrest].
  unfold copy_constructor. rewrite (mbind_Ok _ _ _ _ _ Hrun).
  by rewrite (mbind_Ok _ _ _ _ _ (setup_doublevector_representation_copy_of b _ w1)).
Qed.

(** The copy of an object that is not built is a default-constructed
    object; nothing is allocated. *)
Lemma copy_constructor_unbuilt (b : DoubleMultiVector) w :
  Built b = false → copy_constructor b w = Ok DoubleMultiVector_default w.
Proof.
  intros Hb. unfold copy_constructor.
  assert (Hcopy : build_copy (other_vector b) DoubleMultiVector_default w
                  = Ok DoubleMultiVector_default w).
  { unfold build_copy, equal, built. cbn [referent]. rewrite Hb. reflexivity. }
  rewrite (mbind_Ok _ _ _ _ _ Hcopy). reflexivity.
Qed.

End CopyFacts.

Module CompoundFacts.
Import Oomph OomphFacts DoubleMultiVector HeapFacts BuildFacts CopyFacts.

(** The destructor of a deep copy frees the copy's block. *)
Lemma destructor_copy_of b blk w :
  0 < Nvector b → blk ∈ dom (heap w) →
  destructor (copy_of b blk) w = Ok tt (with_heap w (delete blk (heap w))).
Proof.
  intros Hpos Hlive. unfold destructor, clear. simpl.
  assert (Hdelete : delete_array (Ptr blk 0) w = Ok tt (with_heap w (delete blk (heap w)))).
  { unfold delete_array. simpl. apply elem_of_dom in Hlive as [l Hl]. by rewrite Hl. }
  assert (Hptr : pointer_of (copy_of b blk) 0 = Some (Ptr blk 0)).
  { by rewrite pointer_of_copy_of. }
  erewrite mbind_Ok; last first.
  { erewrite mbind_Ok; last first.
    - erewrite mbind_Ok; [exact Hdelete |]. by apply Values_at_Ok.
    - reflexivity. }
  reflexivity.
Qed.

Lemma by_value_spec checks op (this b : DoubleMultiVector) w :
  (∀ blk w1, checks (copy_of b blk) w1 = Ok tt w1) →
  Built b = true →
  dist_built (Distribution_pt b) = true →
  Distribution_pt this = Distribution_pt b →
  stored (heap w) this → stored (heap w) b → unshared this →
  Nvector this ≤ Nvector b → 0 < Nvector b →
  (Z.of_nat (nrow_local b) * Z.of_nat (Nvector b) < 4294967296)%Z →
  ∃ w', by_value checks op this b w = Ok tt w' ∧
        mpi_calls w' = mpi_calls w ∧
        dom (heap w') = dom (heap w) ∧
        (∀ v i, v < Nvector this → i < nrow_local this →
           value_at (heap w') this v i
           = Some (op (entry_value (heap w) this v i) (entry_value (heap w) b v i))) ∧
        (∀ c, (∀ v i, v < Nvector this → i < nrow_local this →
                      address this v i ≠ Some c) →
              slot (heap w') c = slot (heap w) c).
Proof.
  intros Hchecks Hbuilt Hdist Hsame Hthis Hb Hunshared Hle Hpos Hsmall.
  set (blk := fresh (dom (heap w))).
  assert (Hnrl : nrow_local this = nrow_local b) by (unfold nrow_local; by rewrite Hsame).
  destruct (copy_constructor_spec b w Hbuilt Hdist Hb Hsmall)
    as (w1 & Hcopy & Hmpi1 & Hdom1 & Hnew1 & Hframe1).
  fold blk in Hcopy, Hdom1, Hnew1, Hframe1.
  assert (Hold : ∀ c, is_Some (slot (heap w) c) → c.1 ≠ blk).
  { intros c Hc Heq. apply (is_fresh (dom (heap w))). fold blk. rewrite <- Heq.
    by apply slot_Some_block. }
  set (target := λ v i, default (0, 0) (address this v i)).
  assert (Htarget : ∀ v i, v < Nvector this → i < nrow_local this →
            ∃ p, pointer_of this v = Some p ∧ address this v i = Some (target v i) ∧
                 target v i = cell_of p i ∧
                 slot (heap w) (target v i) = Some (Some (entry_value (heap w) this v i))).
  { intros v i Hv Hi.
    destruct (read_stored (heap w) this v i Hthis Hv Hi) as (p & Hp & Ha & Hs).
    exists p. unfold target. rewrite Ha. simpl. done. }
  destruct (nested_update_loops (Nvector this) (nrow_local this) target
              (λ v i, op (entry_value (heap w) this v i) (entry_value (heap w) b v i))
              (λ v i, y ← (p ← Values_at (copy_of b blk) v; load p i);
                      p ← Values_at this v;
                      x ← load p i;
                      store p i (op x y)) w1)
    as (w2 & Hrun & Hmpi2 & Hdom2 & Hnew2 & Hframe2).
  - intros v i v' i' Hv Hi Hv' Hi' Heq.
    destruct (Htarget v i Hv Hi) as (_ & _ & Ha & _).
    destruct (Htarget v' i' Hv' Hi') as (_ & _ & Ha' & _).
    apply Hunshared; [done.. |]. by rewrite Ha, Ha', Heq.
  - intros v i Hv Hi. destruct (Htarget v i Hv Hi) as (_ & _ & _ & _ & Hs).
    rewrite Hframe1; [by rewrite Hs |]. apply Hold. by rewrite Hs.
  - intros v i w' Hv Hi Hmpi' Hframe' Hown.
    destruct (Htarget v i Hv Hi) as (p & Hp & _ & Hcell & Hs).
    rewrite (mbind_Ok _ _ w' (entry_value (heap w) b v i) w'); last first.
    { rewrite (mbind_Ok _ _ _ _ _
                 (Values_at_Ok _ _ _ _ (pointer_of_copy_of b blk v ltac:(lia)))).
      apply load_Ok. unfold cell_of. simpl. rewrite Hframe'.
      - apply Hnew1; lia.
      - intros v' i' Hv' Hi' Heq.
        destruct (Htarget v' i' Hv' Hi') as (_ & _ & _ & _ & Hs').
        apply (Hold (target v' i')); [by rewrite Hs' |]. by rewrite <- Heq. }
    rewrite (mbind_Ok _ _ _ _ _ (Values_at_Ok _ _ _ _ Hp)).
    assert (Hs1 : slot (heap w') (cell_of p i)
                  = Some (Some (entry_value (heap w) this v i))).
    { rewrite <- Hcell, Hown, Hframe1; [done |]. apply Hold. by rewrite Hs. }
    rewrite (mbind_Ok _ _ _ _ _ (load_Ok _ _ _ _ Hs1)).
    rewrite store_Ok by (by rewrite Hs1). by rewrite Hcell.
  - assert (Hlive : blk ∈ dom (heap w2)).
    { rewrite Hdom2, Hdom1. set_solver. }
    exists (with_heap w2 (delete blk (heap w2))).
    split; [| split; [| split; [| split]]].
    + unfold by_value. rewrite (mbind_Ok _ _ _ _ _ Hcopy).
      unfold with_parameter.
      rewrite (mbind_Ok _ _ _ _ _ (Hchecks blk w1)).
      unfold compound_loops, nvector. rewrite Hrun.
      by rewrite (destructor_copy_of b blk w2 Hpos Hlive).
    + simpl. by rewrite Hmpi2.
    + simpl. rewrite dom_delete_L, Hdom2, Hdom1.
      pose proof (is_fresh (dom (heap w))) as Hfresh. fold blk in Hfresh. set_solver.
    + intros v i Hv Hi. destruct (Htarget v i Hv Hi) as (p & Hp & _ & Hcell & Hs).
      apply (slot_value_at _ _ _ _ p); [done |]. simpl.
      rewrite slot_delete_block, decide_False.
      * rewrite <- Hcell. by apply Hnew2.
      * rewrite <- Hcell. apply Hold. by rewrite Hs.
    + intros c Hc. simpl. rewrite slot_delete_block. case_decide as Hblk.
      * destruct c as [cb ci]. simpl in Hblk. subst cb. symmetry.
        apply slot_fresh_block.
      * rewrite Hframe2, Hframe1; [done | done |].
        intros v i Hv Hi Heq. apply (Hc v i Hv Hi).
        destruct (Htarget v i Hv Hi) as (_ & _ & Ha & _). by rewrite Ha, Heq.
Qed.

End CompoundFacts.

Module PlusMinusFacts.
Import Oomph OomphFacts DoubleMultiVector HeapFacts BuildFacts CopyFacts CompoundFacts.

Lemma plus_assign_by_value cfg this b :
  plus_assign cfg this b = by_value (plus_checks cfg this) PrimFloat.add this b.
Proof. reflexivity. Qed.

Lemma minus_assign_by_value cfg this b :
  minus_assign cfg this b = by_value (minus_checks cfg this) PrimFloat.sub this b.
Proof. reflexivity. Qed.

Lemma plus_checks_pass cfg (this b : DoubleMultiVector) blk w :
  Built this = true → Distribution_pt this = Distribution_pt b →
  plus_checks cfg this (copy_of b blk) w = Ok tt w.
Proof.
  intros Hbuilt Hsame. unfold plus_checks, built. rewrite Hbuilt. simpl.
  rewrite bool_decide_eq_true_2 by done. by destruct (PARANOID cfg).
Qed.

Lemma minus_checks_pass cfg (this b : DoubleMultiVector) blk w :
  dist_built (Distribution_pt b) = true → Distribution_pt this = Distribution_pt b →
  minus_checks cfg this (copy_of b blk) w = Ok tt w.
Proof.
  intros Hbuilt Hsame. unfold minus_checks, distribution_built, built.
  rewrite Hsame, Hbuilt. simpl.
  rewrite bool_decide_eq_true_2 by done. by destruct (PARANOID cfg).
Qed.





(** An object added to and subtracted from itself: the parameter is a copy
    made at each call, so [a += a] doubles 1.0 to 2.0 and [a -= a] then
    leaves 2.0 - 2.0. *)
Lemma plus_assign_then_minus_assign_of_itself :
  ∃ w1 w2,
    plus_assign checked_build (vector_in_block 0) (vector_in_block 0) (world_of 1 0)
      = Ok tt w1 ∧
    value_at (heap w1) (vector_in_block 0) 0 0 = Some 2%float ∧
    minus_assign checked_build (vector_in_block 0) (vector_in_block 0) w1 = Ok tt w2 ∧
    value_at (heap w2) (vector_in_block 0) 0 0 = Some 0%float.
Proof.
  eexists _, _. repeat split; vm_compute; reflexivity.
Qed.

(** An argument with fewer vectors than [this]: the loops read
    [v_values[1]], past the copy's array of pointers. *)
Lemma plus_assign_too_few_vectors :
  plus_assign checked_build
    (MkDoubleMultiVector one_row (Some [Some (Ptr 0 0); Some (Ptr 1 0)]) 2 true true)
    (vector_in_block 1) (world_of 1 2) = Undefined.
Proof. vm_compute. reflexivity. Qed.

(** An argument with no vector at all: the destructor of its copy reads
    [Values[0]] of an empty array of pointers. *)
Lemma plus_assign_no_vector :
  plus_assign checked_build
    (MkDoubleMultiVector one_row (Some []) 0 true true)
    (MkDoubleMultiVector one_row (Some []) 0 true true) (world_of 1 2) = Undefined.
Proof. vm_compute. reflexivity. Qed.

Lemma stored_vector_in_block blk x y :
  blk < 2 → stored (heap (world_of x y)) (vector_in_block blk).
Proof.
  intros Hblk. split.
  - intros v Hv. simpl in Hv. destruct v; [| lia]. by eexists.
  - intros v i Hv Hi. simpl in Hv. unfold nrow_local in Hi. simpl in Hi.
    destruct v; [| lia]. destruct i; [| lia].
    destruct blk as [|[|]]; [by eexists | by eexists | lia].
Defined.


End PlusMinusFacts.

(** ** Double arithmetic: the square of a square root

    The primitive operations on [float] are specified by the functions of
    [SpecFloat] on mantissas and exponents (precision 53, largest exponent
    1024); the lemmas below follow the rounding of those functions. *)

Module FloatFacts.
Import DoubleMultiVector.
Local Open Scope Z_scope.

(** A positive number of [d] binary digits lies between 2^(d-1) and 2^d. *)
Lemma digits2_pos_spec (m : positive) :
  2 ^ (Z.pos (digits2_pos m) - 1) ≤ Z.pos m < 2 ^ Z.pos (digits2_pos m).
Proof.
  induction m as [m IH|m IH|]; simpl digits2_pos.
  - rewrite Pos2Z.inj_succ.
    replace (Z.succ (Z.pos (digits2_pos m)) - 1) with (Z.succ (Z.pos (digits2_pos m) - 1))
      by lia.
    rewrite !Z.pow_succ_r by lia. lia.
  - rewrite Pos2Z.inj_succ.
    replace (Z.succ (Z.pos (digits2_pos m)) - 1) with (Z.succ (Z.pos (digits2_pos m) - 1))
      by lia.
    rewrite !Z.pow_succ_r by lia. lia.
  - simpl. lia.
Qed.

(** The number of binary digits is determined by the two bounds. *)
Lemma digits2_pos_unique (m : positive) (k : Z) :
  2 ^ (k - 1) ≤ Z.pos m < 2 ^ k → Z.pos (digits2_pos m) = k.
Proof.
  intros [Hlo Hhi]. pose proof (digits2_pos_spec m) as [Hlo' Hhi'].
  set (d := Z.pos (digits2_pos m)) in *.
  assert (Hd : 0 < d) by (unfold d; lia).
  destruct (Z.lt_trichotomy d k) as [Hlt | [Heq | Hgt]]; [| done |].
  - assert (2 ^ d ≤ 2 ^ (k - 1)) by (apply Z.pow_le_mono_r; lia). lia.
  - assert (Hk : 0 ≤ k).
    { destruct (Z.le_gt_cases 0 k) as [|Hneg]; [done |].
      rewrite (Z.pow_neg_r 2 k) in Hhi by lia. lia. }
    assert (2 ^ k ≤ 2 ^ (d - 1)) by (apply Z.pow_le_mono_r; lia). lia.
Qed.

(** One right shift halves the mantissa and records the bit shifted out. *)
Lemma shr_1_spec (m : Z) (r s : bool) :
  0 ≤ m →
  ∃ (m' : Z) (b : bool),
    shr_1 {| shr_m := m; shr_r := r; shr_s := s |}
    = {| shr_m := m'; shr_r := b; shr_s := r || s |} ∧
    m = 2 * m' + (if b then 1 else 0) ∧ 0 ≤ m'.
Proof.
  intros Hm. destruct m as [|p|p]; [| | lia].
  - exists 0, false. done.
  - destruct p as [p|p|].
    + exists (Z.pos p), true. split; [done |]. lia.
    + exists (Z.pos p), false. split; [done |]. lia.
    + exists 0, true. done.
Qed.

Lemma iter_pos_nat {A} (f : A → A) (p : positive) (x : A) :
  SpecFloat.iter_pos f p x = Nat.iter (Pos.to_nat p) f x.
Proof.
  revert x. induction p as [p IH|p IH|]; intros x; simpl SpecFloat.iter_pos.
  - rewrite !IH. rewrite Pos2Nat.inj_xI.
    replace (S (2 * Pos.to_nat p))%nat with (Pos.to_nat p + (Pos.to_nat p + 1))%nat by lia.
    rewrite !Nat.iter_add. simpl. done.
  - rewrite !IH. rewrite Pos2Nat.inj_xO.
    replace (2 * Pos.to_nat p)%nat with (Pos.to_nat p + Pos.to_nat p)%nat by lia.
    by rewrite Nat.iter_add.
  - done.
Qed.

(** [n] right shifts of [M]: the quotient, and the two bits that say where
    the remainder lies in the interval. *)
Lemma shr_iter (M : Z) (n : nat) :
  0 ≤ M →
  ∃ (m rem : Z) (r s : bool),
    Nat.iter n shr_1 {| shr_m := M; shr_r := false; shr_s := false |}
    = {| shr_m := m; shr_r := r; shr_s := s |} ∧
    M = m * 2 ^ Z.of_nat n + rem ∧ 0 ≤ rem < 2 ^ Z.of_nat n ∧ 0 ≤ m ∧
    (r = true ↔ 2 ^ Z.of_nat n ≤ 2 * rem) ∧
    (s = true ↔ rem ≠ 0 ∧ 2 * rem ≠ 2 ^ Z.of_nat n).
Proof.
  intros HM. induction n as [|n IH].
  - exists M, 0, false, false. simpl. split; [done |]. lia.
  - destruct IH as (m & rem & r & s & Hrun & HMeq & Hrem & Hm & Hr & Hs).
    simpl Nat.iter. rewrite Hrun.
    destruct (shr_1_spec m r s Hm) as (m' & b & Hstep & Hmeq & Hm').
    rewrite Nat2Z.inj_succ, Z.pow_succ_r by lia.
    set (p := 2 ^ Z.of_nat n) in *.
    assert (Hp : 0 < p) by (apply Z.pow_pos_nonneg; lia).
    exists m', (rem + (if b then p else 0)), b, (r || s). rewrite Hstep.
    split; [done |]. split; [destruct b; nia |]. split; [destruct b; lia |].
    split; [done |]. split.
    + destruct b; split; intros H; try done; lia.
    + rewrite orb_true_iff. destruct b; split.
      * intros [H|H]; [apply Hr in H | apply Hs in H]; lia.
      * intros [_ H]. destruct (decide (p ≤ 2 * rem)) as [Hle|Hgt].
        -- left. by apply Hr.
        -- right. apply Hs. lia.
      * intros [H|H]; [apply Hr in H | apply Hs in H]; lia.
      * intros [H _]. destruct (decide (p ≤ 2 * rem)) as [Hle|Hgt].
        -- left. by apply Hr.
        -- right. apply Hs. lia.
Qed.

(** Shifting right by [k] places and rounding to nearest, ties to even,
    gives one of the two neighbours of [M / 2^k], at most half a unit of
    the last place away. *)
Lemma round_shr (M : Z) (k : positive) (e : Z) :
  0 ≤ M →
  ∃ mrs R0,
    shr {| shr_m := M; shr_r := false; shr_s := false |} e (Z.pos k) = (mrs, e + Z.pos k) ∧
    round_nearest_even (shr_m mrs) (loc_of_shr_record mrs) = R0 ∧
    M / 2 ^ Z.pos k ≤ R0 ≤ M / 2 ^ Z.pos k + 1 ∧
    2 * Z.abs (R0 * 2 ^ Z.pos k - M) ≤ 2 ^ Z.pos k.
Proof.
  intros HM.
  destruct (shr_iter M (Pos.to_nat k) HM) as (m & rem & r & s & Hrun & HMeq & Hrem & Hm & Hr & Hs).
  rewrite positive_nat_Z in *.
  set (p := 2 ^ Z.pos k) in *.
  assert (Hp : 0 < p) by (apply Z.pow_pos_nonneg; lia).
  assert (Hdiv : M / p = m).
  { symmetry. apply (Z.div_unique M p m rem); lia. }
  eexists _, _. split.
  { unfold shr. rewrite iter_pos_nat, Hrun. reflexivity. }
  split; [reflexivity |]. rewrite Hdiv. simpl shr_m. unfold loc_of_shr_record.
  destruct r, s; simpl round_nearest_even.
  - assert (p ≤ 2 * rem) by (by apply Hr).
    assert (rem ≠ 0 ∧ 2 * rem ≠ p) by (by apply Hs). lia.
  - assert (p ≤ 2 * rem) by (by apply Hr).
    assert (¬ (rem ≠ 0 ∧ 2 * rem ≠ p)) by (intros H'; apply Hs in H'; done).
    destruct (Z.even m); lia.
  - assert (¬ p ≤ 2 * rem) by (intros H'; apply Hr in H'; done).
    lia.
  - assert (¬ p ≤ 2 * rem) by (intros H'; apply Hr in H'; done).
    assert (¬ (rem ≠ 0 ∧ 2 * rem ≠ p)) by (intros H'; apply Hs in H'; done).
    lia.
Qed.

(** The mantissa and exponent of a finite double: at most 53 digits, and
    fewer than 53 only at the smallest exponent. *)
Lemma bounded_spec (m : positive) (e : Z) :
  bounded prec emax m e = true →
  -1074 ≤ e ≤ 971 ∧ Z.pos (digits2_pos m) ≤ 53 ∧
  (Z.pos (digits2_pos m) = 53 ∨ e = -1074).
Proof.
  unfold bounded, canonical_mantissa, fexp, SpecFloat.emin, prec, emax.
  intros H. apply andb_prop in H as [H1 H2].
  apply Z.eqb_eq in H1. apply Z.leb_le in H2. lia.
Qed.

(** A number of 53 binary digits at an exponent that is not below the
    smallest one is left as it is by the shift that brings a mantissa to
    its place. *)
Lemma shr_fexp_53 (m : positive) (e : Z) (l : location) :
  2 ^ 52 ≤ Z.pos m < 2 ^ 53 → -1074 ≤ e →
  shr_fexp prec emax (Z.pos m) e l = (shr_record_of_loc (Z.pos m) l, e).
Proof.
  intros Hm He. unfold shr_fexp. cbn [Zdigits2].
  rewrite (digits2_pos_unique m 53) by (change (53 - 1) with 52; lia).
  replace (fexp prec emax (53 + e) - e) with 0
    by (unfold fexp, SpecFloat.emin, prec, emax; lia).
  reflexivity.
Qed.

Lemma div2_parity (u : Z) : ∃ t b, u = 2 * t + b ∧ (b = 0 ∨ b = 1) ∧ Z.div2 u = t.
Proof.
  exists (Z.div2 u), (Z.b2z (Z.odd u)). split; [apply Z.div2_odd |].
  split; [destruct (Z.odd u); simpl; lia | done].
Qed.

(** The square root of a positive finite double: a mantissa [n] of 53
    digits whose square is within [n] of the scaled mantissa of the
    argument. *)
Lemma SFsqrt_finite (mx : positive) (ex : Z) :
  bounded prec emax mx ex = true →
  ∃ (n : positive) (e' t b : Z),
    SFsqrt prec emax (S754_finite false mx ex) = S754_finite false n e' ∧
    Z.pos (digits2_pos mx) + ex + 1 = 2 * t + b ∧ (b = 0 ∨ b = 1) ∧
    e' = t - 53 ∧
    2 ^ 52 ≤ Z.pos n < 2 ^ 53 ∧
    2 ^ 104 ≤ Z.pos mx * 2 ^ (ex - 2 * e') ∧
    Z.abs (Z.pos n * Z.pos n - Z.pos mx * 2 ^ (ex - 2 * e')) ≤ Z.pos n.
Proof.
  intros Hb. destruct (bounded_spec mx ex Hb) as (He & Hdd & Hcanon).
  pose proof (digits2_pos_spec mx) as Hdigits.
  set (dd := Z.pos (digits2_pos mx)) in *.
  assert (Hdd1 : 1 ≤ dd) by (unfold dd; lia).
  destruct (div2_parity (dd + ex + 1)) as (t & b & Hu & Hb01 & Ht).
  destruct (div2_parity ex) as (t' & b' & Hu' & Hb01' & Ht').
  set (e' := t - 53). set (s := ex - 2 * e').
  assert (Hs : s = 105 + b - dd) by (unfold s, e'; lia).
  assert (Hs52 : 52 ≤ s) by lia.
  (* the scaled mantissa *)
  set (m' := Z.pos mx * 2 ^ s).
  assert (Hpow : 2 ^ (dd - 1) * 2 ^ s = 2 ^ (104 + b) ∧ 2 ^ dd * 2 ^ s = 2 ^ (105 + b)).
  { rewrite <- !Z.pow_add_r by lia. split; f_equal; lia. }
  destruct Hpow as [Hpow1 Hpow2].
  assert (Hps : 0 < 2 ^ s) by (apply Z.pow_pos_nonneg; lia).
  assert (Hps53 : 2 ^ 52 ≤ 2 ^ s) by (apply Z.pow_le_mono_r; lia).
  assert (Hm' : 2 ^ (104 + b) ≤ m' ∧ m' + 2 ^ s ≤ 2 ^ (105 + b)).
  { unfold m'. split; [rewrite <- Hpow1 | rewrite <- Hpow2]; nia. }
  assert (Hm'104 : 2 ^ 104 ≤ m' ∧ m' + 2 ^ s ≤ 2 ^ 106 ∧ (b = 1 → 2 ^ 53 ≤ 2 ^ s)
                   ∧ (b = 0 → m' < 2 ^ 105)).
  { destruct Hb01 as [-> | ->].
    - change (104 + 0) with 104 in Hm'. change (105 + 0) with 105 in Hm'.
      split; [lia |]. split; [lia |]. split; [lia |]. lia.
    - change (104 + 1) with 105 in Hm'. change (105 + 1) with 106 in Hm'.
      split; [lia |]. split; [lia |]. split; [| lia].
      intros _. apply Z.pow_le_mono_r; lia. }
  destruct Hm'104 as (Hm104 & Hm106 & Hb1 & Hb0).
  (* the integer square root *)
  pose proof (Z.sqrtrem_spec m' ltac:(lia)) as Hsqrt.
  destruct (Z.sqrtrem m') as [q r] eqn:Hqr.
  destruct Hsqrt as [Hm'eq Hr].
  assert (Hq : 2 ^ 52 ≤ q < 2 ^ 53) by nia.
  assert (Hcore : SFsqrt_core_binary prec emax (Z.pos mx) ex
                  = (q, e', if r =? 0 then loc_Exact
                            else loc_Inexact (if r <=? q then Lt else Gt))).
  { unfold SFsqrt_core_binary. cbn [Zdigits2]. fold dd.
    rewrite Ht, Ht'.
    replace (Z.min (fexp prec emax t) t') with e'
      by (unfold e', fexp, SpecFloat.emin, prec, emax; lia).
    fold s. destruct s as [|p|p] eqn:Hsp; [lia | | lia].
    rewrite Z.shiftl_mul_pow2 by lia. fold m'. rewrite Hqr. reflexivity. }
  (* rounding *)
  set (n0 := if r =? 0 then q else if r <=? q then q else q + 1).
  assert (Hn0 : 2 ^ 52 ≤ n0 < 2 ^ 53 ∧ Z.abs (n0 * n0 - m') ≤ n0).
  { unfold n0. destruct (Z.eqb_spec r 0) as [Hr0|Hr0]; [split; [lia | nia] |].
    destruct (Z.leb_spec r q) as [Hrq|Hrq]; [split; [lia | nia] |].
    assert (q + 1 < 2 ^ 53).
    { destruct (Z.eq_dec q (2 ^ 53 - 1)) as [Hq53|Hq53]; [| lia].
      exfalso. destruct Hb01 as [Hb0'|Hb1'].
      - specialize (Hb0 Hb0'). nia.
      - specialize (Hb1 Hb1'). nia. }
    split; [lia | nia]. }
  destruct Hn0 as [Hn0 Hclose].
  destruct n0 as [|n|n] eqn:Hn0eq; [lia | | lia].
  exists n, e', t, b.
  split; [| split; [done |]; split; [done |]; split; [done |]; split; [done |];
            split; [done | done]].
  unfold SFsqrt. rewrite Hcore. unfold binary_round_aux.
  destruct q as [|qp|qp]; [lia | | lia].
  rewrite shr_fexp_53 by (unfold e'; lia).
  assert (Hround : round_nearest_even
                     (shr_m (shr_record_of_loc (Z.pos qp)
                        (if r =? 0 then loc_Exact
                         else loc_Inexact (if r <=? Z.pos qp then Lt else Gt))))
                     (loc_of_shr_record (shr_record_of_loc (Z.pos qp)
                        (if r =? 0 then loc_Exact
                         else loc_Inexact (if r <=? Z.pos qp then Lt else Gt))))
                   = Z.pos n).
  { rewrite <- Hn0eq. unfold n0.
    destruct (r =? 0); [reflexivity |]. destruct (r <=? Z.pos qp); reflexivity. }
  rewrite Hround. rewrite shr_fexp_53 by (unfold e'; lia).
  cbn [shr_record_of_loc shr_m].
  replace (e' <=? emax - prec) with true
    by (symmetry; apply Z.leb_le; unfold e', emax, prec; lia).
  reflexivity.
Qed.
(** The second shift of [binary_round_aux]: a rounded mantissa that has
    reached 2^53 is halved, any other is left as it is. *)
Lemma renormalise (R0 e_r : Z) :
  0 < R0 ≤ 2 ^ 53 → -1074 ≤ e_r → (R0 < 2 ^ 52 → e_r = -1074) →
  ∃ R e_f,
    shr_fexp prec emax R0 e_r loc_Exact
    = ({| shr_m := R; shr_r := false; shr_s := false |}, e_f) ∧
    ((e_f = e_r ∧ R = R0) ∨ (e_f = e_r + 1 ∧ R0 = 2 ^ 53 ∧ R = 2 ^ 52)).
Proof.
  intros HR He Hsub.
  destruct (Z.eq_dec R0 (2 ^ 53)) as [->|Hne].
  - exists (2 ^ 52), (e_r + 1). split; [| right; done].
    unfold shr_fexp. change (2 ^ 53) with 9007199254740992.
    replace (Zdigits2 9007199254740992) with 54 by reflexivity.
    replace (fexp prec emax (54 + e_r) - e_r) with 1
      by (unfold fexp, SpecFloat.emin, prec, emax; lia).
    reflexivity.
  - exists R0, e_r. split; [| left; done].
    destruct R0 as [|p|p]; [lia | | lia].
    unfold shr_fexp. cbn [Zdigits2].
    pose proof (digits2_pos_spec p) as Hd.
    set (dR := Z.pos (digits2_pos p)) in *.
    assert (HdR : dR ≤ 53).
    { destruct (Z.le_gt_cases dR 53) as [|Hgt]; [done |].
      assert (2 ^ 53 ≤ 2 ^ (dR - 1)) by (apply Z.pow_le_mono_r; lia). lia. }
    assert (Hcase : dR = 53 ∨ e_r = -1074).
    { destruct (Z.le_gt_cases (2 ^ 52) (Z.pos p)) as [Hge|Hlt].
      - left. apply (digits2_pos_unique p 53). change (53 - 1) with 52. lia.
      - right. by apply Hsub. }
    replace (fexp prec emax (dR + e_r) - e_r) with 0
      by (unfold fexp, SpecFloat.emin, prec, emax; unfold dR in *; lia).
    reflexivity.
Qed.

(** The product of a positive double of 53 digits with itself: the square
    of the mantissa, shifted right by [sh] places and rounded to nearest. *)
Lemma SFmul_square (n : positive) (e' : Z) :
  2 ^ 52 ≤ Z.pos n < 2 ^ 53 → -589 ≤ e' ≤ 459 →
  ∃ (R : positive) (e_f R0 sh : Z),
    SFmul prec emax (S754_finite false n e') (S754_finite false n e')
    = S754_finite false R e_f ∧
    -1074 ≤ e_f ∧
    52 ≤ sh ∧ -1074 - 2 * e' ≤ sh ∧
    (sh = -1074 - 2 * e' ∨ 2 ^ (sh + 52) ≤ Z.pos n * Z.pos n) ∧
    Z.pos n * Z.pos n < 2 ^ (sh + 53) ∧
    Z.pos R * 2 ^ (e_f + 1074) = R0 * 2 ^ (sh - (-1074 - 2 * e')) ∧
    2 * Z.abs (R0 * 2 ^ sh - Z.pos n * Z.pos n) ≤ 2 ^ sh.
Proof.
  intros Hn He.
  set (P := Z.pos n * Z.pos n).
  assert (HP : 2 ^ 104 ≤ P < 2 ^ 106) by (unfold P; nia).
  pose proof (digits2_pos_spec (n * n)) as Hd. rewrite Pos2Z.inj_mul in Hd. fold P in Hd.
  set (dP := Z.pos (digits2_pos (n * n))) in *.
  assert (HdP : (dP = 105 ∧ P < 2 ^ 105) ∨ (dP = 106 ∧ 2 ^ 105 ≤ P)).
  { destruct (Z.le_gt_cases (2 ^ 105) P) as [Hge|Hlt].
    - right. split; [| done]. unfold dP. apply digits2_pos_unique.
      rewrite Pos2Z.inj_mul. fold P. change (106 - 1) with 105. lia.
    - left. split; [| done]. unfold dP. apply digits2_pos_unique.
      rewrite Pos2Z.inj_mul. fold P. change (105 - 1) with 104. lia. }
  set (T := -1074 - 2 * e').
  set (sh := Z.max (dP - 53) T).
  assert (Hsh : 52 ≤ sh ∧ T ≤ sh ∧ sh ≤ 104 ∧ dP - 53 ≤ sh) by (unfold sh, T; lia).
  destruct Hsh as (Hsh52 & HshT & Hsh104 & HshdP).
  destruct sh as [|k|k] eqn:Hk; [lia | | lia]. rewrite <- Hk in *.
  destruct (round_shr P k (e' + e') ltac:(lia)) as (mrs & R0 & Hshr & Hround & Hnear & Hhalf).
  rewrite <- Hk in *.
  assert (Hpsh : 0 < 2 ^ sh) by (apply Z.pow_pos_nonneg; lia).
  assert (Hpow1 : 2 ^ (dP - 1) = 2 ^ (dP - 1 - sh) * 2 ^ sh).
  { rewrite <- Z.pow_add_r by lia. f_equal. lia. }
  assert (Hpow2 : 2 ^ dP = 2 ^ (dP - sh) * 2 ^ sh).
  { rewrite <- Z.pow_add_r by lia. f_equal. lia. }
  assert (Hdiv : 2 ^ (dP - 1 - sh) ≤ P / 2 ^ sh < 2 ^ (dP - sh)).
  { split.
    - apply Z.div_le_lower_bound; [done |]. rewrite Z.mul_comm, <- Hpow1. lia.
    - apply Z.div_lt_upper_bound; [done |]. rewrite Z.mul_comm, <- Hpow2. lia. }
  assert (Hone : 0 < 2 ^ (dP - 1 - sh)) by (apply Z.pow_pos_nonneg; lia).
  assert (H53 : 2 ^ (dP - sh) ≤ 2 ^ 53) by (apply Z.pow_le_mono_r; lia).
  assert (HR0 : 0 < R0 ≤ 2 ^ 53) by lia.
  assert (Hbranch : sh = T ∨ (sh = dP - 53 ∧ 2 ^ 52 ≤ R0)).
  { destruct (Z.eq_dec sh T) as [|Hne]; [by left |]. right.
    assert (Heq : sh = dP - 53) by (rewrite Hk; unfold sh in *; lia).
    split; [done |].
    replace (dP - 1 - sh) with 52 in Hdiv by lia. lia. }
  destruct (renormalise R0 (e' + e' + sh) HR0) as (R & e_f & Hnorm & Hcases).
  { unfold T in HshT. lia. }
  { intros Hsmall. destruct Hbranch as [->|[_ Hbig]]; [unfold T; lia | lia]. }
  (* no overflow *)
  assert (Hcarry : R0 = 2 ^ 53 → sh = dP - 53 → dP = 105).
  { intros -> Heq. destruct HdP as [[? _]|[HdP106 _]]; [done |]. exfalso.
    assert (Hsh53 : sh = 53) by lia.
    rewrite Hsh53 in Hhalf. unfold P in Hhalf. nia. }
  assert (Hef : -1074 ≤ e_f ≤ 971 ∧ 0 < R ∧ R * 2 ^ (e_f + 1074) = R0 * 2 ^ (sh - T)).
  { destruct Hcases as [[-> ->]|(-> & HR053 & ->)].
    - split; [| split; [lia |]].
      + unfold T in *. destruct Hbranch as [HT|[Heq _]]; [lia |].
        destruct HdP as [[? _]|[? _]]; lia.
      + f_equal. f_equal. unfold T. lia.
    - assert (Heq : sh = dP - 53).
      { destruct (Z.eq_dec sh (dP - 53)) as [|Hne]; [done |]. exfalso.
        assert (dP - sh ≤ 52) by lia.
        assert (2 ^ (dP - sh) ≤ 2 ^ 52) by (apply Z.pow_le_mono_r; lia).
        lia. }
      specialize (Hcarry HR053 Heq).
      split; [unfold T in *; lia |]. split; [lia |].
      rewrite HR053.
      replace (e' + e' + sh + 1 + 1074) with (1 + (sh - T)) by (unfold T; lia).
      rewrite Z.pow_add_r by lia. change (2 ^ 1) with 2. lia. }
  destruct Hef as (Hef & HRpos & Hvalue).
  destruct R as [|Rp|Rp]; [lia | | lia].
  exists Rp, e_f, R0, sh.
  split; [| split; [lia |]; split; [done |]; split; [done |]; split; [| split; [| done]]].
  - assert (Hfirst : shr_fexp prec emax P (e' + e') loc_Exact = (mrs, e' + e' + sh)).
    { unfold shr_fexp. unfold P at 2. rewrite <- Pos2Z.inj_mul.
      cbn [Zdigits2 shr_record_of_loc]. fold dP.
      replace (fexp prec emax (dP + (e' + e')) - (e' + e')) with sh
        by (unfold sh, T, fexp, SpecFloat.emin, prec, emax; lia).
      exact Hshr. }
    unfold SFmul. cbn [xorb]. unfold binary_round_aux.
    rewrite Pos2Z.inj_mul. fold P. rewrite Hfirst, Hround, Hnorm. cbn [shr_m].
    replace (e_f <=? emax - prec) with true
      by (symmetry; apply Z.leb_le; unfold emax, prec; lia).
    reflexivity.
  - destruct Hbranch as [->|[Heq _]]; [by left |]. right.
    replace (sh + 52) with (dP - 1) by lia. fold P. lia.
  - fold P. apply Z.lt_le_trans with (2 ^ dP); [lia |].
    apply Z.pow_le_mono_r; lia.
Qed.
Lemma mul_le_cancel (a b y : Z) : 0 < y → a * y ≤ b * y → a ≤ b.
Proof. intros Hy H. nia. Qed.

Lemma square_bounds (n : Z) : 2 ^ 52 ≤ n < 2 ^ 53 → 2 ^ 104 ≤ n * n < 2 ^ 106.
Proof. intros H. nia. Qed.

Lemma relative_bound (x n P m' : Z) :
  2 ^ 52 ≤ n < 2 ^ 53 → P = n * n → x * 2 ^ 52 ≤ P → Z.abs (P - m') ≤ n →
  2 ^ 104 ≤ m' →
  2 ^ 51 * (x + 2 * n) ≤ 2 * m'.
Proof.
  intros Hn HP Hx Hclose Hm.
  assert (H1 : 2 ^ 52 * n ≤ P) by (subst P; nia).
  lia.
Qed.

Lemma scaled_bound (A x n m' z : Z) :
  0 < z → 2 * A ≤ x + 2 * n → 2 ^ 51 * (x + 2 * n) ≤ 2 * m' →
  2 ^ 51 * (2 * (A * z)) ≤ 2 * m' * z.
Proof.
  intros Hz HA Hrel.
  assert (H1 : 2 ^ 51 * (2 * A) ≤ 2 * m') by lia.
  replace (2 ^ 51 * (2 * (A * z))) with (2 ^ 51 * (2 * A) * z) by ring.
  apply Z.mul_le_mono_nonneg_r; lia.
Qed.

Lemma below_two (A x : Z) : 0 < x → 2 * (A * x) < 4 * x → A ≤ 1.
Proof. intros Hx H. nia. Qed.

(** The square of the square root of a positive finite double, on
    mantissas and exponents: within 2^-51 of a normal argument, within one
    unit of a subnormal one. *)
Lemma sqrt_squared_finite (mx : positive) (ex : Z) :
  bounded prec emax mx ex = true →
  ∃ (R : positive) (e_f : Z),
    SFmul prec emax (SFsqrt prec emax (S754_finite false mx ex))
                    (SFsqrt prec emax (S754_finite false mx ex))
    = S754_finite false R e_f ∧
    (2 ^ 52 ≤ Z.pos mx →
     2 ^ 51 * Z.abs (Z.pos R * 2 ^ (e_f + 1074) - Z.pos mx * 2 ^ (ex + 1074))
     ≤ Z.pos mx * 2 ^ (ex + 1074)) ∧
    (Z.pos mx < 2 ^ 52 →
     Z.abs (Z.pos R * 2 ^ (e_f + 1074) - Z.pos mx * 2 ^ (ex + 1074)) ≤ 1).
Proof.
  intros Hb. destruct (bounded_spec mx ex Hb) as (He & Hdd & Hcanon).
  pose proof (digits2_pos_spec mx) as Hdigits.
  destruct (SFsqrt_finite mx ex Hb)
    as (n & e' & t & b & Hsqrt & Hu & Hb01 & He' & Hn & Hm104 & Hclose).
  set (dd := Z.pos (digits2_pos mx)) in *.
  assert (Hdd1 : 1 ≤ dd) by (unfold dd; lia).
  destruct (SFmul_square n e' Hn ltac:(lia))
    as (R & e_f & R0 & sh & Hmul & Hef & Hsh52 & HshT & Hbranch & Hupper & Hvalue & Hhalf).
  set (T := -1074 - 2 * e') in *.
  set (s := ex - 2 * e') in *.
  assert (Hs : s = 105 + b - dd) by (unfold s; lia).
  assert (HsT : s - T = ex + 1074) by (unfold s, T; lia).
  set (m' := Z.pos mx * 2 ^ s) in *.
  pose proof (square_bounds (Z.pos n) Hn) as HP.
  set (P := Z.pos n * Z.pos n) in *.
  set (a := 2 ^ (ex + 1074)).
  set (c := 2 ^ (sh - T)) in *.
  assert (Ha : 0 < a) by (apply Z.pow_pos_nonneg; lia).
  assert (Hc : 0 < c) by (apply Z.pow_pos_nonneg; lia).
  exists R, e_f. rewrite Hsqrt. split; [exact Hmul |].
  rewrite Hvalue. fold a.
  (* the two scales *)
  assert (Hscale : ∃ y z, 0 < y ∧ 0 < z ∧ 2 ^ s * z = a * y ∧ 2 ^ sh * z = c * y).
  { destruct (Z.le_gt_cases 0 T) as [HT|HT].
    - exists (2 ^ T), 1. split; [apply Z.pow_pos_nonneg; lia |]. split; [lia |].
      unfold a, c. rewrite <- HsT, !Z.mul_1_r, <- !Z.pow_add_r by lia.
      split; f_equal; lia.
    - exists 1, (2 ^ (- T)). split; [lia |]. split; [apply Z.pow_pos_nonneg; lia |].
      unfold a, c. rewrite <- HsT, !Z.mul_1_r, <- !Z.pow_add_r by lia.
      split; f_equal; lia. }
  destruct Hscale as (y & z & Hy & Hz & Hsa & Hshc).
  set (x := 2 ^ sh) in *. set (ps := 2 ^ s) in *.
  assert (Hx : 0 < x) by (apply Z.pow_pos_nonneg; lia).
  assert (Hps : 0 < ps) by (apply Z.pow_pos_nonneg; lia).
  (* the distance in the fine scale *)
  assert (Hfine : 2 * Z.abs (R0 * x - m') ≤ x + 2 * Z.pos n) by lia.
  assert (Htransfer : Z.abs (R0 * c - Z.pos mx * a) * y = Z.abs (R0 * x - m') * z).
  { assert (Heq : (R0 * c - Z.pos mx * a) * y = (R0 * x - m') * z).
    { unfold m'.
      replace ((R0 * c - Z.pos mx * a) * y) with (R0 * (c * y) - Z.pos mx * (a * y)) by ring.
      rewrite <- Hshc, <- Hsa. ring. }
    rewrite <- (Z.abs_eq y) at 1 by lia. rewrite <- (Z.abs_eq z) at 1 by lia.
    rewrite <- !Z.abs_mul. by rewrite Heq. }
  split.
  - intros Hnormal.
    assert (Hdd53 : dd = 53).
    { apply (digits2_pos_unique mx 53). change (53 - 1) with 52. unfold dd in *.
      split; [lia |]. apply Z.lt_le_trans with (2 ^ Z.pos (digits2_pos mx)); [lia |].
      apply Z.pow_le_mono_r; lia. }
    assert (HT52 : T ≤ 52) by (unfold T in *; lia).
    assert (Hbig : 2 ^ (sh + 52) ≤ P).
    { destruct Hbranch as [HshT'|]; [| done].
      assert (Hsh : sh = 52) by lia. rewrite Hsh. change (52 + 52) with 104. lia. }
    assert (Hx53 : x * 2 ^ 52 ≤ P).
    { unfold x. rewrite <- Z.pow_add_r by lia. done. }
    assert (Hrel : 2 ^ 51 * (x + 2 * Z.pos n) ≤ 2 * m').
    { by apply (relative_bound x (Z.pos n) P m'). }
    apply (mul_le_cancel _ _ (y * 2)); [lia |].
    replace (2 ^ 51 * Z.abs (R0 * c - Z.pos mx * a) * (y * 2))
      with (2 ^ 51 * (2 * (Z.abs (R0 * c - Z.pos mx * a) * y))) by ring.
    rewrite Htransfer.
    replace (Z.pos mx * a * (y * 2)) with (2 * m' * z).
    2:{ unfold m'. replace (Z.pos mx * a * (y * 2)) with (2 * Z.pos mx * (a * y)) by ring.
        rewrite <- Hsa. ring. }
    by apply (scaled_bound _ x (Z.pos n)).
  - intros Hsub.
    assert (Hdd52 : dd ≤ 52).
    { destruct (Z.le_gt_cases dd 52) as [|Hgt]; [done |].
      assert (2 ^ 52 ≤ 2 ^ (dd - 1)) by (apply Z.pow_le_mono_r; lia). unfold dd in *. lia. }
    assert (Hex : ex = -1074) by lia.
    assert (HsTeq : s = T) by lia.
    assert (Hs53 : 53 ≤ s) by lia.
    assert (Hshs : sh = s).
    { destruct Hbranch as [->|Hbig]; [lia |].
      assert (sh + 52 < 106).
      { destruct (Z.le_gt_cases 106 (sh + 52)) as [Hge|]; [| done].
        assert (2 ^ 106 ≤ 2 ^ (sh + 52)) by (apply Z.pow_le_mono_r; lia).
        lia. }
      lia. }
    assert (Ha1 : a = 1) by (unfold a; rewrite Hex; reflexivity).
    assert (Hc1 : c = 1) by (unfold c; rewrite Hshs, HsTeq, Z.sub_diag; reflexivity).
    rewrite Ha1, Hc1, !Z.mul_1_r.
    assert (Hx53 : 2 ^ 53 ≤ x) by (unfold x; apply Z.pow_le_mono_r; lia).
    assert (Hxps : x = ps) by (unfold x, ps; by rewrite Hshs).
    unfold m' in Hfine. rewrite <- Hxps in Hfine.
    assert (Hlt : 2 * (Z.abs (R0 - Z.pos mx) * x) < 4 * x).
    { replace (Z.abs (R0 - Z.pos mx) * x) with (Z.abs (R0 * x - Z.pos mx * x)).
      - lia.
      - rewrite <- (Z.abs_eq x) at 3 by lia. rewrite <- Z.abs_mul. f_equal. ring. }
    by apply (below_two _ x).
Qed.

(** The square of the square root of a finite double that is not negative
    equals the double within the tolerance. *)
Lemma sqrt_squared_within_tolerance (d : float) :
  finite_not_negative d = true →
  within_tolerance d (PrimFloat.sqrt d * PrimFloat.sqrt d) = true.
Proof.
  unfold finite_not_negative, within_tolerance, units.
  rewrite FloatAxioms.mul_spec, FloatAxioms.sqrt_spec.
  pose proof (Prim2SF_valid d) as Hvalid.
  destruct (Prim2SF d) as [s| | |s mx ex]; try discriminate.
  - intros _. destruct s; reflexivity.
  - destruct s; [discriminate |]. intros _.
    simpl in Hvalid.
    destruct (sqrt_squared_finite mx ex Hvalid) as (R & e_f & Hrun & Hnormal & Hsub).
    unfold SF64mul, SF64sqrt. rewrite Hrun.
    apply Z.leb_le.
    assert (Ha : 0 < 2 ^ (ex + 1074)).
    { apply Z.pow_pos_nonneg; [lia |]. destruct (bounded_spec mx ex Hvalid). lia. }
    rewrite (Z.abs_eq (Z.pos mx * 2 ^ (ex + 1074))) by lia.
    destruct (Z.le_gt_cases (2 ^ 52) (Z.pos mx)) as [Hn|Hs].
    + specialize (Hnormal Hn).
      apply Z.le_trans with (Z.pos mx * 2 ^ (ex + 1074) / 2 ^ 51); [| lia].
      apply Z.div_le_lower_bound; lia.
    + specialize (Hsub Hs). lia.
Qed.

(** The doubles that [Prim2SF] maps to the NaN are the NaNs. *)
Lemma Prim2SF_nan (x : float) : Prim2SF x = S754_nan ↔ PrimFloat.is_nan x = true.
Proof.
  unfold Prim2SF. destruct (PrimFloat.is_nan x); [done |].
  destruct (PrimFloat.is_zero x); [done |]. destruct (PrimFloat.is_infinity x); [done |].
  destruct (Z.frexp x) as [r exp].
  destruct (shr_fexp prec emax (to_Z (normfr_mantissa r)) (exp - prec) loc_Exact)
    as [mrs e'].
  destruct (shr_m mrs); done.
Qed.

(** The square of the square root of +infinity is +infinity; that of a
    NaN, of a negative double and of -infinity is a NaN. *)
Lemma sqrt_squared_not_finite (d : float) :
  (Prim2SF d = S754_infinity false → (PrimFloat.sqrt d * PrimFloat.sqrt d)%float = d) ∧
  (finite_not_negative d = false → Prim2SF d ≠ S754_infinity false →
   PrimFloat.is_nan (PrimFloat.sqrt d * PrimFloat.sqrt d) = true).
Proof.
  split.
  - intros Hd. apply Prim2SF_inj. by rewrite FloatAxioms.mul_spec, FloatAxioms.sqrt_spec, Hd.
  - intros Hclass Hinf. apply Prim2SF_nan. rewrite FloatAxioms.mul_spec, FloatAxioms.sqrt_spec.
    unfold finite_not_negative in Hclass.
    destruct (Prim2SF d) as [s|s| |s mx ex]; try done.
    + destruct s; done.
    + destruct s; done.
Qed.

End FloatFacts.

(** ** [DoubleMultiVector]: [dot] and [norm] *)

Module DotFacts.
Import Oomph OomphFacts DoubleMultiVector HeapFacts FloatFacts.

Lemma inner_product_seq_S (f g : nat → float) (i : nat) :
  inner_product (f <$> seq 0 (S i)) (g <$> seq 0 (S i))
  = (inner_product (f <$> seq 0 i) (g <$> seq 0 i) + f i * g i)%float.
Proof.
  unfold inner_product. rewrite seq_S, !fmap_app.
  rewrite zip_with_app by (by rewrite !length_fmap).
  by rewrite foldl_app.
Qed.

Section WithMPI.

Variable allreduce_sum : list float → list float.
Variable distribution_to_string : LinearAlgebraDistribution → string.

Lemma length_receive count received recvbuf :
  count = length recvbuf → length (receive count received recvbuf) = length recvbuf.
Proof.
  intros ->. unfold receive.
  rewrite length_app, length_drop, length_take. lia.
Qed.

Lemma length_reduced cfg this n :
  length n = Nvector this → length (reduced allreduce_sum cfg this n) = Nvector this.
Proof.
  intros Hn. unfold reduced. destruct (spans_processes cfg this); [| done].
  rewrite length_receive; done.
Qed.

Lemma gather_spec cfg this n w :
  gather allreduce_sum cfg this (Z.of_nat (Nvector this)) n w
  = Ok (reduced allreduce_sum cfg this n) (gathered cfg this n w).
Proof.
  unfold gather, reduced, gathered, spans_processes.
  destruct (OOMPH_HAS_MPI cfg); simpl.
  - destruct (distributed this && bool_decide (1 < nproc this)); simpl.
    + unfold mbind, M_bind, bind, MPI_Allreduce, ret. by rewrite Nat2Z.id.
    + unfold mbind, M_bind, bind, ret. rewrite app_nil_r. by destruct w.
  - unfold ret. rewrite app_nil_r. by destruct w.
Qed.

(** The inner loop of [dot]: the sum over the local rows. *)
Lemma dot_inner_loop (this vec : DoubleMultiVector) v p w :
  stored (heap w) this → v < Nvector this →
  (∀ i, i < nrow_local this →
     slot (heap w) (cell_of p i) = Some (Some (entry_value (heap w) vec v i))) →
  for_loop (nrow_local this) (λ i n_v,
      x ← (p ← Values_at this v; load p i);
      y ← load p i;
      ret (n_v + x * y)%float) 0%float w
  = Ok (inner_product ((λ i, entry_value (heap w) this v i) <$> seq 0 (nrow_local this))
                      ((λ i, entry_value (heap w) vec v i) <$> seq 0 (nrow_local this))) w.
Proof.
  intros Hthis Hv Hvec.
  destruct (for_loop_invariant
    (λ i n_v w', w' = w ∧
       n_v = inner_product ((λ i, entry_value (heap w) this v i) <$> seq 0 i)
                           ((λ i, entry_value (heap w) vec v i) <$> seq 0 i))
    (λ i n_v, x ← (p ← Values_at this v; load p i);
              y ← load p i;
              ret (n_v + x * y)%float)
    (nrow_local this) 0%float w) as (n_v & w' & Hrun & -> & ->); [done | | done].
  intros i n_v w0 Hi [-> ->].
  destruct (read_stored (heap w) this v i Hthis Hv Hi) as (q & Hq & _ & Hslot).
  eexists _, _. split.
  - rewrite (mbind_Ok _ _ w (entry_value (heap w) this v i) w); last first.
    { rewrite (mbind_Ok _ _ _ _ _ (Values_at_Ok _ _ _ _ Hq)). by apply load_Ok. }
    rewrite (mbind_Ok _ _ _ _ _ (load_Ok _ _ _ _ (Hvec i Hi))). reflexivity.
  - split; [done |]. by rewrite inner_product_seq_S.
Qed.

(** The inner loop of [norm] reads [Values[v][i]] twice. *)
Lemma norm_inner_loop (this : DoubleMultiVector) v w :
  stored (heap w) this → v < Nvector this →
  for_loop (nrow_local this) (λ i n_v,
      x ← (p ← Values_at this v; load p i);
      y ← (p ← Values_at this v; load p i);
      ret (n_v + x * y)%float) 0%float w
  = Ok (inner_product (column (heap w) this v) (column (heap w) this v)) w.
Proof.
  intros Hthis Hv.
  destruct (for_loop_invariant
    (λ i n_v w', w' = w ∧
       n_v = inner_product ((λ i, entry_value (heap w) this v i) <$> seq 0 i)
                           ((λ i, entry_value (heap w) this v i) <$> seq 0 i))
    (λ i n_v, x ← (p ← Values_at this v; load p i);
              y ← (p ← Values_at this v; load p i);
              ret (n_v + x * y)%float)
    (nrow_local this) 0%float w) as (n_v & w' & Hrun & -> & ->); [done | | done].
  intros i n_v w0 Hi [-> ->].
  destruct (read_stored (heap w) this v i Hthis Hv Hi) as (q & Hq & _ & Hslot).
  assert (Hread : (p ← Values_at this v; load p i) w
                  = Ok (entry_value (heap w) this v i) w).
  { rewrite (mbind_Ok _ _ _ _ _ (Values_at_Ok _ _ _ _ Hq)). by apply load_Ok. }
  eexists _, _. split.
  - rewrite (mbind_Ok _ _ _ _ _ Hread). rewrite (mbind_Ok _ _ _ _ _ Hread). reflexivity.
  - split; [done |]. by rewrite inner_product_seq_S.
Qed.

(** The outer loop of [dot]. *)
Lemma dot_outer_loop (this vec : DoubleMultiVector) w :
  Distribution_pt this = Distribution_pt vec →
  stored (heap w) this → stored (heap w) vec → Nvector this ≤ Nvector vec →
  for_loop (Nvector this) (λ v n,
      vec_values_pt ← values vec v;
      n_v ← for_loop (nrow_local this) (λ i n_v,
        x ← (p ← Values_at this v; load p i);
        y ← load vec_values_pt i;
        ret (n_v + x * y)%float) 0%float;
      ret (n ++ [n_v])) [] w
  = Ok (local_inner_products (heap w) this vec) w.
Proof.
  intros Hsame Hthis Hvec Hle.
  assert (Hnrl : nrow_local vec = nrow_local this) by (unfold nrow_local; by rewrite Hsame).
  destruct (for_loop_invariant
    (λ v n w', w' = w ∧
       n = (λ v, inner_product (column (heap w) this v) (column (heap w) vec v))
             <$> seq 0 v)
    (λ v n,
      vec_values_pt ← values vec v;
      n_v ← for_loop (nrow_local this) (λ i n_v,
        x ← (p ← Values_at this v; load p i);
        y ← load vec_values_pt i;
        ret (n_v + x * y)%float) 0%float;
      ret (n ++ [n_v]))
    (Nvector this) [] w) as (n & w' & Hrun & -> & ->); [done | | done].
  intros v n w0 Hv [-> ->].
  destruct Hvec as [Hpointers Hvalues].
  destruct (Hpointers v ltac:(lia)) as [p Hp].
  eexists _, _. split.
  - unfold values. rewrite (mbind_Ok _ _ _ _ _ (Values_at_Ok _ _ _ _ Hp)).
    erewrite mbind_Ok; last first.
    { apply (dot_inner_loop this vec v p w Hthis Hv). intros i Hi.
      destruct (read_stored (heap w) vec v i (conj Hpointers Hvalues)
                  ltac:(lia) ltac:(lia)) as (q & Hq & _ & Hslot).
      rewrite Hp in Hq. by injection Hq as <-. }
    reflexivity.
  - split; [done |]. rewrite seq_S, fmap_app. simpl.
    unfold column. by rewrite Hnrl.
Qed.

(** The outer loop of [norm]. *)
Lemma norm_outer_loop (this : DoubleMultiVector) w :
  stored (heap w) this →
  for_loop (Nvector this) (λ v n,
      n_v ← for_loop (nrow_local this) (λ i n_v,
        x ← (p ← Values_at this v; load p i);
        y ← (p ← Values_at this v; load p i);
        ret (n_v + x * y)%float) 0%float;
      ret (n ++ [n_v])) [] w
  = Ok (local_inner_products (heap w) this this) w.
Proof.
  intros Hthis.
  destruct (for_loop_invariant
    (λ v n w', w' = w ∧
       n = (λ v, inner_product (column (heap w) this v) (column (heap w) this v))
             <$> seq 0 v)
    (λ v n,
      n_v ← for_loop (nrow_local this) (λ i n_v,
        x ← (p ← Values_at this v; load p i);
        y ← (p ← Values_at this v; load p i);
        ret (n_v + x * y)%float) 0%float;
      ret (n ++ [n_v]))
    (Nvector this) [] w) as (n & w' & Hrun & -> & ->); [done | | done].
  intros v n w0 Hv [-> ->].
  eexists _, _. split.
  - rewrite (mbind_Ok _ _ _ _ _ (norm_inner_loop this v w Hthis Hv)). reflexivity.
  - split; [done |]. by rewrite seq_S, fmap_app.
Qed.

(** [dot] on operands that pass the checks of a [PARANOID] build. *)
Lemma dot_spec cfg (this vec : DoubleMultiVector) w :
  Built this = true → Built vec = true →
  Distribution_pt this = Distribution_pt vec →
  stored (heap w) this → stored (heap w) vec →
  Nvector this ≤ Nvector vec →
  (Z.of_nat (Nvector this) < 2147483648)%Z →
  dot allreduce_sum distribution_to_string cfg this vec w
  = Ok (reduced allreduce_sum cfg this (local_inner_products (heap w) this vec))
       (gathered cfg this (local_inner_products (heap w) this vec) w).
Proof.
  intros Hb Hbv Hsame Hthis Hvec Hle Hsmall.
  unfold dot, built, nvector. rewrite Hb, Hbv. simpl.
  rewrite bool_decide_eq_false_2 by (by intros []).
  rewrite int_of_unsigned_small by done.
  assert (Hchecks : (if PARANOID cfg then ret tt else ret tt) w = Ok tt w)
    by (by destruct (PARANOID cfg)).
  rewrite (mbind_Ok _ _ _ _ _ Hchecks).
  destruct (Z.ltb_spec (Z.of_nat (Nvector this)) 0) as [Hneg|_]; [lia |].
  rewrite Nat2Z.id.
  rewrite (mbind_Ok _ _ _ _ _ (dot_outer_loop this vec w Hsame Hthis Hvec Hle)).
  rewrite (mbind_Ok _ _ _ _ _ (gather_spec cfg this _ w)). reflexivity.
Qed.

(** [norm] on a built operand. *)
Lemma norm_spec cfg (this : DoubleMultiVector) w :
  Built this = true → stored (heap w) this →
  (Z.of_nat (Nvector this) < 2147483648)%Z →
  norm allreduce_sum cfg this w
  = Ok (PrimFloat.sqrt <$> reduced allreduce_sum cfg this (local_inner_products (heap w) this this))
       (gathered cfg this (local_inner_products (heap w) this this) w).
Proof.
  intros Hb Hthis Hsmall.
  unfold norm, built, nvector. rewrite Hb. simpl.
  rewrite int_of_unsigned_small by done.
  assert (Hchecks : (if PARANOID cfg then ret tt else ret tt) w = Ok tt w)
    by (by destruct (PARANOID cfg)).
  rewrite (mbind_Ok _ _ _ _ _ Hchecks).
  destruct (Z.ltb_spec (Z.of_nat (Nvector this)) 0) as [Hneg|_]; [lia |].
  rewrite Nat2Z.id.
  rewrite (mbind_Ok _ _ _ _ _ (norm_outer_loop this w Hthis)).
  rewrite (mbind_Ok _ _ _ _ _ (gather_spec cfg this _ w)). reflexivity.
Qed.

(** C2: in a [PARANOID] build [dot] throws when either operand is not
    built or the distributions differ.  For built operands with the same
    distribution and their storage in place ([vec] holding a vector for each
    of the k vectors of [this]), [dot] computes the k local inner products,
    each against the corresponding vector of [vec]; when the vector is
    distributed over more than one process (of an MPI build) it makes
    exactly one call of [MPI_Allreduce], which sends all k sums at once, and
    returns what that call delivers; otherwise it makes no MPI call and
    returns the local sums.  The heap is untouched. *)
Theorem dot_local_products_one_allreduce (cfg : build_config)
    (this vec : DoubleMultiVector) (w : world) :
  (PARANOID cfg = true →
   Built this = false ∨ Built vec = false ∨ Distribution_pt this ≠ Distribution_pt vec →
   ∃ e, dot allreduce_sum distribution_to_string cfg this vec w = Throw e w ∧
        error_function e = "DoubleMultiVector::dot") ∧
  (Built this = true → Built vec = true →
   Distribution_pt this = Distribution_pt vec →
   stored (heap w) this → stored (heap w) vec →
   Nvector this ≤ Nvector vec →
   (Z.of_nat (Nvector this) < 2147483648)%Z →
   ∃ result w',
     dot allreduce_sum distribution_to_string cfg this vec w = Ok result w' ∧
     heap w' = heap w ∧
     length result = Nvector this ∧
     (∀ v, v < Nvector this →
        local_inner_products (heap w) this vec !! v
        = Some (inner_product (column (heap w) this v) (column (heap w) vec v))) ∧
     (spans_processes cfg this = true →
        mpi_calls w' = mpi_calls w ++
          [Allreduce (local_inner_products (heap w) this vec) (Z.of_nat (Nvector this))] ∧
        result = receive (Nvector this)
                   (allreduce_sum (local_inner_products (heap w) this vec))
                   (local_inner_products (heap w) this vec)) ∧
     (spans_processes cfg this = false →
        mpi_calls w' = mpi_calls w ∧
        result = local_inner_products (heap w) this vec)).
Proof.
  split.
  - intros Hparanoid Hbad. unfold dot, built. rewrite Hparanoid.
    destruct (Built this); simpl; [| by eexists].
    destruct (Built vec); simpl; [| by eexists].
    destruct Hbad as [Hbad | [Hbad | Hbad]]; [done | done |].
    rewrite bool_decide_eq_true_2 by done. by eexists.
  - intros Hb Hbv Hsame Hthis Hvec Hle Hsmall.
    assert (Hlen : length (local_inner_products (heap w) this vec) = Nvector this).
    { unfold local_inner_products. by rewrite length_fmap, length_seq. }
    eexists _, _. split; [by apply dot_spec |]. split; [done |].
    split; [by apply length_reduced |]. split; [| split].
    + intros v Hv. unfold local_inner_products.
      rewrite list_lookup_fmap, lookup_seq_lt by done. done.
    + intros Hspans. unfold gathered, reduced. rewrite Hspans. done.
    + intros Hspans. unfold gathered, reduced. rewrite Hspans. simpl.
      by rewrite app_nil_r.
Qed.

(** C7: for a built object with its storage in place, [norm] follows the
    pattern of [dot] of the object with itself: the same local sums, one for
    each of the [Nvector] vectors, and, when the vector is distributed over
    more than one process (of an MPI build), the same single call of
    [MPI_Allreduce] that sends all of them; otherwise no MPI call.  What
    [norm] returns is, entry by entry, the square root of what [dot] returns:
    norm(a)[v] = sqrt(dot(a,a)[v]).  The double product norm(a)[v]^2 then
    equals dot(a,a)[v] within the tolerance of double arithmetic (a relative
    error of at most 2^-51, one unit of 2^-1074 for a subnormal value)
    whenever dot(a,a)[v] is finite and not negative, and both are +infinity
    when dot(a,a)[v] is +infinity. *)
Theorem norm_is_sqrt_of_self_dot (cfg : build_config)
    (this : DoubleMultiVector) (w : world) :
  Built this = true → stored (heap w) this →
  (Z.of_nat (Nvector this) < 2147483648)%Z →
  ∃ products norms w',
    dot allreduce_sum distribution_to_string cfg this this w = Ok products w' ∧
    norm allreduce_sum cfg this w = Ok norms w' ∧
    heap w' = heap w ∧
    (spans_processes cfg this = true →
       mpi_calls w' = mpi_calls w ++
         [Allreduce (local_inner_products (heap w) this this) (Z.of_nat (Nvector this))] ∧
       products = receive (Nvector this)
                    (allreduce_sum (local_inner_products (heap w) this this))
                    (local_inner_products (heap w) this this)) ∧
    (spans_processes cfg this = false →
       mpi_calls w' = mpi_calls w ∧
       products = local_inner_products (heap w) this this) ∧
    norms = PrimFloat.sqrt <$> products ∧
    length products = Nvector this ∧
    (∀ v, v < Nvector this →
       ∃ d, products !! v = Some d ∧
            norms !! v = Some (PrimFloat.sqrt d) ∧
            (finite_not_negative d = true →
             within_tolerance d (PrimFloat.sqrt d * PrimFloat.sqrt d) = true) ∧
            (Prim2SF d = S754_infinity false →
             (PrimFloat.sqrt d * PrimFloat.sqrt d)%float = d)).
Proof.
  intros Hb Hthis Hsmall.
  assert (Hlen : length (reduced allreduce_sum cfg this (local_inner_products (heap w) this this))
                 = Nvector this).
  { apply length_reduced. unfold local_inner_products.
    by rewrite length_fmap, length_seq. }
  eexists _, _, _. split; [by apply dot_spec |]. split; [by apply norm_spec |].
  split; [done |]. split; [| split; [| split; [done |]; split; [done |]]].
  - intros Hspans. unfold gathered, reduced. rewrite Hspans. done.
  - intros Hspans. unfold gathered, reduced. rewrite Hspans. simpl.
    by rewrite app_nil_r.
  - intros v Hv.
    destruct (lookup_lt_is_Some_2 (reduced allreduce_sum cfg this (local_inner_products (heap w) this this)) v)
      as [d Hd]; [lia |].
    exists d. split; [done |]. split; [by rewrite list_lookup_fmap, Hd |].
    split; [apply sqrt_squared_within_tolerance |].
    by destruct (sqrt_squared_not_finite d).
Qed.

End WithMPI.
End DotFacts.

Module DotExamples.
Import Oomph OomphFacts DoubleMultiVector HeapFacts DotFacts PlusMinusFacts.

Lemma stored_vector_on d blk x y :
  dist_nrow_local d = 1 → blk < 2 → stored (heap (world_of x y)) (vector_on d blk).
Proof.
  intros Hd Hblk. split.
  - intros v Hv. simpl in Hv. destruct v; [| lia]. by eexists.
  - intros v i Hv Hi. simpl in Hv. unfold nrow_local in Hi. simpl in Hi.
    destruct v; [| lia]. destruct i; [| lia].
    destruct blk as [|[|]]; [by eexists | by eexists | lia].
Defined.

(** On two processes that hold 3.0 and 4.0 each, [dot] sends the one local
    product 12.0 in one all-reduce and returns the sum 24.0. *)
Lemma dot_local_products_one_allreduce_witness :
  ∃ result w',
    dot every_process_alike print_nrow checked_build
      (vector_on two_processes 0) (vector_on two_processes 1) (world_of 3 4)
    = Ok result w' ∧
    result = [24%float] ∧
    mpi_calls w' = [Allreduce [12%float] 1].
Proof.
  destruct (dot_local_products_one_allreduce every_process_alike print_nrow
              checked_build (vector_on two_processes 0) (vector_on two_processes 1)
              (world_of 3 4)) as [_ Hdot].
  destruct Hdot as (result & w' & Hrun & _ & _ & _ & Hspans & _).
  - reflexivity.
  - reflexivity.
  - reflexivity.
  - apply stored_vector_on; [reflexivity | lia].
  - apply stored_vector_on; [reflexivity | lia].
  - simpl. lia.
  - simpl. lia.
  - destruct Hspans as [Hcalls Hresult]; [reflexivity |].
    exists result, w'. split; [exact Hrun |]. split.
    + rewrite Hresult. vm_compute. reflexivity.
    + rewrite Hcalls. vm_compute. reflexivity.
Defined.

(** Two built objects with the same distribution, the first of two vectors
    and the second of one, each with its storage in place: for the second
    vector of the first, [dot] reads [vec.values(1)], past the one pointer
    that [vec] holds, in a build with every check as in a build with none. *)
Lemma dot_reads_past_fewer_vectors :
  Built (two_vectors_in_block 1) = true ∧ Built (vector_in_block 0) = true ∧
  Distribution_pt (two_vectors_in_block 1) = Distribution_pt (vector_in_block 0) ∧
  Nvector (two_vectors_in_block 1) = 2 ∧ Nvector (vector_in_block 0) = 1 ∧
  value_at (heap (world_of_three 1 2 3)) (two_vectors_in_block 1) 0 0 = Some 2%float ∧
  value_at (heap (world_of_three 1 2 3)) (two_vectors_in_block 1) 1 0 = Some 3%float ∧
  value_at (heap (world_of_three 1 2 3)) (vector_in_block 0) 0 0 = Some 1%float ∧
  dot every_process_alike print_nrow checked_build
    (two_vectors_in_block 1) (vector_in_block 0) (world_of_three 1 2 3) = Undefined ∧
  dot every_process_alike print_nrow (BuildConfig false false false)
    (two_vectors_in_block 1) (vector_in_block 0) (world_of_three 1 2 3) = Undefined ∧
  ¬ ∃ result w',
      dot every_process_alike print_nrow checked_build
        (two_vectors_in_block 1) (vector_in_block 0) (world_of_three 1 2 3)
      = Ok result w'.
Proof.
  repeat split; try (vm_compute; reflexivity).
  intros (result & w' & H). vm_compute in H. discriminate H.
Qed.

Lemma stored_two_rows x y : stored (heap (world_of_rows x y)) (vector_on two_rows 0).
Proof.
  split.
  - intros v Hv. simpl in Hv. destruct v; [| lia]. by eexists.
  - intros v i Hv Hi. simpl in Hv. unfold nrow_local in Hi. simpl in Hi.
    destruct v; [| lia]. destruct i as [|[|]]; [by eexists | by eexists | lia].
Defined.

(** On two processes that hold 3.0 each: [dot] of the vector with itself
    and [norm] send the one local sum 9.0 in one all-reduce; the product is
    18.0, the norm is its square root, and the square of the norm is 18.0
    within the tolerance. *)
Lemma norm_is_sqrt_of_self_dot_witness :
  ∃ w',
    dot every_process_alike print_nrow checked_build
      (vector_on two_processes 0) (vector_on two_processes 0) (world_of 3 4)
    = Ok [18%float] w' ∧
    norm every_process_alike checked_build (vector_on two_processes 0) (world_of 3 4)
    = Ok [PrimFloat.sqrt 18] w' ∧
    mpi_calls w' = [Allreduce [9%float] 1] ∧
    within_tolerance 18 (PrimFloat.sqrt 18 * PrimFloat.sqrt 18) = true.
Proof.
  destruct (norm_is_sqrt_of_self_dot every_process_alike print_nrow checked_build
              (vector_on two_processes 0) (world_of 3 4))
    as (products & norms & w' & Hdot & Hnorm & _ & Hspans & _ & Hnorms & _ & Hclose).
  - reflexivity.
  - apply stored_vector_on; [reflexivity | lia].
  - simpl. lia.
  - destruct Hspans as [Hcalls Hproducts]; [reflexivity |].
    assert (Hvalue : products = [18%float]).
    { rewrite Hproducts. vm_compute. reflexivity. }
    subst products. exists w'. split; [exact Hdot |].
    split; [rewrite Hnorm, Hnorms; reflexivity |].
    split; [rewrite Hcalls; vm_compute; reflexivity |].
    destruct (Hclose 0) as (d & Hd & _ & Htolerance & _); [simpl; lia |].
    injection Hd as <-. apply Htolerance. vm_compute. reflexivity.
Defined.

(** A vector whose entry is a NaN: its product with itself and its norm
    are NaNs, so the square of the norm does not compare equal to the
    product, is within no tolerance of it, and their difference is below no
    bound. *)
Lemma norm_squared_of_nan :
  Built (vector_in_block 0) = true ∧
  value_at (heap (world_of not_a_number 8)) (vector_in_block 0) 0 0 = Some not_a_number ∧
  dot every_process_alike print_nrow checked_build
    (vector_in_block 0) (vector_in_block 0) (world_of not_a_number 8)
  = Ok [not_a_number] (world_of not_a_number 8) ∧
  norm every_process_alike checked_build (vector_in_block 0) (world_of not_a_number 8)
  = Ok [PrimFloat.sqrt not_a_number] (world_of not_a_number 8) ∧
  PrimFloat.eqb (PrimFloat.sqrt not_a_number * PrimFloat.sqrt not_a_number) not_a_number
  = false ∧
  within_tolerance not_a_number (PrimFloat.sqrt not_a_number * PrimFloat.sqrt not_a_number)
  = false ∧
  ∀ tolerance : float,
    PrimFloat.leb
      (PrimFloat.abs (PrimFloat.sqrt not_a_number * PrimFloat.sqrt not_a_number
                      - not_a_number))
      tolerance = false.
Proof.
  repeat split; try (vm_compute; reflexivity).
  intros tolerance. rewrite FloatAxioms.leb_spec.
  replace (Prim2SF (PrimFloat.abs (PrimFloat.sqrt not_a_number * PrimFloat.sqrt not_a_number
                                   - not_a_number)))
    with S754_nan by (vm_compute; reflexivity).
  reflexivity.
Qed.

(** The vector (1, 1): the square of its norm is not its product with
    itself, the two differ in the last place. *)
Lemma norm_squared_is_rounded :
  norm every_process_alike checked_build (vector_on two_rows 0) (world_of_rows 1 1)
  = Ok [PrimFloat.sqrt 2] (world_of_rows 1 1) ∧
  dot every_process_alike print_nrow checked_build
    (vector_on two_rows 0) (vector_on two_rows 0) (world_of_rows 1 1)
  = Ok [2%float] (world_of_rows 1 1) ∧
  PrimFloat.eqb (PrimFloat.sqrt 2 * PrimFloat.sqrt 2) 2 = false ∧
  PrimFloat.eqb (PrimFloat.sqrt 2 * PrimFloat.sqrt 2) (PrimFloat.next_up 2) = true ∧
  within_tolerance 2 (PrimFloat.sqrt 2 * PrimFloat.sqrt 2) = true.
Proof. repeat split; vm_compute; reflexivity. Qed.

End DotExamples.

Module CallFacts.
Import Oomph OomphFacts DoubleMultiVector HeapFacts.

(** For an index that is not negative, [p[i]] is the double [i] places
    after [p]. *)
Lemma reference_at_of_nat (p : pointer) (i : nat) :
  reference_at p (Z.of_nat i) = reference p i.
Proof.
  unfold reference_at, reference, cell_of. cbn [block offset].
  destruct (Z.ltb_spec (Z.of_nat (offset p) + Z.of_nat i) 0) as [Hneg|_]; [lia |].
  replace (Z.to_nat (Z.of_nat (offset p) + Z.of_nat i)) with (offset p + i) by lia.
  reflexivity.
Qed.

(** Stepping back from [p] stays in the block of [p] as long as the start
    of the block is not passed. *)
Lemma reference_at_back (p : pointer) (i : Z) (k : nat) w :
  (Z.of_nat (offset p) + i = Z.of_nat k)%Z →
  reference_at p i w = reference (Ptr (block p) 0) k w.
Proof.
  intros Hk. unfold reference_at. rewrite Hk.
  destruct (Z.ltb_spec (Z.of_nat k) 0) as [Hneg|_]; [lia |].
  by rewrite Nat2Z.id.
Qed.

(** Before the start of the block there is no double. *)
Lemma reference_at_before (p : pointer) (i : Z) w :
  (Z.of_nat (offset p) + i < 0)%Z → reference_at p i w = Undefined.
Proof.
  intros Hneg. unfold reference_at.
  by destruct (Z.ltb_spec (Z.of_nat (offset p) + i) 0) as [_|Hpos]; [| lia].
Qed.

(** In a [RANGE_CHECKING] build the access throws exactly when one of the
    two comparisons of the source holds: [v > int(Nvector)] or
    [i >= int(nrow_local())]. *)
Lemma call_throws_iff (cfg : build_config) (this : DoubleMultiVector) (v i : Z) w :
  RANGE_CHECKING cfg = true →
  (∃ e w', call cfg this v i w = Throw e w') ↔
  (v > int_of_unsigned (Nvector this) ∨ i >= int_of_unsigned (nrow_local this))%Z.
Proof.
  intros Hrc. unfold call. rewrite Hrc.
  destruct (Z.gtb_spec v (int_of_unsigned (Nvector this))) as [Hv|Hv];
    destruct (Z.geb_spec i (int_of_unsigned (nrow_local this))) as [Hi|Hi];
    cbv zeta beta iota.
  - split; [intros _; lia | intros _; by eexists _, _].
  - split; [intros _; lia | intros _; by eexists _, _].
  - split; [intros _; lia | intros _; by eexists _, _].
  - split; [| lia]. intros (e & w' & Hthrow). exfalso.
    unfold mbind, M_bind, bind, ret in Hthrow.
    destruct (v <? 0)%Z; [discriminate |].
    unfold Values_at, mbind, M_bind, bind, from_option, ret, undefined in Hthrow.
    destruct (Values this) as [vals|]; [| discriminate].
    destruct (vals !! Z.to_nat v) as [[p|]|]; try discriminate.
    unfold reference_at, reference, undefined in Hthrow.
    destruct (Z.of_nat (offset p) + i <? 0)%Z; [discriminate |].
    destruct (slot (heap w) _); discriminate.
Qed.

(** With both indices in range and the storage in place the access returns
    the address of [Values[v][i]]. *)
Lemma call_in_range (cfg : build_config) (this : DoubleMultiVector) (v i : nat) w :
  stored (heap w) this →
  v < Nvector this → i < nrow_local this →
  (Z.of_nat (Nvector this) < 2147483648)%Z →
  (Z.of_nat (nrow_local this) < 2147483648)%Z →
  ∃ c, call cfg this (Z.of_nat v) (Z.of_nat i) w = Ok c w ∧
       address this v i = Some c ∧
       slot (heap w) c = Some (Some (entry_value (heap w) this v i)).
Proof.
  intros Hstored Hv Hi HNv Hnrl.
  destruct (read_stored (heap w) this v i Hstored Hv Hi) as (p & Hp & Ha & Hs).
  exists (cell_of p i). split; [| done].
  unfold call. rewrite !int_of_unsigned_small by done.
  destruct (Z.gtb_spec (Z.of_nat v) (Z.of_nat (Nvector this))); [lia |].
  destruct (Z.geb_spec (Z.of_nat i) (Z.of_nat (nrow_local this))); [lia |].
  cbv zeta beta iota.
  assert (Hchecks : (if RANGE_CHECKING cfg then ret tt else ret tt) w = Ok tt w)
    by (by destruct (RANGE_CHECKING cfg)).
  rewrite (mbind_Ok _ _ _ _ _ Hchecks).
  destruct (Z.ltb_spec (Z.of_nat v) 0); [lia |].
  rewrite !Nat2Z.id.
  rewrite (mbind_Ok _ _ _ _ _ (Values_at_Ok _ _ _ _ Hp)).
  rewrite reference_at_of_nat. unfold reference. by rewrite Hs.
Qed.

(** C3: on an object of one vector with one local row, in a
    [RANGE_CHECKING] build.  The vector index 1 = [Nvector] is outside
    0..Nvector-1 and is not refused: the check is [v > int(Nvector)], and the
    access reads [Values[1]], past the array of pointers.  Negative indices
    are not refused either.  The vector index 2 and the row index 1 are
    refused with a message that names the index and the range (0,0), and the
    access (0,0) returns the address of the first double. *)
Theorem call_accepts_vector_index_Nvector :
  call checked_build (vector_in_block 0) 1 0 (world_of 7 8) = Undefined ∧
  call checked_build (vector_in_block 0) (-1) 0 (world_of 7 8) = Undefined ∧
  call checked_build (vector_in_block 0) 0 (-1) (world_of 7 8) = Undefined ∧
  call checked_build (vector_in_block 0) 2 0 (world_of 7 8)
  = Throw (range_error "Range Error: Vector 2is not in the range (0,0)")
          (world_of 7 8) ∧
  call checked_build (vector_in_block 0) 0 1 (world_of 7 8)
  = Throw (range_error "Range Error: 1 is not in the range (0,0)") (world_of 7 8) ∧
  call checked_build (vector_in_block 0) 0 0 (world_of 7 8) = Ok (0, 0) (world_of 7 8).
Proof. repeat split; vm_compute; reflexivity. Qed.

End CallFacts.

(** ** Loops that are left early *)

Module LoopExitFacts.
Import Oomph OomphFacts.

(** A loop whose [k]-th turn is undefined, the turns before it keeping an
    invariant, is undefined. *)
Lemma for_range_undefined {St A} (I : nat → A → St → Prop)
    (body : nat → A → M St A) (k count start : nat) (acc : A) (s : St) :
  k < count →
  I start acc s →
  (∀ i a s0, start ≤ i < start + k → I i a s0 →
     ∃ a' s', body i a s0 = Ok a' s' ∧ I (S i) a' s') →
  (∀ a s0, I (start + k) a s0 → body (start + k) a s0 = Undefined) →
  for_range body start count acc s = Undefined.
Proof.
  revert count start acc s.
  induction k as [|k IH]; intros count start acc s Hk HI Hstep Hlast.
  - destruct count as [|count]; [lia |]. simpl. unfold bind.
    rewrite Nat.add_0_r in Hlast. by rewrite (Hlast acc s HI).
  - destruct count as [|count]; [lia |]. simpl.
    destruct (Hstep start acc s ltac:(lia) HI) as (a' & s' & Hbody & HI').
    rewrite (bind_Ok _ _ _ _ _ Hbody).
    apply (IH count (S start) a' s'); [lia | done | |].
    + intros i a s0 Hi. apply Hstep. lia.
    + intros a s0. replace (S start + k) with (start + S k) by lia. apply Hlast.
Qed.

Lemma for_loop_undefined {St A} (I : nat → A → St → Prop)
    (body : nat → A → M St A) (k n : nat) (acc : A) (s : St) :
  k < n →
  I 0 acc s →
  (∀ i a s0, i < k → I i a s0 → ∃ a' s', body i a s0 = Ok a' s' ∧ I (S i) a' s') →
  (∀ a s0, I k a s0 → body k a s0 = Undefined) →
  for_loop n body acc s = Undefined.
Proof.
  intros Hk HI Hstep Hlast. unfold for_loop.
  apply (for_range_undefined I body k n 0 acc s); [done | done | |].
  - intros i a s0 Hi. apply Hstep. lia.
  - done.
Qed.

(** A loop whose [k]-th turn throws, the turns before it keeping an
    invariant, throws what that turn throws. *)
Lemma for_range_throws {St A} (I : nat → A → St → Prop)
    (Q : OomphLibError → St → Prop)
    (body : nat → A → M St A) (k count start : nat) (acc : A) (s : St) :
  k < count →
  I start acc s →
  (∀ i a s0, start ≤ i < start + k → I i a s0 →
     ∃ a' s', body i a s0 = Ok a' s' ∧ I (S i) a' s') →
  (∀ a s0, I (start + k) a s0 → ∃ e s', body (start + k) a s0 = Throw e s' ∧ Q e s') →
  ∃ e s', for_range body start count acc s = Throw e s' ∧ Q e s'.
Proof.
  revert count start acc s.
  induction k as [|k IH]; intros count start acc s Hk HI Hstep Hlast.
  - destruct count as [|count]; [lia |]. simpl. unfold bind.
    rewrite Nat.add_0_r in Hlast.
    destruct (Hlast acc s HI) as (e & s' & Hbody & HQ).
    exists e, s'. by rewrite Hbody.
  - destruct count as [|count]; [lia |]. simpl.
    destruct (Hstep start acc s ltac:(lia) HI) as (a' & s' & Hbody & HI').
    rewrite (bind_Ok _ _ _ _ _ Hbody).
    apply (IH count (S start) a' s'); [lia | done | |].
    + intros i a s0 Hi. apply Hstep. lia.
    + intros a s0. replace (S start + k) with (start + S k) by lia. apply Hlast.
Qed.

Lemma for_loop_throws {St A} (I : nat → A → St → Prop)
    (Q : OomphLibError → St → Prop)
    (body : nat → A → M St A) (k n : nat) (acc : A) (s : St) :
  k < n →
  I 0 acc s →
  (∀ i a s0, i < k → I i a s0 → ∃ a' s', body i a s0 = Ok a' s' ∧ I (S i) a' s') →
  (∀ a s0, I k a s0 → ∃ e s', body k a s0 = Throw e s' ∧ Q e s') →
  ∃ e s', for_loop n body acc s = Throw e s' ∧ Q e s'.
Proof.
  intros Hk HI Hstep Hlast. unfold for_loop.
  apply (for_range_throws I Q body k n 0 acc s); [done | done | |].
  - intros i a s0 Hi. apply Hstep. lia.
  - done.
Qed.

End LoopExitFacts.

(** ** [DoubleMultiVector]: storage, copies and views *)

Module StorageFacts.
Import Oomph OomphFacts DoubleMultiVector HeapFacts BuildFacts CopyFacts.


(** [build] starts with [clear]: on an object that [clear] turns into
    [this0], it goes on as it would on [this0]. *)
Lemma build_after_clear n_vector dist init (this this0 : DoubleMultiVector) w w0 :
  clear this w = Ok this0 w0 → Values this0 = None →
  build n_vector dist init this w = build n_vector dist init this0 w0.
Proof.
  intros Hclear Hnull. unfold build.
  rewrite (mbind_Ok _ _ _ _ _ Hclear).
  assert (Hclear0 : clear this0 w0 = Ok this0 w0).
  { unfold clear. by rewrite Hnull. }
  by rewrite (mbind_Ok _ _ _ _ _ Hclear0).
Qed.


(** Through a null [Values] the first read is undefined. *)
Lemma setup_doublevector_representation_null (this : DoubleMultiVector) w :
  Values this = None → 0 < Nvector this →
  setup_doublevector_representation this w = Undefined.
Proof.
  intros Hnull Hpos. unfold setup_doublevector_representation, nvector, for_loop.
  destruct (Nvector this) as [|n]; [lia |]. simpl.
  unfold bind, values, Values_at, mbind, M_bind, bind, from_option, undefined.
  by rewrite Hnull.
Qed.







(** X4: [build], and the constructor that calls it, with a distribution
    that is not built.  [build] on an object without storage allocates
    nothing and leaves the object without storage and not built; [Nvector] is
    not touched, the object keeps the count it had.  The constructor sets
    [Nvector] to [n_vector] before it calls [build], and afterwards
    [setup_doublevector_representation()] reads [Values[v]] for each of these
    [n_vector] vectors: with [n_vector = 0] the constructor returns an object
    that is not built, with [n_vector > 0] it reads through the null
    [Values], which is undefined behaviour. *)
Theorem build_unbuilt_distribution (n_vector : nat) (dist : LinearAlgebraDistribution)
    (init : float) (this : DoubleMultiVector) (w : world) :
  dist_built dist = false →
  (Values this = None →
   build n_vector (other_distribution dist) init this w
   = Ok (MkDoubleMultiVector dist None (Nvector this) true false) w) ∧
  DoubleMultiVector_constructor 0 dist init w
    = Ok (MkDoubleMultiVector dist None 0 true false) w ∧
  (0 < n_vector → DoubleMultiVector_constructor n_vector dist init w = Undefined).
Proof.
  intros Hdist.
  assert (Hbuild : ∀ n this0, Values this0 = None →
            build n (other_distribution dist) init this0 w
            = Ok (MkDoubleMultiVector dist None (Nvector this0) true false) w).
  { intros n this0 H0. unfold build, clear. rewrite H0.
    unfold mbind at 1, M_bind at 1, bind at 1, ret at 1. cbn [pointee]. rewrite Hdist.
    unfold ret, with_Built, build_distribution, with_Distribution, with_Internal_values.
    simpl. by rewrite H0. }
  split; [apply Hbuild |]. split.
  - unfold DoubleMultiVector_constructor.
    by rewrite (mbind_Ok _ _ _ _ _
                  (Hbuild 0 (MkDoubleMultiVector unbuilt_distribution None 0 true false)
                     eq_refl)).
  - intros Hpos. unfold DoubleMultiVector_constructor.
    rewrite (mbind_Ok _ _ _ _ _
               (Hbuild n_vector
                  (MkDoubleMultiVector unbuilt_distribution None n_vector true false)
                  eq_refl)).
    unfold mbind, M_bind, bind.
    by rewrite setup_doublevector_representation_null.
Qed.

Lemma build_unbuilt_distribution_witness :
  build 3 (other_distribution unbuilt_distribution) 1 DoubleMultiVector_default
    (World ∅ [])
    = Ok (MkDoubleMultiVector unbuilt_distribution None 0 true false) (World ∅ []) ∧
  DoubleMultiVector_constructor 3 unbuilt_distribution 1 (World ∅ []) = Undefined.
Proof.
  destruct (build_unbuilt_distribution 3 unbuilt_distribution 1
              DoubleMultiVector_default (World ∅ []) eq_refl) as (Hbuild & _ & Hnew).
  split; [apply Hbuild; reflexivity | apply Hnew; lia].
Defined.

(** X5: what the constructor establishes.  For a built distribution the
    constructor [DoubleMultiVector(n_vector, dist_pt, v)] returns a built
    object with [n_vector] vectors and that distribution, which owns one fresh
    block; its storage is in place, no double is addressed twice, and every
    entry holds [v]; the doubles that existed before are unchanged, and no MPI
    call is made. *)
Theorem constructor_fills_storage (n_vector : nat) (dist : LinearAlgebraDistribution)
    (v : float) (w : world) :
  dist_built dist = true →
  (Z.of_nat (dist_nrow_local dist) * Z.of_nat n_vector < 4294967296)%Z →
  ∃ this w',
    DoubleMultiVector_constructor n_vector dist v w = Ok this w' ∧
    Built this = true ∧ Nvector this = n_vector ∧ Distribution_pt this = dist ∧
    Internal_values this = true ∧
    mpi_calls w' = mpi_calls w ∧
    dom (heap w') = {[fresh (dom (heap w))]} ∪ dom (heap w) ∧
    stored (heap w') this ∧ unshared this ∧
    (∀ k i, k < n_vector → i < dist_nrow_local dist →
       value_at (heap w') this k i = Some v) ∧
    (∀ c, is_Some (slot (heap w) c) → slot (heap w') c = slot (heap w) c).
Proof.
  intros Hbuilt Hsmall.
  set (this0 := {| Distribution_pt := unbuilt_distribution; Values := None;
                   Nvector := n_vector; Internal_values := true; Built := false |}).
  destruct (build_establishes_storage n_vector dist v this0 w eq_refl Hbuilt Hsmall)
    as (this & w' & Hrun & Hb & Hn & Hd & Hs & Hu & Hvalue & Hframe).
  pose proof (build_fresh n_vector (other_distribution dist) v this0 w eq_refl Hbuilt Hsmall)
    as Hfresh.
  cbn [pointee] in Hfresh.
  rewrite Hrun in Hfresh. injection Hfresh as -> ->.
  eexists _, _. split.
  - unfold DoubleMultiVector_constructor. fold this0.
    rewrite (mbind_Ok _ _ _ _ _ Hrun).
    rewrite (mbind_Ok _ _ _ _ _ (setup_doublevector_representation_Ok _ _ (proj1 Hs))).
    reflexivity.
  - split; [done |]. split; [done |]. split; [done |]. split; [done |].
    split; [done |]. split; [by simpl; rewrite dom_insert_L |]. done.
Qed.

Lemma constructor_fills_storage_witness :
  ∃ this w',
    DoubleMultiVector_constructor 2 two_rows 7 (World ∅ []) = Ok this w' ∧
    value_at (heap w') this 1 1 = Some 7%float.
Proof.
  destruct (constructor_fills_storage 2 two_rows 7 (World ∅ []))
    as (this & w' & Hrun & _ & _ & _ & _ & _ & _ & _ & _ & Hvalue & _);
    [reflexivity | reflexivity |].
  exists this, w'. split; [exact Hrun |]. apply Hvalue; simpl; lia.
Defined.

End StorageFacts.

Module CopyConstructorFacts.
Import Oomph OomphFacts DoubleMultiVector HeapFacts BuildFacts CopyFacts StorageFacts.

(** The doubles of an object whose storage is in place lie in live blocks,
    so not in the block that the next allocation returns. *)
Lemma stored_not_fresh h (b : DoubleMultiVector) v i c :
  stored h b → v < Nvector b → i < nrow_local b →
  address b v i = Some c → c.1 ≠ fresh (dom h).
Proof.
  intros Hstored Hv Hi Ha Heq.
  destruct (read_stored h b v i Hstored Hv Hi) as (p & Hp & Ha' & Hs).
  rewrite Ha in Ha'. injection Ha' as ->.
  apply (is_fresh (dom h)). rewrite <- Heq. apply slot_Some_block. by rewrite Hs.
Qed.

Lemma address_copy_of b blk v i :
  v < Nvector b → address (copy_of b blk) v i = Some (blk, v * nrow_local b + i).
Proof. intros Hv. unfold address. by rewrite pointer_of_copy_of. Qed.

(** X6: the copy constructor makes a deep copy.  For a built object whose
    storage is in place, the copy is built, has the same number of vectors
    and the same distribution, owns its storage (one fresh block, no double
    addressed twice, none shared with the original) and holds the original's
    values; no double that existed before is changed and no MPI call is made;
    the reads of [setup_doublevector_representation()], with which the
    constructor ends, find every pointer assigned.  The copy of an object
    that is not built is a default-constructed object, and nothing is
    allocated for it. *)
Theorem copy_constructor_deep_copy (b : DoubleMultiVector) (w : world) :
  (Built b = false → copy_constructor b w = Ok DoubleMultiVector_default w) ∧
  (Built b = true →
   dist_built (Distribution_pt b) = true →
   stored (heap w) b →
   (Z.of_nat (nrow_local b) * Z.of_nat (Nvector b) < 4294967296)%Z →
   ∃ c w1,
     copy_constructor b w = Ok c w1 ∧
     Built c = true ∧ Nvector c = Nvector b ∧
     Distribution_pt c = Distribution_pt b ∧ Internal_values c = true ∧
     mpi_calls w1 = mpi_calls w ∧
     stored (heap w1) c ∧ unshared c ∧ apart c b ∧
     (∀ v i, v < Nvector b → i < nrow_local b →
        value_at (heap w1) c v i = value_at (heap w) b v i) ∧
     (∀ v i, v < Nvector b → i < nrow_local b →
        value_at (heap w1) b v i = value_at (heap w) b v i) ∧
     (∀ c0, is_Some (slot (heap w) c0) → slot (heap w1) c0 = slot (heap w) c0) ∧
     setup_doublevector_representation c w1 = Ok tt w1).
Proof.
  split.
  { apply copy_constructor_unbuilt. }
  intros Hbuilt Hdist Hstored Hsmall.
  destruct (copy_constructor_spec b w Hbuilt Hdist Hstored Hsmall)
    as (w1 & Hcopy & Hmpi & Hdom & Hnew & Hframe).
  set (blk := fresh (dom (heap w))) in *.
  assert (Hvalue : ∀ v i, v < Nvector b → i < nrow_local b →
            value_at (heap w1) (copy_of b blk) v i = value_at (heap w) b v i).
  { intros v i Hv Hi.
    rewrite (slot_value_at _ _ _ _ _ _ (pointer_of_copy_of b blk v Hv)
               (Hnew v i Hv Hi)).
    destruct Hstored as [_ Hs]. destruct (Hs v i Hv Hi) as [x Hx].
    unfold entry_value. by rewrite Hx. }
  exists (copy_of b blk), w1.
  split; [done |]. split; [done |]. split; [done |]. split; [done |].
  split; [done |]. split; [done |].
  split; [| split; [| split; [| split; [done | split; [| split]]]]].
  - split.
    + intros v Hv. rewrite pointer_of_copy_of by done. by eexists.
    + intros v i Hv Hi. rewrite Hvalue by done. by apply Hstored.
  - intros v i v' i' Hv Hi Hv' Hi'. rewrite !address_copy_of by done.
    intros Heq. injection Heq as Heq.
    destruct (flat_index_unique (nrow_local b) v i v' i' Hi Hi' Heq). done.
  - intros v i v' i' Hv Hi Hv' Hi'. rewrite address_copy_of by done.
    intros Heq. symmetry in Heq.
    by apply (stored_not_fresh (heap w) b v' i' _ Hstored Hv' Hi' Heq).
  - intros v i Hv Hi. unfold value_at.
    destruct (address b v i) as [c0|] eqn:Ha; [| done]. simpl.
    rewrite Hframe; [done |].
    by apply (stored_not_fresh (heap w) b v i c0 Hstored Hv Hi Ha).
  - intros c0 Hc0. apply Hframe. intros Heq.
    apply (is_fresh (dom (heap w))). fold blk. rewrite <- Heq. by apply slot_Some_block.
  - apply setup_doublevector_representation_copy_of.
Qed.

End CopyConstructorFacts.

Module EqualFacts.
Import Oomph OomphFacts DoubleMultiVector HeapFacts CopyFacts StorageFacts.

(** Reading [v_values[v][i]] of an object that can be read along [this]. *)
Lemma read_along h (this vec : DoubleMultiVector) v i :
  readable_along h this vec → v < Nvector this → i < nrow_local this →
  ∃ p, pointer_of vec v = Some p ∧
       slot h (cell_of p i) = Some (Some (entry_value h vec v i)).
Proof.
  intros [Hp Hv] Hlt Hi.
  destruct (Hp v Hlt) as [p Hptr]. destruct (Hv v i Hlt Hi) as [x Hx].
  exists p. split; [done |].
  unfold entry_value. rewrite Hx. simpl. by eapply value_at_slot.
Qed.

Lemma stored_readable_along h (this : DoubleMultiVector) :
  stored h this → readable_along h this this.
Proof. intros [Hp Hv]. by split. Qed.

(** The two loops of [operator==]: the heap is only read, and the loops end
    with "no difference found" exactly when the objects agree. *)
Lemma equal_loops (this vec : DoubleMultiVector) w :
  stored (heap w) this → readable_along (heap w) this vec →
  ∃ differ : bool,
    for_loop (nvector this) (λ v differ,
      for_loop (nrow_local this) (λ i (differ : bool),
        if differ then ret true else
        x ← (p ← Values_at this v; load p i);
        y ← (p ← Values_at vec v; load p i);
        ret (negb (PrimFloat.eqb x y))) differ) false w = Ok differ w ∧
    (differ = false ↔ agree (heap w) this vec).
Proof.
  intros Hthis Hvec.
  set (n := nvector this). set (m := nrow_local this).
  set (same := λ v i, PrimFloat.eqb (entry_value (heap w) this v i)
                                    (entry_value (heap w) vec v i)).
  set (Inv := λ (k l : nat) (differ : bool) (w' : world),
    w' = w ∧
    (differ = false ↔
     ∀ v i, v < n → i < m → v < k ∨ (v = k ∧ i < l) → same v i = true)).
  destruct (for_loop_invariant (λ k differ w', Inv k 0 differ w')
    (λ v differ,
      for_loop m (λ i (differ : bool),
        if differ then ret true else
        x ← (p ← Values_at this v; load p i);
        y ← (p ← Values_at vec v; load p i);
        ret (negb (PrimFloat.eqb x y))) differ) n false w)
    as (differ & w' & Hrun & -> & Hiff).
  - split; [done |]. split; [intros _ v i _ _ H; lia | done].
  - intros k differ w0 Hk HI.
    destruct (for_loop_invariant (λ l differ w', Inv k l differ w')
      (λ i (differ : bool),
        if differ then ret true else
        x ← (p ← Values_at this k; load p i);
        y ← (p ← Values_at vec k; load p i);
        ret (negb (PrimFloat.eqb x y))) m differ w0)
      as (differ' & w1 & Hrun1 & -> & Hiff1); [done | |].
    + intros l d w1 Hl [-> Hd].
      destruct d.
      * exists true, w. split; [done |]. split; [done |].
        split; [done |]. intros Hall. apply Hd. intros v i Hv Hi Hlt.
        apply Hall; [done | done | lia].
      * destruct (read_stored (heap w) this k l Hthis Hk Hl) as (p & Hp & _ & Hs).
        destruct (read_along (heap w) this vec k l Hvec Hk Hl) as (q & Hq & Hsq).
        exists (negb (same k l)), w. split.
        -- rewrite (mbind_Ok _ _ w (entry_value (heap w) this k l) w); last first.
           { rewrite (mbind_Ok _ _ _ _ _ (Values_at_Ok _ _ _ _ Hp)). by apply load_Ok. }
           rewrite (mbind_Ok _ _ w (entry_value (heap w) vec k l) w); last first.
           { rewrite (mbind_Ok _ _ _ _ _ (Values_at_Ok _ _ _ _ Hq)). by apply load_Ok. }
           reflexivity.
        -- split; [done |]. split.
           ++ intros Hsame v i Hv Hi Hlt.
              destruct (decide (v = k ∧ i = l)) as [[-> ->]|Hne].
              ** by destruct (same k l).
              ** apply Hd; [done | done | done | lia].
           ++ intros Hall. rewrite (Hall k l) by (done || lia). done.
    + exists differ', w. split; [done |]. split; [done |].
      rewrite Hiff1. split.
      * intros Hall v i Hv Hi Hlt. apply Hall; [done | done | lia].
      * intros Hall v i Hv Hi Hlt. apply Hall; [done | done | lia].
  - exists differ. split; [done |]. rewrite Hiff. unfold agree. split.
    + intros Hall v i Hv Hi. apply Hall; [done | done | by left].
    + intros Hall v i Hv Hi _. by apply Hall.
Qed.

Lemma equal_built (this vec : DoubleMultiVector) w :
  Built this = true → Built vec = true →
  stored (heap w) this → readable_along (heap w) this vec →
  ∃ r : bool, equal this vec w = Ok r w ∧ (r = true ↔ agree (heap w) this vec).
Proof.
  intros Hb Hbv Hthis Hvec.
  destruct (equal_loops this vec w Hthis Hvec) as (differ & Hrun & Hiff).
  exists (negb differ). split.
  - unfold equal, built. rewrite Hb, Hbv. simpl.
    by rewrite (mbind_Ok _ _ _ _ _ Hrun).
  - rewrite <- Hiff. by destruct differ.
Qed.

(** X7: what [operator==] compares.  A built object and one that is not
    built are different, two objects that are not built are equal (nothing
    is read).  For two built objects, the storage of [this] in place and
    [vec] readable wherever [this] has an entry, the call only reads and
    answers true exactly when [Values[v][i] == v_values[v][i]] holds for
    every vector [v] and local row [i] of [this]: neither the number of
    vectors of [vec] nor the distributions are compared. *)
Theorem equal_compares_entries (this vec : DoubleMultiVector) (w : world) :
  (Built this ≠ Built vec → equal this vec w = Ok false w) ∧
  (Built this = false → Built vec = false → equal this vec w = Ok true w) ∧
  (Built this = true → Built vec = true →
   stored (heap w) this → readable_along (heap w) this vec →
   ∃ r : bool, equal this vec w = Ok r w ∧ (r = true ↔ agree (heap w) this vec)).
Proof.
  split; [| split].
  - intros Hne. unfold equal, built.
    destruct (Built this), (Built vec); done.
  - intros Hb Hbv. unfold equal, built. by rewrite Hb, Hbv.
  - apply equal_built.
Qed.

(** X8: an object is equal to itself exactly when it holds no NaN.  For a
    built object with its storage in place, [a == a] reads only and answers
    true if and only if no entry [a(v,i)] is a NaN. *)
Theorem equal_to_itself_iff_no_nan (a : DoubleMultiVector) (w : world) :
  Built a = true → stored (heap w) a →
  ∃ r : bool,
    equal a a w = Ok r w ∧
    (r = true ↔
     ∀ v i, v < Nvector a → i < nrow_local a →
            PrimFloat.is_nan (entry_value (heap w) a v i) = false).
Proof.
  intros Hb Hs.
  destruct (equal_built a a w Hb Hb Hs (stored_readable_along _ _ Hs)) as (r & Hrun & Hiff).
  exists r. split; [done |]. rewrite Hiff. unfold agree, PrimFloat.is_nan.
  split; intros H v i Hv Hi; specialize (H v i Hv Hi).
  - by rewrite H.
  - by destruct (PrimFloat.eqb _ _).
Qed.

(** X9: assignment is skipped when [operator==] answers true.
    [operator=], [build(old_vector)] and [shallow_build(old_vector)] do
    nothing when [*this == old_vector]; that comparison looks only at the
    entries of [this], so a built object that agrees with [old_vector] on its
    own entries is left as it is, with its own number of vectors, its own
    distribution and its own storage, whatever else [old_vector] holds;
    [old_vector] may be another object or the object itself. *)
Theorem assign_skipped_when_entries_agree (this : DoubleMultiVector)
    (old_vector : vector_reference) (w : world) :
  Built this = true → Built (referent old_vector this) = true →
  stored (heap w) this → readable_along (heap w) this (referent old_vector this) →
  agree (heap w) this (referent old_vector this) →
  assign old_vector this w = Ok this w ∧
  build_copy old_vector this w = Ok this w ∧
  shallow_build_copy old_vector this w = Ok this w.
Proof.
  intros Hb Hbv Hthis Hvec Hagree.
  destruct (equal_built this (referent old_vector this) w Hb Hbv Hthis Hvec)
    as (r & Hrun & Hiff).
  apply Hiff in Hagree. subst r.
  assert (Hcopy : build_copy old_vector this w = Ok this w).
  { unfold build_copy. by rewrite (bind_Ok _ _ _ _ _ Hrun). }
  split; [| split; [done |]].
  - unfold assign. rewrite (mbind_Ok _ _ _ _ _ Hcopy).
    by rewrite (mbind_Ok _ _ _ _ _
                  (setup_doublevector_representation_Ok _ _ (proj1 Hthis))).
  - unfold shallow_build_copy. by rewrite (bind_Ok _ _ _ _ _ Hrun).
Qed.

End EqualFacts.

Module ScaleFacts.
Import Oomph OomphFacts DoubleMultiVector HeapFacts.

(** Two nested loops that write the same value [x] to one double each; a
    double may be written more than once. *)
Lemma nested_fill_loops (n m : nat) (target : nat → nat → cell) (x : float)
    (body : nat → nat → M world unit) w :
  (∀ k l, k < n → l < m → is_Some (slot (heap w) (target k l))) →
  (∀ k l w', k < n → l < m →
     is_Some (slot (heap w') (target k l)) →
     body k l w' = Ok tt (with_heap w' (set_slot (heap w') (target k l) (Some x)))) →
  ∃ w', for_loop n (λ k _, for_loop m (λ l _, body k l) tt) tt w = Ok tt w' ∧
        mpi_calls w' = mpi_calls w ∧
        dom (heap w') = dom (heap w) ∧
        (∀ k l, k < n → l < m → slot (heap w') (target k l) = Some (Some x)) ∧
        (∀ c, (∀ k l, k < n → l < m → c ≠ target k l) →
           slot (heap w') c = slot (heap w) c).
Proof.
  intros Hexists Hbody.
  set (Inv := λ (k l : nat) (w' : world),
    mpi_calls w' = mpi_calls w ∧
    dom (heap w') = dom (heap w) ∧
    (∀ c, is_Some (slot (heap w) c) → is_Some (slot (heap w') c)) ∧
    (∀ k' l', k' < n → l' < m → k' < k ∨ (k' = k ∧ l' < l) →
       slot (heap w') (target k' l') = Some (Some x)) ∧
    (∀ c, (∀ k' l', k' < n → l' < m → c ≠ target k' l') →
       slot (heap w') c = slot (heap w) c)).
  destruct (for_loop_invariant (λ k (_ : unit) w', Inv k 0 w')
              (λ k _, for_loop m (λ l _, body k l) tt) n tt w)
    as ([] & w' & Hrun & Hmpi & Hdom & _ & Hnew & Hframe).
  - unfold Inv. split; [done |]. split; [done |]. split; [done |].
    split; [intros; lia | done].
  - intros k [] w0 Hk HI.
    destruct (for_loop_invariant (λ l (_ : unit) w', Inv k l w')
                (λ l _, body k l) m tt w0)
      as ([] & w1 & Hrun1 & Hmpi1 & Hdom1 & Hsome1 & Hnew1 & Hframe1); [done | |].
    + intros l [] w1 Hl (Hmpi1 & Hdom1 & Hsome1 & Hnew1 & Hframe1).
      assert (Hlive : is_Some (slot (heap w1) (target k l))).
      { apply Hsome1. by apply Hexists. }
      eexists tt, _. split; [by apply Hbody |].
      unfold Inv. simpl. split; [done |].
      split; [by rewrite dom_set_slot |]. split; [| split].
      * intros c Hc. destruct (decide (target k l = c)) as [<-|Hne].
        -- rewrite slot_set_slot_eq by done. by eexists.
        -- rewrite slot_set_slot_ne by done. by apply Hsome1.
      * intros k' l' Hk' Hl' Hdone.
        destruct (decide (target k l = target k' l')) as [<-|Hne].
        -- by apply slot_set_slot_eq.
        -- rewrite slot_set_slot_ne by done.
           apply Hnew1; [done | done |].
           destruct (decide (k' = k ∧ l' = l)) as [[-> ->]|]; [done | lia].
      * intros c Hc. rewrite slot_set_slot_ne; [by apply Hframe1 |].
        intros Heq. by apply (Hc k l).
    + exists tt, w1. split; [done |]. unfold Inv.
      split; [done |]. split; [done |]. split; [done |]. split; [| done].
      intros k' l' Hk' Hl' Hdone. apply Hnew1; [done | done | lia].
  - exists w'. split; [done |]. split; [done |]. split; [done |]. split; [| done].
    intros k l Hk Hl. apply Hnew; [done | done | lia].
Qed.

Lemma stored_allocated h (this : DoubleMultiVector) : stored h this → allocated h this.
Proof.
  intros Hs v i Hv Hi.
  destruct (read_stored h this v i Hs Hv Hi) as (p & _ & Ha & Hslot).
  exists (cell_of p i). split; [done |]. by rewrite Hslot.
Qed.

(** X10: [initialise(x)] sets every entry.  On an object that is not built
    it does nothing.  On a built object whose [Nvector * nrow_local] doubles
    exist (they may be indeterminate, and columns may share storage) it
    returns normally, afterwards every entry reads [x], the doubles that the
    object does not address are as before, no block is allocated or freed and
    no MPI call is made. *)
Theorem initialise_sets_every_entry (x : float) (this : DoubleMultiVector) (w : world) :
  (Built this = false → initialise x this w = Ok tt w) ∧
  (Built this = true → allocated (heap w) this →
   ∃ w', initialise x this w = Ok tt w' ∧
         mpi_calls w' = mpi_calls w ∧
         dom (heap w') = dom (heap w) ∧
         (∀ v i, v < Nvector this → i < nrow_local this →
            value_at (heap w') this v i = Some x) ∧
         (∀ c, (∀ v i, v < Nvector this → i < nrow_local this →
                       address this v i ≠ Some c) →
               slot (heap w') c = slot (heap w) c)).
Proof.
  split.
  { intros Hb. unfold initialise. by rewrite Hb. }
  intros Hb Halloc.
  set (target := λ v i, default (0, 0) (address this v i)).
  assert (Htarget : ∀ v i, v < Nvector this → i < nrow_local this →
            ∃ p, pointer_of this v = Some p ∧ address this v i = Some (target v i) ∧
                 target v i = cell_of p i ∧ is_Some (slot (heap w) (target v i))).
  { intros v i Hv Hi. destruct (Halloc v i Hv Hi) as (c & Ha & Hc).
    unfold target. rewrite Ha. simpl. unfold address in Ha.
    destruct (pointer_of this v) as [p|]; [| done]. simpl in Ha.
    injection Ha as <-. by exists p. }
  destruct (nested_fill_loops (Nvector this) (nrow_local this) target x
              (λ v i, p ← Values_at this v; store p i x) w)
    as (w' & Hrun & Hmpi & Hdom & Hnew & Hframe).
  - intros v i Hv Hi. by destruct (Htarget v i Hv Hi) as (_ & _ & _ & _ & H).
  - intros v i w' Hv Hi Hlive.
    destruct (Htarget v i Hv Hi) as (p & Hp & _ & Hcell & _).
    rewrite (mbind_Ok _ _ _ _ _ (Values_at_Ok _ _ _ _ Hp)).
    rewrite Hcell in Hlive |- *. by apply store_Ok.
  - exists w'. split; [| split; [done |]; split; [done |]; split].
    + unfold initialise. by rewrite Hb.
    + intros v i Hv Hi. destruct (Htarget v i Hv Hi) as (p & Hp & _ & Hcell & _).
      apply (slot_value_at _ _ _ _ p); [done |]. rewrite <- Hcell. by apply Hnew.
    + intros c Hc. apply Hframe. intros v i Hv Hi Heq. apply (Hc v i Hv Hi).
      destruct (Htarget v i Hv Hi) as (_ & _ & Ha & _). by rewrite Ha, Heq.
Qed.


End ScaleFacts.

Module ViewFacts.
Import Oomph OomphFacts DoubleMultiVector HeapFacts BuildFacts CopyFacts StorageFacts.

(** An array of [n] pointers of which the first [v] are those of [old]. *)
Lemma shared_insert (old : DoubleMultiVector) v n p :
  v < n → pointer_of old v = Some p →
  <[v := Some p]> (((λ v', pointer_of old v') <$> seq 0 v) ++ replicate (n - v) None)
  = ((λ v', pointer_of old v') <$> seq 0 (S v)) ++ replicate (n - S v) None.
Proof.
  intros Hv Hp.
  rewrite seq_S, fmap_app, <- app_assoc.
  rewrite insert_app_r_alt by (rewrite length_fmap, length_seq; lia).
  rewrite length_fmap, length_seq, Nat.sub_diag.
  replace (n - v) with (S (n - S v)) by lia. simpl. by rewrite Hp.
Qed.

(** [clear] on an object that does not own its doubles frees nothing. *)
Lemma clear_not_owner (this : DoubleMultiVector) w :
  Internal_values this = false →
  ∃ this0, clear this w = Ok this0 w ∧ Values this0 = None ∧ Nvector this0 = Nvector this.
Proof.
  intros Hint. unfold clear. destruct (Values this) as [vals|] eqn:Hvals.
  - rewrite Hint. eexists. split; [reflexivity |]. done.
  - exists this. done.
Qed.

(** [shallow_build(old_vector)] when [operator==] answers false: whatever
    the object held, it ends as the view of [old_vector], and the heap is as
    it was. *)
Lemma shallow_build_copy_view (old this : DoubleMultiVector) w :
  equal this old w = Ok false w →
  dist_built (Distribution_pt old) = true →
  (∀ v, v < Nvector old → is_Some (pointer_of old v)) →
  shallow_build_copy (other_vector old) this w = Ok (view_of old) w.
Proof.
  intros Hequal Hdist Hptr.
  unfold shallow_build_copy. cbn [referent distribution_pt].
  rewrite (bind_Ok _ _ _ _ _ Hequal). cbv beta iota.
  set (n := Nvector old).
  destruct (clear_not_owner (with_Nvector (with_Internal_values this false) (nvector old)) w
              eq_refl) as (this0 & Hclear & Hnull & Hn).
  assert (Hshallow :
    shallow_build (Nvector (with_Nvector (with_Internal_values this false) (nvector old)))
      (other_distribution (Distribution_pt old))
      (with_Nvector (with_Internal_values this false) (nvector old)) w
    = Ok (MkDoubleMultiVector (Distribution_pt old) (Some (replicate n None)) n false true) w).
  { unfold shallow_build. rewrite (mbind_Ok _ _ _ _ _ Hclear). cbn [pointee].
    by rewrite Hdist. }
  rewrite (mbind_Ok _ _ _ _ _ Hshallow).
  unfold distribution_built. simpl. rewrite Hdist.
  destruct (for_loop_invariant
    (λ v this_v w_v,
       this_v = MkDoubleMultiVector (Distribution_pt old)
                  (Some (((λ v', pointer_of old v') <$> seq 0 v) ++ replicate (n - v) None))
                  n false true ∧ w_v = w)
    (λ v this_v, p ← values old v; set_Values_at this_v v p)
    n (MkDoubleMultiVector (Distribution_pt old) (Some (replicate n None)) n false true) w)
    as (this' & w' & Hrun & -> & ->).
  - split; [| done]. simpl. by rewrite Nat.sub_0_r.
  - intros v this_v w_v Hv [-> ->].
    destruct (Hptr v Hv) as [p Hp].
    eexists _, _. split; [| split; reflexivity].
    unfold values. rewrite (mbind_Ok _ _ _ _ _ (Values_at_Ok _ _ _ _ Hp)).
    erewrite set_Values_at_Ok; [| reflexivity |].
    + unfold with_Values. simpl. by rewrite (shared_insert old v n p Hv Hp).
    + rewrite length_app, length_fmap, length_seq, length_replicate. lia.
  - rewrite Hrun. unfold view_of. fold n. by rewrite Nat.sub_diag, app_nil_r.
Qed.

Lemma pointer_of_view_of (old : DoubleMultiVector) v :
  v < Nvector old → pointer_of (view_of old) v = pointer_of old v.
Proof.
  intros Hv. unfold pointer_of at 1, view_of. simpl.
  rewrite list_lookup_fmap, lookup_seq_lt by done. simpl.
  unfold pointer_of. by destruct (Values old) as [vals|]; [destruct (vals !! v) as [[?|]|] |].
Qed.

(** X12: a shallow copy shares the storage of the original.
    [shallow_build(old_vector)] on an object that is not built, for a built
    [old_vector] whose pointers are assigned, allocates nothing and leaves
    the heap as it was; the object ends built, with the distribution and the
    number of vectors of [old_vector], not owning its values, and each of its
    pointers is the pointer of [old_vector]: in every heap the two objects
    have the same entries, so a value written through one is read through the
    other.  Clearing or destroying the copy frees nothing. *)
Theorem shallow_build_copy_shares_storage (old this : DoubleMultiVector) (w : world) :
  Built this = false → Built old = true →
  dist_built (Distribution_pt old) = true →
  (∀ v, v < Nvector old → is_Some (pointer_of old v)) →
  ∃ view,
    shallow_build_copy (other_vector old) this w = Ok view w ∧
    Built view = true ∧ Internal_values view = false ∧
    Nvector view = Nvector old ∧ Distribution_pt view = Distribution_pt old ∧
    (∀ v, v < Nvector old → pointer_of view v = pointer_of old v) ∧
    (∀ h v i, v < Nvector old →
       address view v i = address old v i ∧ value_at h view v i = value_at h old v i) ∧
    clear view w = Ok (cleared view) w ∧
    destructor view w = Ok tt w.
Proof.
  intros Hb Hbo Hdist Hptr.
  exists (view_of old). split.
  - apply shallow_build_copy_view; [| done | done].
    unfold equal, built. by rewrite Hb, Hbo.
  - split; [done |]. split; [done |]. split; [done |]. split; [done |].
    split; [apply pointer_of_view_of |]. split; [| done].
    intros h v i Hv. unfold value_at, address. by rewrite pointer_of_view_of.
Qed.

(** [clear] on an object that owns the live block behind [Values[0]]
    frees that block. *)
Lemma clear_owner (this : DoubleMultiVector) blk w :
  Internal_values this = true →
  pointer_of this 0 = Some (Ptr blk 0) →
  blk ∈ dom (heap w) →
  clear this w = Ok (cleared this) (with_heap w (delete blk (heap w))).
Proof.
  intros Hint Hp Hlive.
  assert (Hdelete : delete_array (Ptr blk 0) w = Ok tt (with_heap w (delete blk (heap w)))).
  { unfold delete_array. simpl. apply elem_of_dom in Hlive as [l Hl]. by rewrite Hl. }
  unfold clear. destruct (Values this) as [vals|] eqn:Hvals.
  - rewrite Hint.
    erewrite mbind_Ok; last first.
    { erewrite mbind_Ok; [exact Hdelete |]. by apply Values_at_Ok. }
    reflexivity.
  - unfold pointer_of in Hp. by rewrite Hvals in Hp.
Qed.

(** [operator==] answers false only for an object that has a vector. *)
Lemma equal_false_Nvector (this vec : DoubleMultiVector) w w' :
  equal this vec w = Ok false w' → Built this = Built vec →
  Built this = true ∧ 0 < Nvector this.
Proof.
  unfold equal, built. intros Hequal Hsame. rewrite <- Hsame in Hequal.
  destruct (Built this); [| discriminate]. split; [done |].
  destruct (Nvector this) as [|n] eqn:Hn; [| lia].
  unfold nvector in Hequal. rewrite Hn in Hequal. discriminate.
Qed.

(** X13: [shallow_build(old_vector)] on an object that owns its values
    does not free them.  The member clears [Internal_values] before it calls
    [clear()], so for an object that owns the live block [blk] and for which
    [operator==] answers false, the heap afterwards is the heap before, with
    [blk] still allocated, although [clear()] itself, and
    [shallow_build(n_vector, dist_pt)], do free [blk].  When [old_vector] is
    another object (its distribution built, its pointers assigned), the
    object is left holding only the pointers of [old_vector].  When
    [old_vector] is the object itself ([a.shallow_build(a)], where
    [operator==] answers false because [a] holds a NaN), [clear()] has wiped
    the object's distribution before [dist_pt->built()] is read: the object is
    left not built, without storage and without distribution, and its block
    is lost all the same. *)
Theorem shallow_build_copy_keeps_owned_block (this : DoubleMultiVector)
    (blk : nat) (w : world) :
  Internal_values this = true →
  pointer_of this 0 = Some (Ptr blk 0) →
  blk ∈ dom (heap w) →
  (∃ this0, clear this w = Ok this0 (with_heap w (delete blk (heap w)))) ∧
  (∀ old : DoubleMultiVector,
     equal this old w = Ok false w →
     dist_built (Distribution_pt old) = true →
     (∀ v, v < Nvector old → is_Some (pointer_of old v)) →
     ∃ view this1,
       shallow_build_copy (other_vector old) this w = Ok view w ∧
       (∀ v, v < Nvector old → pointer_of view v = pointer_of old v) ∧
       Built view = true ∧ Internal_values view = false ∧
       clear view w = Ok (cleared view) w ∧
       shallow_build (Nvector old) (other_distribution (Distribution_pt old)) this w
       = Ok this1 (with_heap w (delete blk (heap w)))) ∧
  (equal this this w = Ok false w →
   shallow_build_copy this_vector this w
   = Ok (MkDoubleMultiVector unbuilt_distribution None (Nvector this) false false) w).
Proof.
  intros Hint Hp Hlive.
  pose proof (clear_owner this blk w Hint Hp Hlive) as Hclear.
  split; [by eexists |]. split.
  - intros old Hequal Hdist Hptr.
    exists (view_of old). eexists.
    split; [by apply shallow_build_copy_view |].
    split; [apply pointer_of_view_of |]. split; [done |]. split; [done |].
    split; [done |].
    unfold shallow_build. rewrite (mbind_Ok _ _ _ _ _ Hclear). cbn [pointee].
    by rewrite Hdist.
  - intros Hequal.
    unfold shallow_build_copy. cbn [referent distribution_pt].
    rewrite (bind_Ok _ _ _ _ _ Hequal). cbv beta iota zeta.
    assert (Hvals : ∃ vals, Values this = Some vals).
    { unfold pointer_of in Hp. destruct (Values this) as [vals|]; [by eexists | done]. }
    destruct Hvals as [vals Hvals].
    unfold shallow_build, clear. cbn. rewrite Hvals. reflexivity.
Qed.

(** [build(old_vector)], for another object [old_vector], when
    [operator==] answers false and the [clear()] inside [build] leaves
    [this0] in the world [w0]: from there on it is [build(old_vector)] on a
    newly constructed object, run in [w0]. *)
Lemma build_copy_cleared (old this this0 : DoubleMultiVector) w w0 :
  equal this old w = Ok false w →
  clear (with_Nvector (with_Internal_values this true) (nvector old)) w = Ok this0 w0 →
  Values this0 = None →
  Built old = true →
  dist_built (Distribution_pt old) = true →
  (Z.of_nat (nrow_local old) * Z.of_nat (Nvector old) < 4294967296)%Z →
  build_copy (other_vector old) this w
  = build_copy (other_vector old) DoubleMultiVector_default w0.
Proof.
  intros Hequal Hclear Hnull Hbuilt Hdist Hsmall.
  unfold build_copy. cbn [referent distribution_pt].
  rewrite (bind_Ok _ _ _ _ _ Hequal).
  assert (Hequal0 : equal DoubleMultiVector_default old w0 = Ok false w0).
  { unfold equal, built. by rewrite Hbuilt. }
  rewrite (bind_Ok _ _ _ _ _ Hequal0). cbv beta iota zeta.
  assert (Hleft :
    build (Nvector (with_Nvector (with_Internal_values this true) (nvector old)))
      (other_distribution (Distribution_pt old)) 0
      (with_Nvector (with_Internal_values this true) (nvector old)) w
    = build (Nvector old) (other_distribution (Distribution_pt old)) 0 this0 w0).
  { exact (build_after_clear _ _ _ _ _ _ _ Hclear Hnull). }
  rewrite (mbind_Ok _ _ _ _ _
             (eq_trans Hleft
                (build_fresh _ (other_distribution (Distribution_pt old)) _ _ _
                   Hnull Hdist Hsmall))).
  by rewrite (mbind_Ok _ _ _ _ _
                (build_fresh (Nvector old) (other_distribution (Distribution_pt old)) 0
                   (with_Nvector (with_Internal_values DoubleMultiVector_default true)
                      (nvector old)) w0 eq_refl Hdist Hsmall)).
Qed.

(** [build(old_vector)] handed the object itself, when [operator==]
    answers false: the block behind [Values[0]] is freed and the object is
    left without storage, without distribution and not built. *)
Lemma build_copy_itself (this : DoubleMultiVector) blk w :
  pointer_of this 0 = Some (Ptr blk 0) →
  blk ∈ dom (heap w) →
  equal this this w = Ok false w →
  build_copy this_vector this w
  = Ok (MkDoubleMultiVector unbuilt_distribution None (Nvector this) true false)
       (with_heap w (delete blk (heap w))).
Proof.
  intros Hp Hlive Hequal.
  unfold build_copy. cbn [referent distribution_pt].
  rewrite (bind_Ok _ _ _ _ _ Hequal). cbv beta iota zeta.
  set (this1 := with_Nvector (with_Internal_values this true) (nvector this)).
  assert (Hclear : clear this1 w = Ok (cleared this1) (with_heap w (delete blk (heap w)))).
  { apply clear_owner; [reflexivity | exact Hp | done]. }
  assert (Hbuild : build (Nvector this1) own_distribution 0 this1 w
                   = Ok (MkDoubleMultiVector unbuilt_distribution None (Nvector this)
                           true false)
                        (with_heap w (delete blk (heap w)))).
  { unfold build. rewrite (mbind_Ok _ _ _ _ _ Hclear). reflexivity. }
  rewrite (mbind_Ok _ _ _ _ _ Hbuild). reflexivity.
Qed.

(** X14: [operator=] and [build(old_vector)] free the block behind
    [Values[0]], owned or not.  They set [Internal_values] before [build]
    calls [clear()]; so, when [operator==] answers false, the live block
    [blk] that [Values[0]] points to is deleted even for a shallow view,
    whose doubles belong to another object.  When [old_vector] is another
    object, built, whose doubles all lie outside [blk], the object ends as a
    deep copy of [old_vector] in one fresh block: [blk] has left the heap (or
    is that fresh block), the values are those of [old_vector], and every
    double outside [blk] is as before.  When [old_vector] is the object
    itself ([a.build(a)] or [a = a], where [operator==] answers false because
    [a] holds a NaN), [clear()] has wiped the object's distribution before
    [dist_pt->built()] is read: [build(old_vector)] frees [blk], allocates
    nothing and leaves the object not built, without storage and without
    distribution, keeping its number of vectors; [operator=] then reads
    [Values[0]] through the null pointer in
    [setup_doublevector_representation()], which is undefined behaviour. *)
Theorem assign_frees_first_block (this : DoubleMultiVector) (blk : nat) (w : world) :
  pointer_of this 0 = Some (Ptr blk 0) →
  blk ∈ dom (heap w) →
  (∀ old : DoubleMultiVector,
     equal this old w = Ok false w →
     Built old = true →
     dist_built (Distribution_pt old) = true →
     stored (delete blk (heap w)) old →
     (Z.of_nat (nrow_local old) * Z.of_nat (Nvector old) < 4294967296)%Z →
     ∃ w1,
       assign (other_vector old) this w
       = Ok (copy_of old (fresh (dom (heap w) ∖ {[blk]}))) w1 ∧
       build_copy (other_vector old) this w
       = Ok (copy_of old (fresh (dom (heap w) ∖ {[blk]}))) w1 ∧
       mpi_calls w1 = mpi_calls w ∧
       dom (heap w1) = {[fresh (dom (heap w) ∖ {[blk]})]} ∪ (dom (heap w) ∖ {[blk]}) ∧
       (∀ v i, v < Nvector old → i < nrow_local old →
          value_at (heap w1) (copy_of old (fresh (dom (heap w) ∖ {[blk]}))) v i
          = value_at (heap w) old v i) ∧
       (∀ c, c.1 ≠ blk → is_Some (slot (heap w) c) → slot (heap w1) c = slot (heap w) c)) ∧
  (equal this this w = Ok false w →
   build_copy this_vector this w
   = Ok (MkDoubleMultiVector unbuilt_distribution None (Nvector this) true false)
        (with_heap w (delete blk (heap w))) ∧
   assign this_vector this w = Undefined).
Proof.
  intros Hp Hlive. split.
  - intros old Hequal Hbuilt Hdist Hstored Hsmall.
    set (w0 := with_heap w (delete blk (heap w))).
    set (this1 := with_Nvector (with_Internal_values this true) (nvector old)).
    assert (Hclear : clear this1 w = Ok (cleared this1) w0).
    { apply clear_owner; [reflexivity | exact Hp | done]. }
    pose proof (build_copy_cleared old this _ w w0 Hequal Hclear eq_refl Hbuilt Hdist Hsmall)
      as Hrun.
    destruct (build_copy_default_spec old w0 Hbuilt Hdist Hstored Hsmall)
      as (w1 & Hcopy & Hmpi & Hdom & Hnew & Hframe).
    assert (Hdom0 : dom (heap w0) = dom (heap w) ∖ {[blk]}).
    { unfold w0. simpl. by rewrite dom_delete_L. }
    rewrite Hdom0 in Hcopy, Hdom, Hnew, Hframe.
    set (blk' := fresh (dom (heap w) ∖ {[blk]})) in *.
    assert (Hold : ∀ c, c.1 ≠ blk → slot (heap w0) c = slot (heap w) c).
    { intros c Hc. unfold w0. simpl. rewrite slot_delete_block. by rewrite decide_False. }
    exists w1. rewrite Hrun.
    split; [| split; [done |]; split; [done |]; split; [done |]; split].
    + unfold assign. rewrite (mbind_Ok _ _ _ _ _ (eq_trans Hrun Hcopy)).
      by rewrite (mbind_Ok _ _ _ _ _ (setup_doublevector_representation_copy_of old blk' w1)).
    + intros v i Hv Hi.
      rewrite (slot_value_at _ _ _ _ _ _ (pointer_of_copy_of old blk' v Hv) (Hnew v i Hv Hi)).
      destruct (read_stored _ old v i Hstored Hv Hi) as (p & Hp0 & Ha & Hs).
      symmetry. apply (slot_value_at _ _ _ _ p); [done |].
      rewrite <- Hold; [done |].
      intros Heq. unfold w0 in Hs. simpl in Hs.
      rewrite slot_delete_block, decide_True in Hs by done. discriminate.
    + intros c Hc Hsome. rewrite Hframe, Hold; [done | done |].
      intros Heq. apply (is_fresh (dom (heap w) ∖ {[blk]})). fold blk'. rewrite <- Heq.
      apply elem_of_difference. split; [by apply slot_Some_block | set_solver].
  - intros Hequal.
    pose proof (build_copy_itself this blk w Hp Hlive Hequal) as Hcopy.
    split; [exact Hcopy |].
    destruct (equal_false_Nvector this this w w Hequal eq_refl) as [_ Hpos].
    unfold assign. rewrite (mbind_Ok _ _ _ _ _ Hcopy).
    unfold mbind, M_bind, bind.
    by rewrite setup_doublevector_representation_null.
Qed.

(** The loop of the shallow column selection. *)
Lemma columns_insert (old : DoubleMultiVector) (index : list Z) v j p :
  index !! v = Some j → pointer_of old (Z.to_nat j) = Some p →
  <[v := Some p]> (((λ j : Z, pointer_of old (Z.to_nat j)) <$> take v index)
                   ++ replicate (length index - v) None)
  = ((λ j : Z, pointer_of old (Z.to_nat j)) <$> take (S v) index)
    ++ replicate (length index - S v) None.
Proof.
  intros Hj Hp.
  assert (Hv : v < length index) by (by eapply lookup_lt_Some).
  rewrite (take_S_r _ _ _ Hj), fmap_app, <- app_assoc.
  rewrite insert_app_r_alt by (rewrite length_fmap, length_take; lia).
  rewrite length_fmap, length_take.
  replace (v - v `min` length index) with 0 by lia.
  replace (length index - v) with (S (length index - S v)) by lia.
  simpl. by rewrite Hp.
Qed.

(** X15: the shallow copy of selected columns.  The constructor
    [DoubleMultiVector(old_vector, index, false)], for an [old_vector] with a
    built distribution and indices that are all in [0, Nvector), allocates no
    double and leaves the heap as it was; the new object is built, does not
    own its values, has [index.size()] vectors, and its [v]-th pointer is the
    pointer of column [index[v]] of [old_vector]: in every heap its entry
    [(v, i)] is the entry [(index[v], i)] of [old_vector].  A column may be
    selected more than once, and is then shared by two vectors of the new
    object. *)
Theorem from_columns_shallow_shares_columns (cfg : build_config)
    (old : DoubleMultiVector) (index : list Z) (w : world) :
  dist_built (Distribution_pt old) = true →
  (∀ v, v < Nvector old → is_Some (pointer_of old v)) →
  (∀ j, j ∈ index → (0 ≤ j < Z.of_nat (Nvector old))%Z) →
  (Z.of_nat (Nvector old) < 4294967296)%Z →
  (Z.of_nat (length index) < 4294967296)%Z →
  ∃ view,
    DoubleMultiVector_from_columns cfg old index false w = Ok view w ∧
    Built view = true ∧ Internal_values view = false ∧
    Nvector view = length index ∧ Distribution_pt view = Distribution_pt old ∧
    (∀ h v i j, index !! v = Some j →
       pointer_of view v = pointer_of old (Z.to_nat j) ∧
       address view v i = address old (Z.to_nat j) i ∧
       value_at h view v i = value_at h old (Z.to_nat j) i) ∧
    destructor view w = Ok tt w.
Proof.
  intros Hdist Hptr Hindex HN Hlen.
  set (n := length index).
  exists (columns_view_of old index).
  assert (Hpointer : ∀ v j, index !! v = Some j →
            pointer_of (columns_view_of old index) v = pointer_of old (Z.to_nat j)).
  { intros v j Hj. unfold pointer_of at 1, columns_view_of. simpl.
    rewrite list_lookup_fmap, Hj. simpl.
    unfold pointer_of.
    by destruct (Values old) as [vals|]; [destruct (vals !! Z.to_nat j) as [[?|]|] |]. }
  assert (Hassigned : ∀ v, v < Nvector (columns_view_of old index) →
            is_Some (pointer_of (columns_view_of old index) v)).
  { intros v Hv. destruct (lookup_lt_is_Some_2 index v Hv) as [j Hj].
    rewrite (Hpointer v j Hj).
    destruct (Hindex j (list_elem_of_lookup_2 _ _ _ Hj)) as [Hj0 HjN].
    apply Hptr. lia. }
  split; [| split; [done |]; split; [done |]; split; [done |]; split; [done |]; split;
            [| done]].
  - assert (Hshallow :
      shallow_build n (other_distribution (Distribution_pt old))
        {| Distribution_pt := unbuilt_distribution; Values := None; Nvector := 0;
           Internal_values := false; Built := false |} w
      = Ok (MkDoubleMultiVector (Distribution_pt old) (Some (replicate n None)) n false true)
           w).
    { unfold shallow_build, clear. simpl.
      unfold mbind at 1, M_bind at 1, bind at 1, ret at 1. by rewrite Hdist. }
    destruct (for_loop_invariant
      (λ v this_v w_v,
         this_v = MkDoubleMultiVector (Distribution_pt old)
                    (Some (((λ j : Z, pointer_of old (Z.to_nat j)) <$> take v index)
                           ++ replicate (n - v) None))
                    n false true ∧ w_v = w)
      (λ v this_v,
         index_v ← from_option (index !! v);
         p ← values old (wrap_unsigned index_v);
         set_Values_at this_v v p)
      n (MkDoubleMultiVector (Distribution_pt old) (Some (replicate n None)) n false true) w)
      as (this' & w' & Hrun & -> & ->).
    + split; [| done]. simpl. by rewrite Nat.sub_0_r.
    + intros v this_v w_v Hv [-> ->].
      destruct (lookup_lt_is_Some_2 index v Hv) as [j Hj].
      destruct (Hindex j (list_elem_of_lookup_2 _ _ _ Hj)) as [Hj0 HjN].
      destruct (Hptr (Z.to_nat j) ltac:(lia)) as [p Hp].
      assert (Hwrap : wrap_unsigned j = Z.to_nat j).
      { rewrite <- (Z2Nat.id j) at 1 by done. apply wrap_unsigned_small. lia. }
      eexists _, _. split; [| split; reflexivity].
      rewrite Hj. unfold from_option at 1.
      unfold mbind at 1, M_bind at 1, bind at 1, ret at 1.
      rewrite Hwrap. unfold values.
      rewrite (mbind_Ok _ _ _ _ _ (Values_at_Ok _ _ _ _ Hp)).
      erewrite set_Values_at_Ok; [| reflexivity |].
      * unfold with_Values, n. simpl. by rewrite (columns_insert old index v j p Hj Hp).
      * rewrite length_app, length_fmap, length_take, length_replicate. lia.
    + rewrite Nat.sub_diag, app_nil_r, take_ge in Hrun by done.
      change (MkDoubleMultiVector _ _ n false true) with (columns_view_of old index)
        in Hrun at 2.
      unfold DoubleMultiVector_from_columns.
      rewrite wrap_unsigned_small by done. fold n. cbv iota.
      rewrite (mbind_Ok _ _ w (columns_view_of old index) w); last first.
      { by rewrite (mbind_Ok _ _ _ _ _ Hshallow). }
      rewrite (mbind_Ok _ _ _ _ _ (setup_doublevector_representation_Ok _ _ Hassigned)).
      reflexivity.
  - intros h v i j Hj. split; [by apply Hpointer |].
    unfold value_at, address. by rewrite (Hpointer v j Hj).
Qed.

End ViewFacts.

Module ColumnFacts.
Import Oomph OomphFacts DoubleMultiVector HeapFacts BuildFacts CopyFacts CallFacts.
Import StorageFacts.

(** An object whose doubles are the same in two heaps is stored in both and
    has the same entries in both. *)
Lemma stored_frame h h' (a : DoubleMultiVector) :
  stored h a →
  (∀ c, is_Some (slot h c) → slot h' c = slot h c) →
  stored h' a ∧
  ∀ v i, v < Nvector a → i < nrow_local a → entry_value h' a v i = entry_value h a v i.
Proof.
  intros Hs Hframe.
  assert (Hvalue : ∀ v i, v < Nvector a → i < nrow_local a →
            value_at h' a v i = value_at h a v i).
  { intros v i Hv Hi.
    destruct (read_stored h a v i Hs Hv Hi) as (p & Hp & Ha & Hslot).
    unfold value_at. rewrite Ha. simpl. rewrite Hframe; [done |]. by rewrite Hslot. }
  split.
  - destruct Hs as [Hp Hv]. split; [done |].
    intros v i Hlt Hi. rewrite Hvalue by done. by apply Hv.
  - intros v i Hv Hi. unfold entry_value. by rewrite Hvalue.
Qed.

Lemma read_reference_Ok c x w :
  slot (heap w) c = Some (Some x) → read_reference c w = Ok x w.
Proof. intros H. unfold read_reference. by rewrite H. Qed.


End ColumnFacts.

Module RangeCheckFacts.
Import Oomph OomphFacts DoubleMultiVector HeapFacts BuildFacts CopyFacts CallFacts.
Import LoopExitFacts ColumnFacts.

Lemma mbind_Throw {St A B} (m : M St A) (k : A → M St B) s e s' :
  m s = Throw e s' → (m ≫= k) s = Throw e s'.
Proof. intros H. unfold mbind, M_bind, bind. by rewrite H. Qed.

(** X17: the indices that the range check lets through.  For an object
    whose array of pointers has [Nvector] entries, an access [(v, i)] with
    [v <= Nvector] and [i < nrow_local] passes both comparisons of the
    check, so no build refuses it, also when [v] is [Nvector] itself or when
    [v] or [i] is negative.  With [v] equal to [Nvector], or negative, the
    access reads [Values[v]] outside the array of pointers: undefined
    behaviour.  With [v] in range and [i] negative it steps back from
    [Values[v]]: past the start of the block that is undefined behaviour;
    otherwise the access returns, without any error, the address of the
    double that lies [-i] places before vector [v] in the same block, which
    in the layout of [build] belongs to an earlier vector. *)
Theorem call_lets_bad_indices_through (cfg : build_config) (this : DoubleMultiVector)
    (vals : list (option pointer)) (v i : Z) (w : world) :
  Values this = Some vals → length vals = Nvector this →
  (Z.of_nat (Nvector this) < 2147483648)%Z →
  (Z.of_nat (nrow_local this) < 2147483648)%Z →
  (v ≤ Z.of_nat (Nvector this))%Z → (i < Z.of_nat (nrow_local this))%Z →
  (¬ ∃ e w', call cfg this v i w = Throw e w') ∧
  ((v = Z.of_nat (Nvector this) ∨ v < 0)%Z → call cfg this v i w = Undefined) ∧
  (∀ p, (0 ≤ v)%Z → (i < 0)%Z → vals !! Z.to_nat v = Some (Some p) →
     ((Z.of_nat (offset p) + i < 0)%Z → call cfg this v i w = Undefined) ∧
     (∀ k : nat, (Z.of_nat (offset p) + i = Z.of_nat k)%Z →
        is_Some (slot (heap w) (block p, k)) →
        call cfg this v i w = Ok (block p, k) w)).
Proof.
  intros Hvals Hlen HN Hnrl Hv Hi.
  assert (Hcall : call cfg this v i w
                  = (if (v <? 0)%Z then undefined
                     else p ← Values_at this (Z.to_nat v); reference_at p i) w).
  { unfold call. rewrite !int_of_unsigned_small by done.
    destruct (Z.gtb_spec v (Z.of_nat (Nvector this))); [lia |].
    destruct (Z.geb_spec i (Z.of_nat (nrow_local this))); [lia |].
    cbv zeta beta iota.
    assert (Hchecks : (if RANGE_CHECKING cfg then ret tt else ret tt) w = Ok tt w)
      by (by destruct (RANGE_CHECKING cfg)).
    by rewrite (mbind_Ok _ _ _ _ _ Hchecks). }
  rewrite Hcall. split; [| split].
  - intros (e & w' & Hthrow).
    destruct (v <? 0)%Z; [discriminate |].
    unfold Values_at, mbind, M_bind, bind, from_option, ret, undefined in Hthrow.
    rewrite Hvals in Hthrow.
    destruct (vals !! Z.to_nat v) as [[p|]|]; try discriminate.
    unfold reference_at, reference, undefined in Hthrow.
    destruct (Z.of_nat (offset p) + i <? 0)%Z; [discriminate |].
    destruct (slot (heap w) _); discriminate.
  - intros Hbad. destruct (Z.ltb_spec v 0); [done |].
    assert (Hv' : v = Z.of_nat (Nvector this)) by lia. subst v.
    rewrite Nat2Z.id.
    unfold Values_at, mbind, M_bind, bind, from_option, ret, undefined.
    rewrite Hvals. simpl.
    by rewrite lookup_ge_None_2 by lia.
  - intros p Hv0 Hi0 Hp. destruct (Z.ltb_spec v 0); [lia |].
    assert (Hptr : pointer_of this (Z.to_nat v) = Some p).
    { unfold pointer_of. rewrite Hvals. simpl. by rewrite Hp. }
    rewrite (mbind_Ok _ _ _ _ _ (Values_at_Ok _ _ _ _ Hptr)).
    split.
    + apply reference_at_before.
    + intros k Hk [x Hslot]. rewrite (reference_at_back p i k w Hk).
      unfold reference. change (cell_of (Ptr (block p) 0) k) with (block p, k).
      by rewrite Hslot.
Qed.

(** On an object of two vectors of one row each, laid out in block 1 as
    [build] does: the access (2, 0) reads [Values[2]], past the two pointers;
    the access (1, -1) is not refused and returns the address of entry (0, 0);
    the access (0, -1) steps back past the start of the block. *)
Lemma call_lets_bad_indices_through_witness :
  call checked_build (two_vectors_in_block 1) 2 0 (world_of_three 1 2 3) = Undefined ∧
  call checked_build (two_vectors_in_block 1) 1 (-1) (world_of_three 1 2 3)
  = Ok (1, 0) (world_of_three 1 2 3) ∧
  address (two_vectors_in_block 1) 0 0 = Some (1, 0) ∧
  call checked_build (two_vectors_in_block 1) 0 (-1) (world_of_three 1 2 3) = Undefined.
Proof.
  split; [| split; [| split]].
  - apply (call_lets_bad_indices_through checked_build (two_vectors_in_block 1)
             [Some (Ptr 1 0); Some (Ptr 1 1)] 2 0 (world_of_three 1 2 3));
      [reflexivity | reflexivity | reflexivity | reflexivity | simpl; lia | reflexivity |
       left; reflexivity].
  - apply (call_lets_bad_indices_through checked_build (two_vectors_in_block 1)
             [Some (Ptr 1 0); Some (Ptr 1 1)] 1 (-1) (world_of_three 1 2 3)
             eq_refl eq_refl eq_refl eq_refl ltac:(simpl; lia) eq_refl)
      with (p := Ptr 1 1) (k := 0);
      [lia | lia | reflexivity | reflexivity | by eexists].
  - reflexivity.
  - apply (call_lets_bad_indices_through checked_build (two_vectors_in_block 1)
             [Some (Ptr 1 0); Some (Ptr 1 1)] 0 (-1) (world_of_three 1 2 3)
             eq_refl eq_refl eq_refl eq_refl ltac:(simpl; lia) eq_refl)
      with (p := Ptr 1 0);
      [lia | lia | reflexivity | simpl; lia].
Defined.

(** One copied double keeps [copying]. *)
Lemma copying_step (cfg : build_config) (old new : DoubleMultiVector)
    (index : list Z) (blk n nrl v i : nat) (j : Z) w w' :
  blk = fresh (dom (heap w)) → nrl = nrow_local old →
  stored (heap w) old →
  (Z.of_nat (Nvector old) < 2147483648)%Z →
  (Z.of_nat (nrow_local old) < 2147483648)%Z →
  pointer_of new v = Some (Ptr blk (v * nrl)) →
  v < n → i < nrl →
  index !! v = Some j → (0 ≤ j < Z.of_nat (Nvector old))%Z →
  copying w blk n nrl w' →
  ∃ w'', (index_v ← from_option (index !! v);
          c ← call cfg old index_v (int_of_unsigned i);
          x ← read_reference c;
          p ← Values_at new v;
          store p i x) w' = Ok tt w'' ∧
         copying w blk n nrl w''.
Proof.
  intros Hblk Hnrl_eq Hstored HN Hnrl Hptr Hv Hi Hj [Hj0 HjN]
    (Hmpi & Hdom & Hsome & Hframe).
  destruct (stored_frame (heap w) (heap w') old Hstored Hframe) as [Hstored' Hsame].
  destruct (call_in_range cfg old (Z.to_nat j) i w' Hstored' ltac:(lia)
              ltac:(by rewrite <- Hnrl_eq) HN Hnrl)
    as (c & Hcall & _ & Hslot).
  rewrite Z2Nat.id in Hcall by done.
  eexists. split.
  - rewrite Hj. unfold from_option at 1.
    unfold mbind at 1, M_bind at 1, bind at 1, ret at 1.
    rewrite int_of_unsigned_small by lia.
    rewrite (mbind_Ok _ _ _ _ _ Hcall).
    rewrite (mbind_Ok _ _ _ _ _ (read_reference_Ok _ _ _ Hslot)).
    rewrite (mbind_Ok _ _ _ _ _ (Values_at_Ok _ _ _ _ Hptr)).
    apply store_Ok. unfold cell_of. simpl. by apply Hsome.
  - change (cell_of (Ptr blk (v * nrl)) i) with (blk, v * nrl + i).
    unfold copying, with_heap. cbn [heap mpi_calls].
    split; [done |]. split; [by rewrite dom_set_slot |]. split.
    + intros v' i' Hv' Hi'.
      destruct (decide ((blk, v * nrl + i) = (blk, v' * nrl + i'))) as [<-|Hne].
      * rewrite slot_set_slot_eq; [by eexists | by apply Hsome].
      * rewrite slot_set_slot_ne by done. by apply Hsome.
    + intros c0 Hc0. rewrite slot_set_slot_ne; [by apply Hframe |].
      intros Heq. apply (is_fresh (dom (heap w))). rewrite <- Hblk.
      replace blk with (c0.1) by (by rewrite <- Heq). by apply slot_Some_block.
Qed.

(** X18: an exception in the deep column selection leaks the new block.
    In a [RANGE_CHECKING] build, when the first index that is not in
    [0, Nvector) is greater than [Nvector] and the local part has at least
    one row, the constructor [DoubleMultiVector(old_vector, index, true)]
    leaves by the range error of [operator()].  No destructor runs for the
    object under construction, so the block that [build] allocated for it is
    still in the heap: the heap has one block more than before, and every
    double that existed before is unchanged. *)
Theorem from_columns_deep_throws_and_leaks (cfg : build_config)
    (old : DoubleMultiVector) (index : list Z) (k : nat) (j : Z) (w : world) :
  RANGE_CHECKING cfg = true →
  dist_built (Distribution_pt old) = true →
  stored (heap w) old →
  index !! k = Some j → (j > Z.of_nat (Nvector old))%Z →
  (∀ v j', v < k → index !! v = Some j' → (0 ≤ j' < Z.of_nat (Nvector old))%Z) →
  0 < nrow_local old →
  (Z.of_nat (Nvector old) < 2147483648)%Z →
  (Z.of_nat (nrow_local old) < 2147483648)%Z →
  (Z.of_nat (nrow_local old) * Z.of_nat (length index) < 4294967296)%Z →
  (Z.of_nat (length index) < 4294967296)%Z →
  ∃ e w',
    DoubleMultiVector_from_columns cfg old index true w = Throw e w' ∧
    error_function e = "DoubleMultiVector::operator()" ∧
    mpi_calls w' = mpi_calls w ∧
    dom (heap w') = {[fresh (dom (heap w))]} ∪ dom (heap w) ∧
    fresh (dom (heap w)) ∉ dom (heap w) ∧
    (∀ c0, is_Some (slot (heap w) c0) → slot (heap w') c0 = slot (heap w) c0).
Proof.
  intros Hrc Hdist Hstored Hk Hj Hbefore Hrows HN Hnrl Hsmall Hlen.
  set (n := length index). set (nrl := nrow_local old).
  set (blk := fresh (dom (heap w))).
  set (new := MkDoubleMultiVector (Distribution_pt old)
                (Some ((λ v, Some (Ptr blk (v * nrl))) <$> seq 0 n)) n true true).
  set (w0 := with_heap w (<[blk := replicate (n * nrl) (Some 0%float)]> (heap w))).
  assert (Hbuild :
    build n (other_distribution (Distribution_pt old)) 0
      {| Distribution_pt := unbuilt_distribution; Values := None; Nvector := 0;
         Internal_values := true; Built := false |} w = Ok new w0).
  { by apply (build_fresh _ (other_distribution (Distribution_pt old))). }
  assert (Hnew_ptr : ∀ v, v < n → pointer_of new v = Some (Ptr blk (v * nrl))).
  { intros v Hv. unfold pointer_of, new. simpl.
    rewrite list_lookup_fmap, lookup_seq_lt by done. done. }
  assert (Hkn : k < n) by (by eapply lookup_lt_Some).
  assert (Hstart : copying w blk n nrl w0).
  { split; [done |]. split; [by unfold w0; simpl; rewrite dom_insert_L |]. split.
    - intros v i Hv Hi. unfold w0. simpl. rewrite slot_insert_block. simpl.
      rewrite decide_True by done. rewrite lookup_replicate_2 by nia. by eexists.
    - intros c0 Hc0. unfold w0. simpl. rewrite slot_insert_block.
      rewrite decide_False; [done |]. intros Heq.
      apply (is_fresh (dom (heap w))). fold blk. rewrite <- Heq.
      by apply slot_Some_block. }
  destruct (for_loop_throws
    (λ v (_ : unit) w', copying w blk n nrl w')
    (λ e w', error_function e = "DoubleMultiVector::operator()" ∧ copying w blk n nrl w')
    (λ v _, for_loop nrl (λ i _,
       index_v ← from_option (index !! v);
       c ← call cfg old index_v (int_of_unsigned i);
       x ← read_reference c;
       p ← Values_at new v;
       store p i x) tt) k n tt w0)
    as (e & w' & Hrun & He & Hmpi & Hdom & _ & Hframe); [done | done | | |].
  - intros v [] w1 Hv HI.
    destruct (lookup_lt_is_Some_2 index v ltac:(lia)) as [j' Hj'].
    destruct (for_loop_invariant (λ i (_ : unit) w', copying w blk n nrl w')
      (λ i _,
         index_v ← from_option (index !! v);
         c ← call cfg old index_v (int_of_unsigned i);
         x ← read_reference c;
         p ← Values_at new v;
         store p i x) nrl tt w1) as ([] & w2 & Hrun2 & HI2); [done | |].
    + intros i [] w2 Hi HI2.
      destruct (copying_step cfg old new index blk n nrl v i j' w w2
                  eq_refl eq_refl Hstored HN Hnrl (Hnew_ptr v ltac:(lia)) ltac:(lia) Hi
                  Hj' (Hbefore v j' Hv Hj') HI2)
        as (w3 & Hstep & HI3).
      by exists tt, w3.
    + by exists tt, w2.
  - intros [] w1 HI.
    apply (for_loop_throws (λ i (_ : unit) w', w' = w1)
             (λ e w', error_function e = "DoubleMultiVector::operator()" ∧
                      copying w blk n nrl w') _ 0 nrl tt w1); [done | done | |].
    + intros i a s0 Hi. lia.
    + intros [] s0 ->.
      assert (Hcall : ∃ e, call cfg old j (int_of_unsigned 0) w1 = Throw e w1 ∧
                           error_function e = "DoubleMultiVector::operator()").
      { unfold call. rewrite Hrc.
        rewrite (int_of_unsigned_small (Nvector old)) by done.
        destruct (Z.gtb_spec j (Z.of_nat (Nvector old))) as [_|]; [| lia].
        destruct (int_of_unsigned 0 >=? int_of_unsigned (nrow_local old))%Z;
          cbv zeta beta iota; eexists; (split; [reflexivity | reflexivity]). }
      destruct Hcall as (e & Hcall & He).
      exists e, w1. split; [| done].
      rewrite Hk. unfold from_option at 1.
      unfold mbind at 1, M_bind at 1, bind at 1, ret at 1.
      by apply mbind_Throw.
  - exists e, w'. split; [| split; [done |]; split; [done |]; split; [done |];
                          split; [apply is_fresh | done]].
    unfold DoubleMultiVector_from_columns.
    rewrite wrap_unsigned_small by done. fold n. cbv iota.
    apply mbind_Throw.
    rewrite (mbind_Ok _ _ _ _ _ Hbuild).
    change (nrow_local new) with nrl.
    by apply mbind_Throw.
Qed.

End RangeCheckFacts.

Module CompoundAssignFacts.
Import Oomph OomphFacts DoubleMultiVector HeapFacts BuildFacts CopyFacts CompoundFacts.
Import PlusMinusFacts.

(** X19: [operator+=] and [operator-=] work entry by entry, also on
    the object itself.  For built [a] and [b] with the same distribution,
    their storage in place, [a] addressing no double twice, and [b] holding at
    least one vector and at least as many as [a], each operator returns
    normally in every build, makes no MPI call, leaves the set of blocks as it
    was (the copy made for the by-value parameter is freed again), changes no
    double outside [a], and leaves in [a(v,i)] the double sum, respectively
    difference, of the old [a(v,i)] and the old [b(v,i)].  Nothing is asked
    about sharing between [a] and [b]: the argument is copied before the
    loops run, so [a += a] doubles every entry. *)
Theorem compound_assign_entrywise (cfg : build_config) (a b : DoubleMultiVector)
    (w : world) :
  Built a = true → Built b = true →
  dist_built (Distribution_pt b) = true →
  Distribution_pt a = Distribution_pt b →
  stored (heap w) a → stored (heap w) b → unshared a →
  Nvector a ≤ Nvector b → 0 < Nvector b →
  (Z.of_nat (nrow_local b) * Z.of_nat (Nvector b) < 4294967296)%Z →
  (∃ w', plus_assign cfg a b w = Ok tt w' ∧
         mpi_calls w' = mpi_calls w ∧ dom (heap w') = dom (heap w) ∧
         (∀ v i, v < Nvector a → i < nrow_local a →
            value_at (heap w') a v i
            = Some (entry_value (heap w) a v i + entry_value (heap w) b v i)%float) ∧
         (∀ c, (∀ v i, v < Nvector a → i < nrow_local a → address a v i ≠ Some c) →
               slot (heap w') c = slot (heap w) c)) ∧
  (∃ w', minus_assign cfg a b w = Ok tt w' ∧
         mpi_calls w' = mpi_calls w ∧ dom (heap w') = dom (heap w) ∧
         (∀ v i, v < Nvector a → i < nrow_local a →
            value_at (heap w') a v i
            = Some (entry_value (heap w) a v i - entry_value (heap w) b v i)%float) ∧
         (∀ c, (∀ v i, v < Nvector a → i < nrow_local a → address a v i ≠ Some c) →
               slot (heap w') c = slot (heap w) c)).
Proof.
  intros Ha Hb Hdist Hsame Hsa Hsb Hunshared Hle Hpos Hsmall. split.
  - rewrite plus_assign_by_value.
    apply by_value_spec; try done.
    intros blk w1. by apply plus_checks_pass.
  - rewrite minus_assign_by_value.
    apply by_value_spec; try done.
    intros blk w1. by apply minus_checks_pass.
Qed.

Lemma compound_assign_entrywise_witness :
  ∃ w', plus_assign checked_build (vector_in_block 0) (vector_in_block 0) (world_of 1.5 8)
        = Ok tt w' ∧
        value_at (heap w') (vector_in_block 0) 0 0 = Some 3%float.
Proof.
  destruct (compound_assign_entrywise checked_build (vector_in_block 0) (vector_in_block 0)
              (world_of 1.5 8)) as [(w' & Hrun & _ & _ & Hvalue & _) _].
  - reflexivity.
  - reflexivity.
  - reflexivity.
  - reflexivity.
  - apply stored_vector_in_block. lia.
  - apply stored_vector_in_block. lia.
  - intros v i v' i' Hv Hi Hv' Hi' _. simpl in Hv, Hv'.
    unfold nrow_local in Hi, Hi'. simpl in Hi, Hi'. lia.
  - simpl. lia.
  - simpl. lia.
  - reflexivity.
  - exists w'. split; [exact Hrun |].
    rewrite (Hvalue 0 0); [vm_compute; reflexivity | simpl; lia | vm_compute; lia].
Defined.

(** The by-value parameter when the body throws: the copy is destroyed and
    the exception goes on. *)
Lemma by_value_throws checks op (this b : DoubleMultiVector) e w :
  (∀ blk w1, checks (copy_of b blk) w1 = Throw e w1) →
  Built b = true →
  dist_built (Distribution_pt b) = true →
  stored (heap w) b → 0 < Nvector b →
  (Z.of_nat (nrow_local b) * Z.of_nat (Nvector b) < 4294967296)%Z →
  ∃ w', by_value checks op this b w = Throw e w' ∧
        mpi_calls w' = mpi_calls w ∧
        dom (heap w') = dom (heap w) ∧
        (∀ c, slot (heap w') c = slot (heap w) c).
Proof.
  intros Hchecks Hbuilt Hdist Hb Hpos Hsmall.
  set (blk := fresh (dom (heap w))).
  destruct (copy_constructor_spec b w Hbuilt Hdist Hb Hsmall)
    as (w1 & Hcopy & Hmpi1 & Hdom1 & _ & Hframe1).
  fold blk in Hcopy, Hdom1, Hframe1.
  assert (Hlive : blk ∈ dom (heap w1)) by (rewrite Hdom1; set_solver).
  exists (with_heap w1 (delete blk (heap w1))).
  split; [| split; [done |]; split].
  - unfold by_value. rewrite (mbind_Ok _ _ _ _ _ Hcopy).
    unfold with_parameter, mbind, M_bind, bind. rewrite (Hchecks blk w1).
    by rewrite (destructor_copy_of b blk w1 Hpos Hlive).
  - simpl. rewrite dom_delete_L, Hdom1.
    pose proof (is_fresh (dom (heap w))) as Hfresh. fold blk in Hfresh. set_solver.
  - intros c. simpl. rewrite slot_delete_block. case_decide as Hblk.
    + destruct c as [cb ci]. simpl in Hblk. subst cb. symmetry. apply slot_fresh_block.
    + by apply Hframe1.
Qed.

(** X20: the checks of [operator+=] and [operator-=] in a [PARANOID]
    build.  The argument is copied first.  When it is not built, the copy is
    a default-constructed object, nothing is allocated, and the operators
    throw: [+=] "This vector must be setup." when [this] is not built either
    and "The vector v must be setup." otherwise; [-=] looks at the
    distribution of [this] instead of its [Built] flag.  When both are built
    (the storage of the argument in place, at least one vector) and the
    distributions differ, both throw "The vector v and this vector must have
    the same distribution."; the copy is destroyed on the way out, so no
    block is left behind and no double has changed. *)
Theorem compound_assign_checks (cfg : build_config) (a b : DoubleMultiVector) (w : world) :
  PARANOID cfg = true →
  (Built b = false →
   plus_assign cfg a b w
   = Throw (paranoid_error "DoubleMultiVector::operator+="
              (if Built a then "The vector v must be setup."
               else "This vector must be setup.")) w ∧
   minus_assign cfg a b w
   = Throw (paranoid_error "DoubleMultiVector::operator-="
              (if dist_built (Distribution_pt a) then "The vector v must be setup."
               else "This vector must be setup.")) w) ∧
  (Built a = true → Built b = true →
   dist_built (Distribution_pt a) = true →
   dist_built (Distribution_pt b) = true →
   Distribution_pt b ≠ Distribution_pt a →
   stored (heap w) b → 0 < Nvector b →
   (Z.of_nat (nrow_local b) * Z.of_nat (Nvector b) < 4294967296)%Z →
   (∃ w', plus_assign cfg a b w
          = Throw (paranoid_error "DoubleMultiVector::operator+="
                     "The vector v and this vector must have the same distribution.") w' ∧
          mpi_calls w' = mpi_calls w ∧ dom (heap w') = dom (heap w) ∧
          (∀ c, slot (heap w') c = slot (heap w) c)) ∧
   (∃ w', minus_assign cfg a b w
          = Throw (paranoid_error "DoubleMultiVector::operator-="
                     "The vector v and this vector must have the same distribution.") w' ∧
          mpi_calls w' = mpi_calls w ∧ dom (heap w') = dom (heap w) ∧
          (∀ c, slot (heap w') c = slot (heap w) c))).
Proof.
  intros Hparanoid. split.
  - intros Hb.
    assert (Hcopy : copy_constructor b w = Ok DoubleMultiVector_default w).
    { by apply copy_constructor_unbuilt. }
    split.
    + unfold plus_assign. rewrite (mbind_Ok _ _ _ _ _ Hcopy).
      unfold with_parameter, mbind, M_bind, bind, built. rewrite Hparanoid.
      by destruct (Built a).
    + unfold minus_assign. rewrite (mbind_Ok _ _ _ _ _ Hcopy).
      unfold with_parameter, mbind, M_bind, bind, built, distribution_built.
      rewrite Hparanoid. by destruct (dist_built (Distribution_pt a)).
  - intros Ha Hb Hda Hdb Hne Hsb Hpos Hsmall. split.
    + rewrite plus_assign_by_value. apply by_value_throws; try done.
      intros blk w1. unfold plus_checks, built. rewrite Hparanoid, Ha. simpl.
      by rewrite bool_decide_eq_false_2.
    + rewrite minus_assign_by_value. apply by_value_throws; try done.
      intros blk w1. unfold minus_checks, built, distribution_built.
      rewrite Hparanoid, Hda. simpl.
      by rewrite bool_decide_eq_false_2.
Qed.

(** A vector of one row added to a vector of two rows. *)
Lemma compound_assign_checks_witness :
  ∃ w', plus_assign checked_build (two_rows_in_block 0) (vector_in_block 1)
          (world_of_two_rows 1 2 3 4)
        = Throw (paranoid_error "DoubleMultiVector::operator+="
                   "The vector v and this vector must have the same distribution.") w' ∧
        dom (heap w') = dom (heap (world_of_two_rows 1 2 3 4)).
Proof.
  destruct (compound_assign_checks checked_build (two_rows_in_block 0) (vector_in_block 1)
              (world_of_two_rows 1 2 3 4) eq_refl) as [_ H].
  destruct H as [(w' & Hrun & _ & Hdom & _) _].
  - reflexivity.
  - reflexivity.
  - reflexivity.
  - reflexivity.
  - discriminate.
  - split.
    + intros v Hv. simpl in Hv. destruct v; [by eexists | lia].
    + intros v i Hv Hi. simpl in Hv. unfold nrow_local in Hi. simpl in Hi.
      destruct i; [| lia]. destruct v; [by eexists | lia].
  - simpl. lia.
  - reflexivity.
  - exists w'. split; [exact Hrun | exact Hdom].
Defined.

End CompoundAssignFacts.

(** *** The properties above on concrete objects *)

Module StorageExamples.
Import Oomph OomphFacts DoubleMultiVector HeapFacts BuildFacts CopyFacts PlusMinusFacts.
Import StorageFacts CopyConstructorFacts EqualFacts ScaleFacts ViewFacts ColumnFacts.
Import RangeCheckFacts.

Lemma stored_two_vectors_in_block x y0 y1 :
  stored (heap (world_of_three x y0 y1)) (two_vectors_in_block 1).
Proof.
  split.
  - intros v Hv. simpl in Hv. destruct v as [|[|v]]; [by eexists | by eexists | lia].
  - intros v i Hv Hi. simpl in Hv. unfold nrow_local in Hi. simpl in Hi.
    destruct i; [| lia].
    destruct v as [|[|v]]; [by eexists | by eexists | lia].
Qed.

Lemma stored_one_in_three x y0 y1 :
  stored (heap (world_of_three x y0 y1)) (vector_in_block 0).
Proof.
  split.
  - intros v Hv. simpl in Hv. destruct v; [by eexists | lia].
  - intros v i Hv Hi. simpl in Hv. unfold nrow_local in Hi. simpl in Hi.
    destruct i; [| lia]. destruct v; [by eexists | lia].
Qed.

(** The copy of a vector that holds 7.0 holds 7.0 in a block of its own. *)
Lemma copy_constructor_deep_copy_witness :
  ∃ c w1,
    copy_constructor (vector_in_block 0) (world_of 7 8) = Ok c w1 ∧
    value_at (heap w1) c 0 0 = Some 7%float ∧
    apart c (vector_in_block 0).
Proof.
  destruct (copy_constructor_deep_copy (vector_in_block 0) (world_of 7 8)) as [_ H].
  destruct H as (c & w1 & Hrun & _ & _ & _ & _ & _ & _ & _ & Hapart & Hvalue & _);
    [reflexivity | reflexivity | apply stored_vector_in_block; lia | reflexivity |].
  exists c, w1. split; [exact Hrun |]. split; [| exact Hapart].
  rewrite (Hvalue 0 0); [reflexivity | simpl; lia | vm_compute; lia].
Defined.

(** A vector of one entry against an object of two vectors whose first
    entry is the same: equal. *)
Lemma equal_compares_entries_witness :
  ∃ r : bool,
    equal (vector_in_block 0) (two_vectors_in_block 1) (world_of_three 1 1 2)
    = Ok r (world_of_three 1 1 2) ∧
    (r = true ↔
     agree (heap (world_of_three 1 1 2)) (vector_in_block 0) (two_vectors_in_block 1)).
Proof.
  destruct (equal_compares_entries (vector_in_block 0) (two_vectors_in_block 1)
              (world_of_three 1 1 2)) as (_ & _ & H).
  apply H; [reflexivity | reflexivity | apply stored_one_in_three |].
  split.
  - intros v Hv. simpl in Hv. destruct v; [by eexists | lia].
  - intros v i Hv Hi. simpl in Hv. unfold nrow_local in Hi. simpl in Hi.
    destruct i; [| lia]. destruct v; [by eexists | lia].
Defined.

(** A vector whose only entry is a NaN is not equal to itself. *)
Lemma equal_to_itself_iff_no_nan_witness :
  ∃ r : bool,
    equal (vector_in_block 0) (vector_in_block 0) (world_of not_a_number 1)
    = Ok r (world_of not_a_number 1) ∧ r = false.
Proof.
  destruct (equal_to_itself_iff_no_nan (vector_in_block 0) (world_of not_a_number 1))
    as (r & Hrun & Hiff); [reflexivity | apply stored_vector_in_block; lia |].
  exists r. split; [exact Hrun |].
  destruct r; [| reflexivity].
  assert (H : PrimFloat.is_nan
                (entry_value (heap (world_of not_a_number 1)) (vector_in_block 0) 0 0)
              = false).
  { apply (proj1 Hiff eq_refl 0 0); [simpl; lia | vm_compute; lia]. }
  vm_compute in H. discriminate H.
Defined.

(** [a = b] for [a] of one vector and [b] of two, the first entries being
    equal: [a] still has one vector. *)
Lemma assign_skipped_when_entries_agree_witness :
  assign (other_vector (two_vectors_in_block 1)) (vector_in_block 0) (world_of_three 1 1 2)
  = Ok (vector_in_block 0) (world_of_three 1 1 2) ∧
  nvector (vector_in_block 0) = 1 ∧ nvector (two_vectors_in_block 1) = 2.
Proof.
  destruct (assign_skipped_when_entries_agree (vector_in_block 0)
              (other_vector (two_vectors_in_block 1))
              (world_of_three 1 1 2)) as (H & _ & _).
  - reflexivity.
  - reflexivity.
  - apply stored_one_in_three.
  - split.
    + intros v Hv. simpl in Hv. destruct v; [by eexists | lia].
    + intros v i Hv Hi. simpl in Hv. unfold nrow_local in Hi. simpl in Hi.
      destruct i; [| lia]. destruct v; [by eexists | lia].
  - intros v i Hv Hi. simpl in Hv. unfold nrow_local in Hi. simpl in Hi.
    destruct i; [| lia]. destruct v; [reflexivity | lia].
  - split; [exact H |]. split; reflexivity.
Defined.

(** Two vectors of one row each, set to 5.0. *)
Lemma initialise_sets_every_entry_witness :
  ∃ w', initialise 5 (two_vectors_in_block 1) (world_of_three 1 2 3) = Ok tt w' ∧
        value_at (heap w') (two_vectors_in_block 1) 0 0 = Some 5%float ∧
        value_at (heap w') (two_vectors_in_block 1) 1 0 = Some 5%float ∧
        slot (heap w') (0, 0) = Some (Some 1%float).
Proof.
  destruct (initialise_sets_every_entry 5 (two_vectors_in_block 1) (world_of_three 1 2 3))
    as [_ H].
  destruct H as (w' & Hrun & _ & _ & Hvalue & Hframe); [reflexivity | |].
  - apply stored_allocated, stored_two_vectors_in_block.
  - exists w'. split; [exact Hrun |].
    split; [apply Hvalue; [simpl; lia | vm_compute; lia] |].
    split; [apply Hvalue; [simpl; lia | vm_compute; lia] |].
    rewrite Hframe; [reflexivity |].
    intros v i Hv Hi. simpl in Hv. unfold nrow_local in Hi. simpl in Hi.
    destruct i; [| lia]. destruct v as [|[|v]]; [discriminate | discriminate | lia].
Defined.


(** A default-constructed object made a view of the vector in block 1. *)
Lemma shallow_build_copy_shares_storage_witness :
  ∃ view,
    shallow_build_copy (other_vector (vector_in_block 1)) DoubleMultiVector_default
      (world_of 7 8)
    = Ok view (world_of 7 8) ∧
    pointer_of view 0 = Some (Ptr 1 0) ∧
    destructor view (world_of 7 8) = Ok tt (world_of 7 8).
Proof.
  destruct (shallow_build_copy_shares_storage (vector_in_block 1) DoubleMultiVector_default
              (world_of 7 8))
    as (view & Hrun & _ & _ & _ & _ & Hptr & _ & _ & Hdestroy).
  - reflexivity.
  - reflexivity.
  - reflexivity.
  - intros v Hv. simpl in Hv. destruct v; [by eexists | lia].
  - exists view. split; [exact Hrun |]. split; [| exact Hdestroy].
    rewrite (Hptr 0); [reflexivity | simpl; lia].
Defined.

(** The vector that owns block 0 and holds a NaN, made a view of the
    vector in block 1, and made a view of itself: block 0 is still allocated
    after either. *)
Lemma shallow_build_copy_keeps_owned_block_witness :
  (∃ view,
     shallow_build_copy (other_vector (vector_in_block 1)) (vector_in_block 0)
       (world_of not_a_number 8) = Ok view (world_of not_a_number 8) ∧
     pointer_of view 0 = Some (Ptr 1 0)) ∧
  shallow_build_copy this_vector (vector_in_block 0) (world_of not_a_number 8)
  = Ok (MkDoubleMultiVector unbuilt_distribution None 1 false false)
       (world_of not_a_number 8) ∧
  0 ∈ dom (heap (world_of not_a_number 8)).
Proof.
  destruct (shallow_build_copy_keeps_owned_block (vector_in_block 0) 0
              (world_of not_a_number 8)) as (_ & Hother & Hitself).
  - reflexivity.
  - reflexivity.
  - vm_compute. set_solver.
  - split; [| split].
    + destruct (Hother (vector_in_block 1)) as (view & this1 & Hrun & Hptr & _).
      * vm_compute. reflexivity.
      * reflexivity.
      * intros v Hv. simpl in Hv. destruct v; [by eexists | lia].
      * exists view. split; [exact Hrun |].
        rewrite (Hptr 0); [reflexivity | simpl; lia].
    + apply Hitself. vm_compute. reflexivity.
    + vm_compute. set_solver.
Defined.

(** A view of block 0, which holds a NaN.  Assigned the vector in block 1:
    block 0, which the view did not own, is freed.  Handed to its own
    [build(old_vector)]: block 0 is freed and the view is left not built;
    assigned to itself: undefined behaviour. *)
Lemma assign_frees_first_block_witness :
  (∃ w1,
     assign (other_vector (vector_in_block 1)) (view_of (vector_in_block 0))
       (world_of not_a_number 8)
     = Ok (copy_of (vector_in_block 1)
             (fresh (dom (heap (world_of not_a_number 8)) ∖ {[0]}))) w1 ∧
     dom (heap w1)
     = {[fresh (dom (heap (world_of not_a_number 8)) ∖ {[0]})]}
       ∪ (dom (heap (world_of not_a_number 8)) ∖ {[0]})) ∧
  Internal_values (view_of (vector_in_block 0)) = false ∧
  build_copy this_vector (view_of (vector_in_block 0)) (world_of not_a_number 8)
  = Ok (MkDoubleMultiVector unbuilt_distribution None 1 true false)
       (with_heap (world_of not_a_number 8) (delete 0 (heap (world_of not_a_number 8)))) ∧
  assign this_vector (view_of (vector_in_block 0)) (world_of not_a_number 8) = Undefined.
Proof.
  destruct (assign_frees_first_block (view_of (vector_in_block 0)) 0
              (world_of not_a_number 8)) as (Hother & Hitself).
  - reflexivity.
  - vm_compute. set_solver.
  - split; [| split; [reflexivity |]].
    + destruct (Hother (vector_in_block 1)) as (w1 & Hrun & _ & _ & Hdom & _).
      * vm_compute. reflexivity.
      * reflexivity.
      * reflexivity.
      * split.
        -- intros v Hv. simpl in Hv. destruct v; [by eexists | lia].
        -- intros v i Hv Hi. simpl in Hv. unfold nrow_local in Hi. simpl in Hi.
           destruct i; [| lia]. destruct v; [by eexists | lia].
      * reflexivity.
      * exists w1. split; [exact Hrun | exact Hdom].
    + apply Hitself. vm_compute. reflexivity.
Defined.

(** The columns 1, 0, 1 of an object of two vectors, as a view: the first
    and the third vector of the view are the same column. *)
Lemma from_columns_shallow_shares_columns_witness :
  ∃ view,
    DoubleMultiVector_from_columns checked_build (two_vectors_in_block 1) [1; 0; 1]%Z false
      (world_of_three 1 2 3) = Ok view (world_of_three 1 2 3) ∧
    Nvector view = 3 ∧
    pointer_of view 0 = Some (Ptr 1 1) ∧
    pointer_of view 1 = Some (Ptr 1 0) ∧
    pointer_of view 2 = Some (Ptr 1 1).
Proof.
  destruct (from_columns_shallow_shares_columns checked_build (two_vectors_in_block 1)
              [1; 0; 1]%Z (world_of_three 1 2 3))
    as (view & Hrun & _ & _ & Hn & _ & Hptr & _).
  - reflexivity.
  - intros v Hv. simpl in Hv. destruct v as [|[|v]]; [by eexists | by eexists | lia].
  - intros j Hj. simpl. set_solver by lia.
  - reflexivity.
  - reflexivity.
  - exists view. split; [exact Hrun |]. split; [exact Hn |].
    split; [| split].
    + by destruct (Hptr ∅ 0 0 1%Z eq_refl) as (-> & _).
    + by destruct (Hptr ∅ 1 0 0%Z eq_refl) as (-> & _).
    + by destruct (Hptr ∅ 2 0 1%Z eq_refl) as (-> & _).
Defined.


(** The columns 0, 3 of an object of two vectors: the second index is
    refused, after the block for the copy has been allocated. *)
Lemma from_columns_deep_throws_and_leaks_witness :
  ∃ e w',
    DoubleMultiVector_from_columns checked_build (two_vectors_in_block 1) [0; 3]%Z true
      (world_of_three 1 2 3) = Throw e w' ∧
    error_function e = "DoubleMultiVector::operator()" ∧
    dom (heap w')
    = {[fresh (dom (heap (world_of_three 1 2 3)))]} ∪ dom (heap (world_of_three 1 2 3)).
Proof.
  destruct (from_columns_deep_throws_and_leaks checked_build (two_vectors_in_block 1)
              [0; 3]%Z 1 3%Z (world_of_three 1 2 3))
    as (e & w' & Hrun & He & _ & Hdom & _).
  - reflexivity.
  - reflexivity.
  - apply stored_two_vectors_in_block.
  - reflexivity.
  - simpl. lia.
  - intros v j' Hv Hj'. destruct v; [| lia]. injection Hj' as <-. simpl. lia.
  - vm_compute. lia.
  - reflexivity.
  - reflexivity.
  - reflexivity.
  - reflexivity.
  - exists e, w'. split; [exact Hrun |]. split; [exact He | exact Hdom].
Defined.

End StorageExamples.

(** ** The space-time block preconditioners: more on [clean_up_memory] *)

Module CleanUpMoreFacts.
Import Oomph OomphFacts SpaceTimeBlockPreconditioner BandedBlockTriangular.
Import CleanUpFacts LoopExitFacts.

(** The first place at which a decidable property of the natural numbers
    that holds at 0 stops holding. *)
Lemma first_failure (P : nat → Prop) `{∀ k, Decision (P k)} (n : nat) :
  P 0 → ¬ P n → ∃ k, k < n ∧ P k ∧ ¬ P (S k).
Proof.
  intros H0 Hn. induction n as [|n IH]; [done |].
  destruct (decide (P n)) as [Hp|Hp].
  - exists n. split; [lia | done].
  - destruct (IH Hp) as (k & Hk & Hpk & Hnk). exists k. split; [lia | done].
Qed.

Section WithTable.

Variable d0 : DenseMatrix (option nat).
Variable w0 : world.

Abbreviation owned_up_to := (SpaceTimeBlockPreconditioner.owned_up_to d0 w0).

Lemma owned_up_to_le k k' : k' ≤ k → owned_up_to k → owned_up_to k'.
Proof.
  intros Hle [Hnd Hlive].
  assert (Hsplit : take k (Matrixdata d0)
                   = take k' (Matrixdata d0) ++ drop k' (take k (Matrixdata d0))).
  { rewrite <- (take_drop k' (take k (Matrixdata d0))) at 1.
    by rewrite take_take, Nat.min_l by done. }
  rewrite Hsplit, omap_app in Hnd, Hlive.
  split.
  - by apply NoDup_app in Hnd as (Hnd & _ & _).
  - by apply Forall_app in Hlive as [Hlive _].
Qed.

(** One turn of the inner loop when the operators up to and including the
    slot at hand are owned. *)
Lemma delete_and_null_owned i j d w :
  j < M_ d0 → M_ d0 * i + j < length (Matrixdata d0) →
  owned_up_to (S (M_ d0 * i + j)) →
  cleaned_up_to d0 w0 (M_ d0 * i + j) d w →
  ∃ d' w', delete_and_null i j d w = Ok d' w' ∧
           cleaned_up_to d0 w0 (M_ d0 * i + S j) d' w'.
Proof.
  intros Hj Hk [Hnodup Hlive] [-> ->].
  set (k := M_ d0 * i + j) in *.
  replace (M_ d0 * i + S j) with (S k) by lia.
  destruct (lookup_lt_is_Some_2 (Matrixdata d0) k Hk) as [x Hx].
  assert (Hentry : entry (MkDenseMatrix (N d0) (M_ d0)
                     (replicate k None ++ drop k (Matrixdata d0))) i j = Some x).
  { unfold entry. simpl. fold k.
    rewrite lookup_app_r by (rewrite length_replicate; lia).
    rewrite length_replicate, Nat.sub_diag, lookup_drop, Nat.add_0_r. done. }
  assert (Hset : set_entry (MkDenseMatrix (N d0) (M_ d0)
                     (replicate k None ++ drop k (Matrixdata d0))) i j None
                 = Some (MkDenseMatrix (N d0) (M_ d0)
                     (replicate (S k) None ++ drop (S k) (Matrixdata d0)))).
  { unfold set_entry. simpl. fold k.
    rewrite decide_True
      by (rewrite length_app, length_replicate, length_drop; lia).
    do 2 f_equal.
    rewrite insert_app_r_alt by (rewrite length_replicate; lia).
    rewrite length_replicate, Nat.sub_diag.
    rewrite (drop_S _ _ _ Hx). simpl.
    rewrite cons_middle, app_assoc, <- replicate_S_end. done. }
  assert (Htake : take (S k) (Matrixdata d0) = take k (Matrixdata d0) ++ [x])
    by (by apply take_S_r).
  rewrite Htake, omap_app in Hnodup, Hlive.
  unfold delete_and_null.
  destruct x as [a|].
  - simpl in Hnodup, Hlive.
    apply NoDup_app in Hnodup as (_ & Hnew & _).
    apply Forall_app in Hlive as [_ Hlive]. rewrite Forall_singleton in Hlive.
    eexists _, _. split.
    + unfold mbind, M_bind, bind, from_option, ret. rewrite Hentry. simpl.
      rewrite decide_True.
      * rewrite Hset. reflexivity.
      * apply elem_of_difference. split; [done |].
        rewrite elem_of_list_to_set. intros Hin. apply (Hnew a Hin).
        by apply list_elem_of_singleton.
    + split; [done |]. rewrite Htake, omap_app. simpl. f_equal.
      * rewrite list_to_set_app_L. simpl. set_solver.
      * rewrite fmap_app, <- app_assoc. done.
  - eexists _, _. split.
    + unfold mbind, M_bind, bind, from_option, ret. rewrite Hentry. simpl.
      rewrite Hset. reflexivity.
    + split; [done |]. rewrite Htake, omap_app. simpl.
      by rewrite app_nil_r.
Qed.

(** The turn of the inner loop that meets an operator that is not live any
    more, or was deleted in an earlier turn. *)
Lemma delete_and_null_not_owned i j d w :
  M_ d0 * i + j < length (Matrixdata d0) →
  owned_up_to (M_ d0 * i + j) →
  ¬ owned_up_to (S (M_ d0 * i + j)) →
  cleaned_up_to d0 w0 (M_ d0 * i + j) d w →
  delete_and_null i j d w = Undefined.
Proof.
  intros Hk [Hnodup Hlive] Hnot [-> ->].
  set (k := M_ d0 * i + j) in *.
  destruct (lookup_lt_is_Some_2 (Matrixdata d0) k Hk) as [x Hx].
  assert (Hentry : entry (MkDenseMatrix (N d0) (M_ d0)
                     (replicate k None ++ drop k (Matrixdata d0))) i j = Some x).
  { unfold entry. simpl. fold k.
    rewrite lookup_app_r by (rewrite length_replicate; lia).
    rewrite length_replicate, Nat.sub_diag, lookup_drop, Nat.add_0_r. done. }
  assert (Htake : take (S k) (Matrixdata d0) = take k (Matrixdata d0) ++ [x])
    by (by apply take_S_r).
  unfold delete_and_null, mbind, M_bind, bind, from_option, ret. rewrite Hentry.
  destruct x as [a|]; simpl.
  - rewrite decide_False; [done |].
    intros Hin. apply elem_of_difference in Hin as [Hlive_a Hfresh].
    apply Hnot. unfold SpaceTimeBlockPreconditioner.owned_up_to. rewrite Htake, omap_app. simpl. split.
    + apply NoDup_app. split; [done |]. split; [| apply NoDup_singleton].
      intros b Hb Hb'. apply list_elem_of_singleton in Hb'. subst b.
      apply Hfresh. by apply elem_of_list_to_set.
    + apply Forall_app. split; [done |]. by apply Forall_singleton.
  - exfalso. apply Hnot. unfold SpaceTimeBlockPreconditioner.owned_up_to. rewrite Htake, omap_app. simpl.
    by rewrite app_nil_r.
Qed.

(** The two loops stop with undefined behaviour at the first operator that
    is not owned. *)
Lemma clean_up_loops_undefined :
  length (Matrixdata d0) = N d0 * M_ d0 →
  ¬ owned_up_to (length (Matrixdata d0)) →
  for_loop (nrow d0) (λ i d,
     for_loop (ncol d) (λ j d, delete_and_null i j d) d) d0 w0 = Undefined.
Proof.
  intros Hlen Hnot.
  destruct (first_failure owned_up_to (length (Matrixdata d0)))
    as (k & Hk & Hgood & Hbad); [| done |].
  { unfold SpaceTimeBlockPreconditioner.owned_up_to. rewrite take_0. simpl. split; constructor. }
  assert (HM : 0 < M_ d0) by nia.
  set (i0 := k / M_ d0). set (j0 := k mod M_ d0).
  assert (Hk_eq : k = M_ d0 * i0 + j0) by (apply Nat.div_mod_eq).
  assert (Hj0 : j0 < M_ d0) by (apply Nat.mod_upper_bound; lia).
  assert (Hi0 : i0 < N d0).
  { apply Nat.Div0.div_lt_upper_bound. nia. }
  apply (for_loop_undefined (λ i d w, cleaned_up_to d0 w0 (M_ d0 * i) d w)
           _ i0 (nrow d0) d0 w0); [done | | |].
  - rewrite Nat.mul_0_r. apply cleaned_up_to_start.
  - intros i d w Hi Hinv.
    assert (Hncol : ncol d = M_ d0) by (by destruct Hinv as [-> _]).
    rewrite Hncol.
    destruct (for_loop_invariant
                (λ j d w, cleaned_up_to d0 w0 (M_ d0 * i + j) d w)
                (λ j d, delete_and_null i j d) (M_ d0) d w)
      as (d' & w' & Hrun & Hinv').
    + by rewrite Nat.add_0_r.
    + intros j d1 w1 Hj Hinv1.
      apply (delete_and_null_owned i j d1 w1 Hj); [nia | | done].
      apply (owned_up_to_le k); [nia | done].
    + exists d', w'. split; [done |].
      by replace (M_ d0 * S i) with (M_ d0 * i + M_ d0) by lia.
  - intros d w Hinv.
    assert (Hncol : ncol d = M_ d0) by (by destruct Hinv as [-> _]).
    rewrite Hncol.
    apply (for_loop_undefined (λ j d w, cleaned_up_to d0 w0 (M_ d0 * i0 + j) d w)
             _ j0 (M_ d0) d w); [done | | |].
    + by rewrite Nat.add_0_r.
    + intros j d1 w1 Hj Hinv1.
      replace (M_ d0 * i0 + S j) with (M_ d0 * i0 + S j) by done.
      apply (delete_and_null_owned i0 j d1 w1); [lia | nia | | done].
      apply (owned_up_to_le k); [lia | done].
    + intros d1 w1 Hinv1.
      apply (delete_and_null_not_owned i0 j0 d1 w1); [lia | | | done].
      * by rewrite <- Hk_eq.
      * by rewrite <- Hk_eq.
Qed.

Lemma owned_up_to_all :
  length (Matrixdata d0) = N d0 * M_ d0 →
  owned_up_to (length (Matrixdata d0)) ↔ owns_operators w0 d0.
Proof.
  intros Hlen. unfold SpaceTimeBlockPreconditioner.owned_up_to, owns_operators, stored_operators.
  rewrite take_ge by done. rewrite Forall_forall. tauto.
Qed.

End WithTable.

Section WithBase.

Variable Base : Type.
Variable Base_clean_up_memory : Base → Base.

Lemma clean_up_memory_returns (p : BandedBlockTriangularPreconditioner Base) (w : world) :
  owns_operators w (Off_diagonal_matrix_vector_products Base p) →
  ∃ p' w', clean_up_memory Base Base_clean_up_memory p w = Ok p' w'.
Proof.
  intros Hown. unfold clean_up_memory. unfold mbind, M_bind.
  rewrite (bind_Ok _ _ _ _ _ (clean_up_loops _ w Hown)).
  by eexists _, _.
Qed.

(** X21: when [clean_up_memory()] is defined.  For a table of [N * M]
    slots, [clean_up_memory()] (and with it the destructor) returns normally
    if and only if the non-null slots hold pairwise different addresses of
    live operators; it never throws; and when one slot repeats the address of
    another, or holds an address that has been deleted already, the call is
    undefined behaviour (the [delete] of storage that is not live). *)
Theorem clean_up_memory_defined_iff_owned
    (p : BandedBlockTriangularPreconditioner Base) (w : world) :
  length (Matrixdata (Off_diagonal_matrix_vector_products Base p))
  = N (Off_diagonal_matrix_vector_products Base p)
    * M_ (Off_diagonal_matrix_vector_products Base p) →
  ((∃ p' w', clean_up_memory Base Base_clean_up_memory p w = Ok p' w') ↔
   owns_operators w (Off_diagonal_matrix_vector_products Base p)) ∧
  (¬ owns_operators w (Off_diagonal_matrix_vector_products Base p) →
   clean_up_memory Base Base_clean_up_memory p w = Undefined ∧
   destructor Base Base_clean_up_memory p w = Undefined) ∧
  (∀ e w', clean_up_memory Base Base_clean_up_memory p w ≠ Throw e w').
Proof.
  intros Hlen.
  set (d := Off_diagonal_matrix_vector_products Base p) in *.
  assert (Hundefined : ¬ owns_operators w d →
            clean_up_memory Base Base_clean_up_memory p w = Undefined).
  { intros Hnot. unfold clean_up_memory. fold d.
    unfold mbind, M_bind, bind.
    rewrite (clean_up_loops_undefined d w Hlen); [done |].
    by rewrite owned_up_to_all. }
  assert (Hdefined : owns_operators w d →
            ∃ p' w', clean_up_memory Base Base_clean_up_memory p w = Ok p' w').
  { apply clean_up_memory_returns. }
  assert (Hdec : Decision (owns_operators w d)).
  { destruct (decide (SpaceTimeBlockPreconditioner.owned_up_to d w (length (Matrixdata d)))) as [H|H].
    - left. by apply owned_up_to_all.
    - right. by rewrite <- owned_up_to_all. }
  split; [| split].
  - split; [| done].
    intros (p' & w' & Hrun). destruct Hdec as [Hown|Hnot]; [done |].
    rewrite (Hundefined Hnot) in Hrun. discriminate.
  - intros Hnot. split; by apply Hundefined.
  - intros e w' Hthrow. destruct Hdec as [Hown|Hnot].
    + destruct (Hdefined Hown) as (p' & w1 & Hrun). rewrite Hrun in Hthrow. discriminate.
    + rewrite (Hundefined Hnot) in Hthrow. discriminate.
Qed.

(** X22: [clean_up_memory()] keeps the configuration and the record of
    the set-up.  Whenever it returns, for either preconditioner, the flags
    [Preconditioner_has_been_setup] and [Compute_memory_statistics] and the
    recorded [Memory_usage_in_bytes] are as before (and so are the bandwidth
    and the orientation of the banded preconditioner): the preconditioner
    still counts as set up, and [get_memory_usage_in_bytes()] answers after
    the clean-up exactly what it answered before it. *)
Theorem clean_up_memory_keeps_statistics :
  (∀ (p p' : ExactDGP.ExactDGPBlockPreconditioner Base) (w w' : world),
     ExactDGP.clean_up_memory Base Base_clean_up_memory p w = Ok p' w' →
     ExactDGP.Preconditioner_has_been_setup Base p'
       = ExactDGP.Preconditioner_has_been_setup Base p ∧
     ExactDGP.Compute_memory_statistics Base p'
       = ExactDGP.Compute_memory_statistics Base p ∧
     ExactDGP.Memory_usage_in_bytes Base p' = ExactDGP.Memory_usage_in_bytes Base p ∧
     ∀ w2, ExactDGP.get_memory_usage_in_bytes Base p' w2
           = ExactDGP.get_memory_usage_in_bytes Base p w2) ∧
  (∀ (p p' : BandedBlockTriangularPreconditioner Base) (w w' : world),
     clean_up_memory Base Base_clean_up_memory p w = Ok p' w' →
     Preconditioner_has_been_setup Base p' = Preconditioner_has_been_setup Base p ∧
     Compute_memory_statistics Base p' = Compute_memory_statistics Base p ∧
     Memory_usage_in_bytes Base p' = Memory_usage_in_bytes Base p ∧
     block_bandwidth Base p' = block_bandwidth Base p ∧
     is_upper_triangular Base p' = is_upper_triangular Base p ∧
     ∀ w2, get_memory_usage_in_bytes Base p' w2 = get_memory_usage_in_bytes Base p w2).
Proof.
  split.
  - intros p p' w w' Hrun.
    unfold ExactDGP.clean_up_memory, mbind, M_bind, bind, emit, modify_state, ret in Hrun.
    injection Hrun as <- _. repeat split.
  - intros p p' w w' Hrun.
    unfold clean_up_memory, mbind, M_bind, bind in Hrun.
    destruct (for_loop _ _ _ w) as [d w1| |]; [| discriminate..].
    unfold emit, modify_state, ret in Hrun.
    injection Hrun as <- _. repeat split.
Qed.

End WithBase.

(** A 1 x 2 table whose two slots hold the same operator: the second
    [delete] is a double free. *)
Lemma clean_up_memory_defined_iff_owned_witness :
  clean_up_memory unit id
    (MkBanded unit tt (MkDenseMatrix 1 2 [Some 7; Some 7]) (-1) true true false 0)
    {| operators := {[7]}; log := [] |} = Undefined.
Proof.
  destruct (clean_up_memory_defined_iff_owned unit id
              (MkBanded unit tt (MkDenseMatrix 1 2 [Some 7; Some 7]) (-1) true true false 0)
              {| operators := {[7]}; log := [] |} eq_refl) as (_ & H & _).
  apply H. intros (_ & Hnodup & _). simpl in Hnodup.
  apply NoDup_cons in Hnodup as [Hnotin _]. apply Hnotin. by left.
Defined.

(** A preconditioner that was set up with statistics and recorded 96 bytes:
    after the clean-up it still answers 96. *)
Lemma clean_up_memory_keeps_statistics_witness :
  ∃ p' w',
    clean_up_memory unit id
      (MkBanded unit tt (MkDenseMatrix 1 1 [Some 7]) (-1) true true true 96)
      {| operators := {[7]}; log := [] |} = Ok p' w' ∧
    get_memory_usage_in_bytes unit p' w' = Ok 96%float w'.
Proof.
  destruct (clean_up_memory_returns unit id
              (MkBanded unit tt (MkDenseMatrix 1 1 [Some 7]) (-1) true true true 96)
              {| operators := {[7]}; log := [] |}) as (p' & w' & Hrun).
  - split; [reflexivity |]. split.
    + simpl. apply NoDup_singleton.
    + simpl. intros a Ha. set_solver.
  - exists p', w'. split; [exact Hrun |].
    destruct (clean_up_memory_keeps_statistics unit id) as [_ H].
    destruct (H _ _ _ _ Hrun) as (_ & _ & _ & _ & _ & Hget).
    rewrite Hget. reflexivity.
Defined.

End CleanUpMoreFacts.

(** ** The elements of time-harmonic Fourier-decomposed linear elasticity *)

Module ElasticityFacts.
Import Oomph OomphFacts Elasticity.

Section WithFiniteElement.

Variable St : Type.
Variable nnode : nat.
Variable nodal_local_eqn : nat → nat → Z.
Variable eqn_number : nat → nat.

Lemma dofs_in_order_S n :
  dofs_in_order nodal_local_eqn eqn_number (S n)
  = dofs_in_order nodal_local_eqn eqn_number n
    ++ (i ← seq 0 6; dof_of nodal_local_eqn eqn_number n i).
Proof.
  unfold dofs_in_order. rewrite (seq_S n 0), bind_app. f_equal.
  change (0 + n) with n. apply app_nil_r.
Qed.

Lemma elem_of_dofs_in_order n g t :
  (g, t) ∈ dofs_in_order nodal_local_eqn eqn_number n ↔
  t = 0 ∧ ∃ k i, k < n ∧ i < 6 ∧ (nodal_local_eqn k i >= 0)%Z ∧
                 g = eqn_number (Z.to_nat (nodal_local_eqn k i)).
Proof.
  unfold dofs_in_order. rewrite list_elem_of_bind. split.
  - intros (k & Hin & Hk). apply elem_of_seq in Hk.
    apply list_elem_of_bind in Hin as (i & Hin & Hi). apply elem_of_seq in Hi.
    unfold dof_of in Hin.
    destruct (Z.geb_spec (nodal_local_eqn k i) 0) as [Hfree|Hpinned].
    + apply list_elem_of_singleton in Hin. injection Hin as -> ->.
      split; [done |]. exists k, i. repeat split; lia.
    + by apply not_elem_of_nil in Hin.
  - intros (-> & k & i & Hk & Hi & Hfree & ->).
    exists k. split; [| apply elem_of_seq; lia].
    apply list_elem_of_bind. exists i. split; [| apply elem_of_seq; lia].
    unfold dof_of.
    destruct (Z.geb_spec (nodal_local_eqn k i) 0); [| lia].
    by apply list_elem_of_singleton.
Qed.

(** X23: [get_dof_numbers_for_unknowns] puts the unknowns of the element
    in front of the list it is given.  It returns normally and leaves the
    state alone; the entries that the list held are kept, in their order, at
    its end; in front of them stands one pair for each nodal value that is not
    pinned (local equation number >= 0) among the six values of each node:
    the global equation number of the value and the DOF type 0, which is
    below [ndof_types()]; pinned values get no pair; and since each pair is
    pushed to the front, the pairs stand in the reverse of the order in which
    nodes and values are visited. *)
Theorem get_dof_numbers_for_unknowns_prepends (dof_lookup_list : list (nat * nat))
    (s : St) :
  get_dof_numbers_for_unknowns St nnode nodal_local_eqn eqn_number dof_lookup_list s
  = Ok (reverse (dofs_in_order nodal_local_eqn eqn_number nnode) ++ dof_lookup_list) s ∧
  (∀ g t, (g, t) ∈ reverse (dofs_in_order nodal_local_eqn eqn_number nnode) ↔
          t = 0 ∧ ∃ n i, n < nnode ∧ i < 6 ∧ (nodal_local_eqn n i >= 0)%Z ∧
                         g = eqn_number (Z.to_nat (nodal_local_eqn n i))) ∧
  (∀ g t, (g, t) ∈ reverse (dofs_in_order nodal_local_eqn eqn_number nnode) →
          t < ndof_types).
Proof.
  split; [| split].
  - unfold get_dof_numbers_for_unknowns.
    destruct (for_loop_invariant
      (λ n (l : list (nat * nat)) s',
         l = reverse (dofs_in_order nodal_local_eqn eqn_number n) ++ dof_lookup_list ∧ s' = s)
      (λ n dof_lookup_list,
         for_loop 6 (λ i dof_lookup_list,
           let local_unknown := nodal_local_eqn n i in
           if (local_unknown >=? 0)%Z then
             let dof_lookup := (eqn_number (Z.to_nat local_unknown), 0) in
             ret (dof_lookup :: dof_lookup_list)
           else ret dof_lookup_list) dof_lookup_list)
      nnode dof_lookup_list s) as (l & s' & Hrun & -> & ->); [done | |].
    + intros n l s0 Hn [-> ->].
      destruct (for_loop_invariant
        (λ i (l : list (nat * nat)) s',
           l = reverse (k ← seq 0 i; dof_of nodal_local_eqn eqn_number n k)
               ++ reverse (dofs_in_order nodal_local_eqn eqn_number n) ++ dof_lookup_list
           ∧ s' = s)
        (λ i dof_lookup_list,
           let local_unknown := nodal_local_eqn n i in
           if (local_unknown >=? 0)%Z then
             let dof_lookup := (eqn_number (Z.to_nat local_unknown), 0) in
             ret (dof_lookup :: dof_lookup_list)
           else ret dof_lookup_list)
        6 (reverse (dofs_in_order nodal_local_eqn eqn_number n) ++ dof_lookup_list) s)
        as (l & s' & Hrun & -> & ->); [done | |].
      * intros i l s0 Hi [-> ->].
        exists (reverse (dof_of nodal_local_eqn eqn_number n i)
                ++ reverse (k ← seq 0 i; dof_of nodal_local_eqn eqn_number n k)
                ++ reverse (dofs_in_order nodal_local_eqn eqn_number n) ++ dof_lookup_list), s.
        split; [| split; [| done]].
        -- cbv zeta. unfold dof_of.
           destruct (nodal_local_eqn n i >=? 0)%Z eqn:Hfree; reflexivity.
        -- rewrite (seq_S i 0), bind_app, reverse_app, <- app_assoc.
           f_equal. change (0 + i) with i. simpl. by rewrite app_nil_r.
      * exists (reverse (k ← seq 0 6; dof_of nodal_local_eqn eqn_number n k)
                ++ reverse (dofs_in_order nodal_local_eqn eqn_number n) ++ dof_lookup_list), s.
        split; [done |]. split; [| done].
        by rewrite dofs_in_order_S, reverse_app, <- app_assoc.
    + done.
  - intros g t. rewrite elem_of_reverse. apply elem_of_dofs_in_order.
  - intros g t Hin. rewrite elem_of_reverse in Hin.
    apply elem_of_dofs_in_order in Hin as [-> _]. unfold ndof_types. lia.
Qed.

Variable dim : nat.
Variable shape : list float → nat → float.
Variable nodal_value : nat → nat → float.
Variable get_strain : list float → nat → nat → complex float.
Variable Default_omega_sq_value : complex float.
Variable Default_youngs_modulus_value : complex float.
Variable Vector_entry_outside : ∀ A : Type, M St A.

Lemma Vector_set_inside {T} (v : list T) (i : nat) (x : T) (s : St) :
  i < length v → Vector_set St Vector_entry_outside v i x s = Ok (<[i := x]> v) s.
Proof. intros Hi. unfold Vector_set. by rewrite decide_True. Qed.

Lemma Vector_get_inside {T} (v : list T) (i : nat) (x : T) (s : St) :
  v !! i = Some x → Vector_get St Vector_entry_outside v i s = Ok x s.
Proof. intros Hi. unfold Vector_get. by rewrite Hi. Qed.

(** X24: [get_Z2_flux] fills in [num_Z2_flux_terms()] numbers.  In a
    [PARANOID] build a flux vector that does not have 12 entries is refused
    with an error that names its size.  Otherwise, for a vector of at least
    12 entries, the call returns normally and the first 12 entries are, in
    this order, the real and the imaginary part of the strain entries (0,0),
    (1,1), (2,2), (0,1), (0,2), (1,2); what they held before does not matter
    and later entries are kept.  12 is what [num_Z2_flux_terms()] returns. *)
Theorem get_Z2_flux_packs_strain (cfg : build_config) (s flux : list float) (w : St) :
  (PARANOID cfg = true → length flux ≠ 12 →
   get_Z2_flux St get_strain Vector_entry_outside cfg s flux w
   = Throw (wrong_flux_size_error (length flux)) w) ∧
  ((PARANOID cfg = true → length flux = 12) → 12 ≤ length flux →
   get_Z2_flux St get_strain Vector_entry_outside cfg s flux w
   = Ok (packed_strain (get_strain s) ++ drop 12 flux) w) ∧
  length (packed_strain (get_strain s)) = num_Z2_flux_terms.
Proof.
  split; [| split; [| done]].
  - intros Hp Hlen. unfold get_Z2_flux. rewrite Hp.
    by rewrite bool_decide_eq_false_2.
  - intros Hcheck Hlen.
    assert (Hchecks :
      (if PARANOID cfg
       then let num_entries := 12 in
            if negb (bool_decide (length flux = num_entries))
            then throw (wrong_flux_size_error (length flux))
            else ret tt
       else ret tt) w = Ok tt w).
    { destruct (PARANOID cfg); [| done]. cbv zeta.
      by rewrite bool_decide_eq_true_2 by (by apply Hcheck). }
    unfold get_Z2_flux. rewrite (mbind_Ok _ _ _ _ _ Hchecks).
    do 12 (destruct flux as [|? flux]; [simpl in Hlen; lia |]).
    reflexivity.
Qed.

(** X25: parameters that have not been set.  The constructor leaves the
    pointers to Poisson's ratio and to the Fourier wavenumber null and sets no
    body force.  [nu()] and [fourier_wavenumber()] return the value behind a
    pointer that has been set, in every build; for a null pointer they throw
    in a [PARANOID] build and dereference it (undefined behaviour) otherwise;
    so both fail on a newly constructed element, while [omega_sq()] and
    [youngs_modulus()] return the default values.  Without a body force
    function, [body_force(x, b)] sets the first [dim()] entries of a vector
    [b] of at least [dim()] entries to zero and keeps the others. *)
Theorem unset_parameters (cfg : build_config)
    (e : TimeHarmonicFourierDecomposedLinearElasticityEquationsBase St) (w : St) :
  (Nu_pt St e = None →
   nu St cfg e w = if PARANOID cfg then Throw no_nu_error w else Undefined) ∧
  (∀ x, Nu_pt St e = Some x → nu St cfg e w = Ok x w) ∧
  (Fourier_wavenumber_pt St e = None →
   fourier_wavenumber St cfg e w
   = if PARANOID cfg then Throw no_fourier_wavenumber_error w else Undefined) ∧
  (∀ k, Fourier_wavenumber_pt St e = Some k → fourier_wavenumber St cfg e w = Ok k w) ∧
  (let new := TimeHarmonicFourierDecomposedLinearElasticityEquationsBase_constructor St
                Default_omega_sq_value Default_youngs_modulus_value in
   Nu_pt St new = None ∧ Fourier_wavenumber_pt St new = None ∧
   Body_force_fct_pt St new = None ∧
   omega_sq St new w = Ok Default_omega_sq_value w ∧
   youngs_modulus St new w = Ok Default_youngs_modulus_value w) ∧
  (Body_force_fct_pt St e = None →
   ∀ x b, dim ≤ length b →
     body_force St dim Vector_entry_outside e x b w
     = Ok (replicate dim (Complex 0%float 0%float) ++ drop dim b) w).
Proof.
  split; [| split; [| split; [| split; [| split]]]].
  - intros Hnull. unfold nu. rewrite Hnull. by destruct (PARANOID cfg).
  - intros x Hset. unfold nu. rewrite Hset. by destruct (PARANOID cfg).
  - intros Hnull. unfold fourier_wavenumber. rewrite Hnull. by destruct (PARANOID cfg).
  - intros k Hset. unfold fourier_wavenumber. rewrite Hset. by destruct (PARANOID cfg).
  - done.
  - intros Hnull x b Hlen. unfold body_force. rewrite Hnull. cbv zeta.
    destruct (for_loop_invariant
      (λ i (b' : list (complex float)) w',
         b' = replicate i (Complex 0%float 0%float) ++ drop i b ∧ w' = w)
      (λ i b', Vector_set St Vector_entry_outside b' i (Complex 0%float 0%float))
      dim b w) as (b' & w' & Hrun & -> & ->).
    + split; [| done]. by rewrite drop_0.
    + intros i b' w' Hi [-> ->].
      destruct (lookup_lt_is_Some_2 b i ltac:(lia)) as [y Hy].
      eexists _, w. split; [| split; [reflexivity | done]].
      rewrite Vector_set_inside
        by (rewrite length_app, length_replicate, length_drop; lia).
      f_equal.
      rewrite insert_app_r_alt by (rewrite length_replicate; lia).
      rewrite length_replicate, Nat.sub_diag, (drop_S _ _ _ Hy). simpl.
      by rewrite cons_middle, app_assoc, <- replicate_S_end.
    + done.
Qed.

Lemma nodal_sum_S (s : list float) (i n : nat) :
  nodal_sum shape nodal_value s i (S n)
  = complex_add (nodal_sum shape nodal_value s i n)
      (complex_scale (Complex (nodal_value n i) (nodal_value n (i + 3))) (shape s n)).
Proof. unfold nodal_sum. by rewrite (seq_S n 0), foldl_app. Qed.

Lemma u_index_small (i : nat) :
  i < 3 →
  u_index_time_harmonic_fourier_decomposed_linear_elasticity i = Complex i (i + 3).
Proof.
  intros Hi. unfold u_index_time_harmonic_fourier_decomposed_linear_elasticity.
  f_equal. replace (Z.of_nat i + 3)%Z with (Z.of_nat (i + 3)) by lia.
  apply wrap_unsigned_small. lia.
Qed.

(** X26: the two versions of [interpolated_u] agree.  For each of the
    three displacement components [i] the version that returns one component
    gives the sum, over the nodes in their order, of the nodal values [i]
    (real part) and [i + 3] (imaginary part) times the shape function of the
    node; the version that fills a vector, given a vector of at least three
    entries, puts these three sums into its first three entries and keeps the
    others.  Both leave the state alone. *)
Theorem interpolated_u_versions_agree (s : list float) (disp : list (complex float))
    (w : St) :
  (∀ i, i < 3 →
     interpolated_u St nnode shape nodal_value s i w
     = Ok (nodal_sum shape nodal_value s i nnode) w) ∧
  (3 ≤ length disp →
   interpolated_u_vector St nnode shape nodal_value Vector_entry_outside s disp w
   = Ok ([nodal_sum shape nodal_value s 0 nnode;
          nodal_sum shape nodal_value s 1 nnode;
          nodal_sum shape nodal_value s 2 nnode] ++ drop 3 disp) w).
Proof.
  split.
  - intros i Hi. unfold interpolated_u. rewrite (u_index_small i Hi). cbv zeta. simpl.
    destruct (for_loop_invariant
      (λ l (acc : complex float) w', acc = nodal_sum shape nodal_value s i l ∧ w' = w)
      (λ l acc,
         ret (complex_add acc
                (complex_scale (Complex (nodal_value l i) (nodal_value l (i + 3)))
                   (shape s l))))
      nnode (Complex 0%float 0%float) w) as (acc & w' & Hrun & -> & ->); [done | | done].
    intros l acc w' Hl [-> ->]. eexists _, w. split; [reflexivity |].
    by rewrite nodal_sum_S.
  - intros Hlen. unfold interpolated_u_vector. cbv zeta.
    destruct (for_loop_invariant
      (λ k (d : list (complex float)) w',
         d = ((λ i, nodal_sum shape nodal_value s i nnode) <$> seq 0 k) ++ drop k disp
         ∧ w' = w)
      (λ i disp,
         disp ← Vector_set St Vector_entry_outside disp i (Complex 0%float 0%float);
         for_loop nnode (λ l disp,
           d ← Vector_get St Vector_entry_outside disp i;
           Vector_set St Vector_entry_outside disp i
             (complex_add d
                (complex_scale
                   (Complex
                      (nodal_value l
                         (real (u_index_time_harmonic_fourier_decomposed_linear_elasticity i)))
                      (nodal_value l
                         (imag (u_index_time_harmonic_fourier_decomposed_linear_elasticity i))))
                   (shape s l)))) disp)
      3 disp w) as (d & w' & Hrun & -> & ->).
    + split; [| done]. by rewrite drop_0.
    + intros k d w' Hk [-> ->].
      set (done_k := (λ i, nodal_sum shape nodal_value s i nnode) <$> seq 0 k).
      assert (Hdone : length done_k = k) by (unfold done_k; by rewrite length_fmap, length_seq).
      destruct (lookup_lt_is_Some_2 disp k ltac:(lia)) as [y Hy].
      assert (Hput : ∀ x, <[k := x]> (done_k ++ drop k disp)
                          = done_k ++ x :: drop (S k) disp).
      { intros x. rewrite insert_app_r_alt by lia.
        by rewrite Hdone, Nat.sub_diag, (drop_S _ _ _ Hy). }
      assert (Hlength : ∀ x, k < length (done_k ++ x :: drop (S k) disp)).
      { intros x. rewrite length_app, Hdone. simpl. lia. }
      rewrite (u_index_small k Hk). cbn [real imag].
      eexists _, w. split; [| split; [| done]].
      * rewrite (mbind_Ok _ _ _ _ _
                   (Vector_set_inside (done_k ++ drop k disp) k (Complex 0%float 0%float) w
                      ltac:(rewrite length_app, Hdone, length_drop; lia))).
        rewrite Hput.
        destruct (for_loop_invariant
          (λ l (d : list (complex float)) w',
             d = done_k ++ nodal_sum shape nodal_value s k l :: drop (S k) disp ∧ w' = w)
          (λ l disp,
             d ← Vector_get St Vector_entry_outside disp k;
             Vector_set St Vector_entry_outside disp k
               (complex_add d
                  (complex_scale (Complex (nodal_value l k) (nodal_value l (k + 3)))
                     (shape s l))))
          nnode (done_k ++ Complex 0%float 0%float :: drop (S k) disp) w)
          as (d & w' & Hrun & -> & ->); [done | | exact Hrun].
        intros l d w' Hl [-> ->]. eexists _, w. split; [| split; [reflexivity | done]].
        assert (Hget : (done_k ++ nodal_sum shape nodal_value s k l :: drop (S k) disp) !! k
                       = Some (nodal_sum shape nodal_value s k l)).
        { rewrite lookup_app_r by (rewrite Hdone; lia). by rewrite Hdone, Nat.sub_diag. }
        rewrite (mbind_Ok _ _ _ _ _ (Vector_get_inside _ k _ w Hget)).
        rewrite Vector_set_inside by apply Hlength.
        f_equal. rewrite insert_app_r_alt by (rewrite Hdone; lia).
        rewrite Hdone, Nat.sub_diag. simpl. by rewrite nodal_sum_S.
      * unfold done_k. rewrite (seq_S k 0), fmap_app, <- app_assoc. reflexivity.
    + rewrite Hrun. reflexivity.
Qed.

End WithFiniteElement.

(** A node with two free values and four pinned ones, put in front of a
    list that holds one pair already. *)
Lemma get_dof_numbers_for_unknowns_prepends_witness :
  get_dof_numbers_for_unknowns unit 1
    (λ n i, if decide (i = 1) then 4%Z else if decide (i = 3) then 0%Z else (-1)%Z)
    (λ local, 100 + local) [(7, 0)] tt
  = Ok [(100, 0); (104, 0); (7, 0)] tt.
Proof.
  destruct (get_dof_numbers_for_unknowns_prepends unit 1
              (λ n i, if decide (i = 1) then 4%Z else if decide (i = 3) then 0%Z else (-1)%Z)
              (λ local, 100 + local) [(7, 0)] tt) as (H & _).
  exact H.
Defined.

(** A flux vector of 13 entries in a build without [PARANOID]: the first
    twelve are overwritten, the last is kept. *)
Lemma get_Z2_flux_packs_strain_witness :
  get_Z2_flux unit (λ _ i j, Complex (PrimFloat.of_uint63 (Uint63.of_nat (3 * i + j))) 0%float)
    (λ A, undefined) (BuildConfig false false false) []
    [9; 9; 9; 9; 9; 9; 9; 9; 9; 9; 9; 9; 9]%float tt
  = Ok [0; 0; 4; 0; 8; 0; 1; 0; 2; 0; 5; 0; 9]%float tt.
Proof.
  destruct (get_Z2_flux_packs_strain unit
              (λ _ i j, Complex (PrimFloat.of_uint63 (Uint63.of_nat (3 * i + j))) 0%float)
              (λ A, undefined) (BuildConfig false false false) []
              [9; 9; 9; 9; 9; 9; 9; 9; 9; 9; 9; 9; 9]%float tt) as (_ & H & _).
  rewrite H; [vm_compute; reflexivity | discriminate | simpl; lia].
Defined.

(** A newly constructed element in a [PARANOID] build. *)
Lemma unset_parameters_witness :
  nu unit (BuildConfig true true true)
    (TimeHarmonicFourierDecomposedLinearElasticityEquationsBase_constructor unit
       (Complex 1 0) (Complex 1 0))%float tt
  = Throw no_nu_error tt ∧
  body_force unit 2 (λ A, undefined)
    (TimeHarmonicFourierDecomposedLinearElasticityEquationsBase_constructor unit
       (Complex 1 0) (Complex 1 0))%float [] [Complex 5 5; Complex 6 6; Complex 7 7]%float tt
  = Ok [Complex 0 0; Complex 0 0; Complex 7 7]%float tt.
Proof.
  destruct (unset_parameters unit 2 (Complex 1 0)%float (Complex 1 0)%float (λ A, undefined)
              (BuildConfig true true true)
              (TimeHarmonicFourierDecomposedLinearElasticityEquationsBase_constructor unit
                 (Complex 1 0) (Complex 1 0))%float tt) as (Hnu & _ & _ & _ & _ & Hforce).
  split.
  - rewrite Hnu; reflexivity.
  - rewrite Hforce; [reflexivity | reflexivity | simpl; lia].
Defined.

(** Two nodes with shape functions 0.5 each: the first component is the
    mean of the nodal values 0 (real part) and 3 (imaginary part). *)
Lemma interpolated_u_versions_agree_witness :
  interpolated_u_vector unit 2 (λ _ _, 0.5%float)
    (λ l i, PrimFloat.of_uint63 (Uint63.of_nat (10 * l + i))) (λ A, undefined) []
    [Complex 9 9; Complex 9 9; Complex 9 9]%float tt
  = Ok [Complex 5 8; Complex 6 9; Complex 7 10]%float tt.
Proof.
  destruct (interpolated_u_versions_agree unit 2 (λ _ _, 0.5%float)
              (λ l i, PrimFloat.of_uint63 (Uint63.of_nat (10 * l + i))) (λ A, undefined) []
              [Complex 9 9; Complex 9 9; Complex 9 9]%float tt) as (_ & H).
  rewrite H; [vm_compute; reflexivity | simpl; lia].
Defined.

End ElasticityFacts.
